(** * Scan-to-order: cart engine, order store and order lifecycle

    A shallow embedding of the ordering core of the souffle stall
    application (the React component [App] with its cart functions and
    [submitOrder], the localStorage functions [getAllOrders],
    [saveAllOrders] and [nextQueueNumber], the expiry sweep and the
    callbacks and buttons of [StaffBoard]), with the properties of its
    specification stated and settled against it.

    Conventions of the embedding.
    - A JavaScript string is its sequence of UTF-16 code units.
    - Quantities, counters and epoch-millisecond timestamps are integral
      JavaScript numbers and are modelled in [Z]; prices and totals are
      modelled in [Q].  Arithmetic on them is exact here; in the program it
      is IEEE double arithmetic, which is exact on the catalog prices
      (multiples of 0.5) and on every count below 2^53.
    - Add-on objects are mutated in place by the program
      ([ex.qty += 1]) and are therefore kept in a heap and referred to by
      location: two arrays holding the same location hold the same object.
      Line items and arrays are always copied before they change and are
      plain values.
    - What localStorage holds under the orders key is a JSON document; an
      order object read from it keeps JSON values in the fields that
      [getAllOrders] does not coerce.
    - localStorage, the clock (one reading per [Date.now()] or
      [new Date()]) and the pending [setTimeout] callbacks are explicit
      state; React state updates take effect when the handler runs.
    Of the rendering, the cart badge, the amounts beside the cart lines,
    the countdown of the confirmation page and the list of the staff board
    are modelled; of the Firestore adapter, which the component does not
    call, the objects it builds.  The rest of the rendering, the PIN gate
    of the staff view and the Firestore calls themselves are left out. *)

From Stdlib Require Import ZArith QArith Qround Lqa NArith List String Ascii Lia.
From Stdlib Require Import Sorted Permutation.
From stdpp Require Import base list.
Import ListNotations.
Open Scope Z_scope.

(** ** JavaScript strings *)

Definition jstring := list N.

Definition lit (s : string) : jstring :=
  map N_of_ascii (list_ascii_of_string s).

Fixpoint str_eqb (a b : jstring) : bool :=
  match a, b with
  | [], [] => true
  | x :: a', y :: b' => N.eqb x y && str_eqb a' b'
  | _, _ => false
  end.

(** [WhiteSpace] and [LineTerminator] code points of ECMAScript, the
    characters [String.prototype.trim] strips. *)
Definition is_ws (c : N) : bool :=
  existsb (N.eqb c)
    [9; 10; 11; 12; 13; 32; 160; 5760; 8232; 8233; 8239; 8287; 12288; 65279]%N
  || (N.leb 8192 c && N.leb c 8202).

Fixpoint trimStart (s : jstring) : jstring :=
  match s with
  | c :: r => if is_ws c then trimStart r else s
  | [] => []
  end.

Definition trim (s : jstring) : jstring :=
  rev (trimStart (rev (trimStart s))).

(** ** Catalog *)

Module Flavor.
Record t := mk
  { id : jstring; name : jstring; priceDelta : option Q; popular : option bool }.
End Flavor.

Module Drink.
Record t := mk { id : jstring; name : jstring; price : Q }.
End Drink.

Definition PRODUCT_id : jstring := Eval cbv in lit "souffle".
Definition PRODUCT_name : jstring := Eval cbv in (lit "Souffl" ++ [233%N]).
Definition PRODUCT_basePrice : Q := 12.

Definition flavor (i n : string) (d : option Q) (p : option bool) : Flavor.t :=
  Flavor.mk (lit i) (lit n) d p.

Definition FLAVORS : list Flavor.t :=
  [ flavor "van" "Vanilla" None None;
    flavor "cho" "Chocolate" None (Some true);
    flavor "mat" "Matcha" (Some 1.5%Q) (Some true);
    flavor "str" "Strawberry" None None;
    flavor "mng" "Mango" None None;
    flavor "egl" "Earl Grey" None None;
    flavor "hoj" "Hojicha" (Some 1.5%Q) None;
    flavor "blu" "Blueberry" None None;
    flavor "bis" "Biscoff" (Some 2%Q) None ].

Definition DRINKS : list Drink.t :=
  [ Drink.mk (lit "drink-hojicha") (lit "Hojicha (Drink)") 3 ].

Definition CHEESE_id : jstring := Eval cbv in lit "addon-cheese".
Definition CHEESE_name : jstring := Eval cbv in lit "Cheese Topping".
Definition CHEESE_price : Q := 2.

(** [f.priceDelta || 0]: an absent delta counts as 0. *)
Definition priceFor (f : Flavor.t) : Q :=
  (PRODUCT_basePrice + match Flavor.priceDelta f with Some d => d | None => 0 end)%Q.

Definition PAYMENT_WINDOW_MIN : Z := 10.

(** ** Cart line items and add-on objects *)

Module Addon.
Record t := mk { id : jstring; name : jstring; price : Q; qty : Z }.
End Addon.

(** Add-on objects live in the heap; a location is an index into it, and
    allocation appends. *)
Abbreviation loc := nat (only parsing).
Abbreviation Heap := (list Addon.t) (only parsing).

Module CartItem.
Record t := mk
  { sku : jstring; flavorId : jstring; name : jstring;
    unitPrice : Q; qty : Z; addons : option (list loc) }.
(** [{ ...p, qty: q }] *)
Definition with_qty (p : t) (q : Z) : t :=
  mk (sku p) (flavorId p) (name p) (unitPrice p) q (addons p).
(** [{ ...p, addons }] *)
Definition with_addons (p : t) (a : list loc) : t :=
  mk (sku p) (flavorId p) (name p) (unitPrice p) (qty p) (Some a).
End CartItem.

Definition Cart := list CartItem.t.

Definition has_sku (s : jstring) (p : CartItem.t) : bool :=
  str_eqb (CartItem.sku p) s.

Definition bump (s : jstring) (d : Z) (prev : Cart) : Cart :=
  map (fun p => if has_sku s p then CartItem.with_qty p (CartItem.qty p + d) else p) prev.

Definition flavor_sku (f : Flavor.t) : jstring :=
  PRODUCT_id ++ lit "-" ++ Flavor.id f.

Definition addFlavor (f : Flavor.t) (prev : Cart) : Cart :=
  let sku := flavor_sku f in
  match find (has_sku sku) prev with
  | Some _ => bump sku 1 prev
  | None =>
      prev ++ [ CartItem.mk sku (Flavor.id f)
                  (PRODUCT_name ++ [32; 8212; 32]%N ++ Flavor.name f)
                  (priceFor f) 1 (Some []) ]
  end.

(** [DRINKS.find(...)!]: an unknown id leaves [d] undefined and the updater
    throws on [d.id]; that is the [None] result. *)
Definition addDrink (id : jstring) (prev : Cart) : option Cart :=
  match find (fun x => str_eqb (Drink.id x) id) DRINKS with
  | None => None
  | Some d =>
      Some match find (has_sku (Drink.id d)) prev with
           | Some _ => bump (Drink.id d) 1 prev
           | None =>
               prev ++ [ CartItem.mk (Drink.id d) [] (Drink.name d)
                           (Drink.price d) 1 (Some []) ]
           end
  end.

Definition inc (sku : jstring) (prev : Cart) : Cart := bump sku 1 prev.

Definition dec (sku : jstring) (prev : Cart) : Cart :=
  match find (has_sku sku) prev with
  | None => prev
  | Some x =>
      if CartItem.qty x <=? 1
      then List.filter (fun p => negb (has_sku sku p)) prev
      else bump sku (-1) prev
  end.

Definition clearCart (prev : Cart) : Cart := [].

(** [addons.find((a) => a.id === id)] on an array of add-on objects. *)
Fixpoint find_addon (h : Heap) (id : jstring) (ls : list loc)
  : option (loc * Addon.t) :=
  match ls with
  | [] => None
  | l :: r =>
      match h !! l with
      | Some a => if str_eqb (Addon.id a) id then Some (l, a) else find_addon h id r
      | None => find_addon h id r
      end
  end.

Definition new_cheese : Addon.t := Addon.mk CHEESE_id CHEESE_name CHEESE_price 1.

(** [ex.qty += 1]: the object at [l] is updated where it lives. *)
Definition incr_qty (l : loc) (a : Addon.t) (h : Heap) : Heap :=
  <[ l := Addon.mk (Addon.id a) (Addon.name a) (Addon.price a) (Addon.qty a + 1) ]> h.

(** The body of the [prev.map] callback of [addCheeseToSouffle]: the add-on
    array is copied, the add-on object found in it is not. *)
Definition cheese_souffle_item (sku : jstring) (p : CartItem.t) (h : Heap)
  : CartItem.t * Heap :=
  if negb (has_sku sku p) then (p, h) else
  let addons := match CartItem.addons p with Some l => l | None => [] end in
  match find_addon h CHEESE_id addons with
  | Some (l, ex) => (CartItem.with_addons p addons, incr_qty l ex h)
  | None => (CartItem.with_addons p (addons ++ [length h]), h ++ [new_cheese])
  end.

(** The callback of [addCheeseToDrink]; [max] is the line's own quantity. *)
Definition cheese_drink_item (sku : jstring) (p : CartItem.t) (h : Heap)
  : CartItem.t * Heap :=
  if negb (has_sku sku p) then (p, h) else
  let addons := match CartItem.addons p with Some l => l | None => [] end in
  let max := CartItem.qty p in
  match find_addon h CHEESE_id addons with
  | Some (l, ex) =>
      (CartItem.with_addons p addons,
       if Addon.qty ex <? max then incr_qty l ex h else h)
  | None => (CartItem.with_addons p (addons ++ [length h]), h ++ [new_cheese])
  end.

(** [prev.map(f)] for a callback with an effect on the heap. *)
Fixpoint map_heap (f : CartItem.t -> Heap -> CartItem.t * Heap)
    (c : Cart) (h : Heap) : Cart * Heap :=
  match c with
  | [] => ([], h)
  | p :: r =>
      let '(p', h1) := f p h in
      let '(r', h2) := map_heap f r h1 in
      (p' :: r', h2)
  end.

Definition addCheeseToSouffle (sku : jstring) (prev : Cart) (h : Heap) : Cart * Heap :=
  map_heap (cheese_souffle_item sku) prev h.

Definition addCheeseToDrink (sku : jstring) (prev : Cart) (h : Heap) : Cart * Heap :=
  map_heap (cheese_drink_item sku) prev h.

(** The [useMemo] value [subtotal]: two nested [reduce] calls. *)
Definition addons_total (h : Heap) (ls : list loc) : Q :=
  fold_left
    (fun a l => match h !! l with
                | Some ad => (a + Addon.price ad * inject_Z (Addon.qty ad))%Q
                | None => a
                end)
    ls 0%Q.

Definition subtotal (cart : Cart) (h : Heap) : Q :=
  fold_left
    (fun s i =>
       let base := (CartItem.unitPrice i * inject_Z (CartItem.qty i))%Q in
       let add := addons_total h (match CartItem.addons i with Some l => l | None => [] end) in
       (s + base + add)%Q)
    cart 0%Q.

(** [Number.prototype.toFixed(2)] read back by [parseFloat]: the nearest
    multiple of 1/100, ties away from zero (the sign is split off first). *)
Definition round_half_up (x : Q) : Z := Qfloor (x * 100 + (1 # 2))%Q.

Definition toFixed2 (x : Q) : Q :=
  if Qle_bool 0 x then (round_half_up x # 100)%Q
  else (- (round_half_up (- x) # 100))%Q.

(** ** JSON values and JavaScript coercions *)

#[warnings="-register-all"]
Inductive JSON :=
| JNull
| JBool (b : bool)
| JNum (q : Q)
| JStr (s : jstring)
| JArr (l : list JSON)
| JObj (fields : list (jstring * JSON)).

(** A number after coercion: [NaN] or a finite value. *)
Inductive num := NaN | Fin (q : Q).

Fixpoint assoc (k : jstring) (fs : list (jstring * JSON)) : option JSON :=
  match fs with
  | [] => None
  | (k', v) :: r => if str_eqb k' k then Some v else assoc k r
  end.

(** The property names the program reads and writes. *)
Module Key.
Definition id : jstring := Eval vm_compute in lit "id".
Definition items : jstring := Eval vm_compute in lit "items".
Definition total : jstring := Eval vm_compute in lit "total".
Definition status : jstring := Eval vm_compute in lit "status".
Definition createdAt : jstring := Eval vm_compute in lit "createdAt".
Definition expiresAt : jstring := Eval vm_compute in lit "expiresAt".
Definition note : jstring := Eval vm_compute in lit "note".
Definition pickupName : jstring := Eval vm_compute in lit "pickupName".
Definition phone : jstring := Eval vm_compute in lit "phone".
Definition marketingOptIn : jstring := Eval vm_compute in lit "marketingOptIn".
Definition sku : jstring := Eval vm_compute in lit "sku".
Definition name : jstring := Eval vm_compute in lit "name".
Definition unitPrice : jstring := Eval vm_compute in lit "unitPrice".
Definition qty : jstring := Eval vm_compute in lit "qty".
Definition addons : jstring := Eval vm_compute in lit "addons".
Definition price : jstring := Eval vm_compute in lit "price".
End Key.

(** [o.k] on a non-null value; [None] is [undefined].  None of the keys
    read by the program is a property of a string, number, boolean or
    array. *)
Definition get (o : JSON) (k : jstring) : option JSON :=
  match o with
  | JObj fs => assoc k fs
  | _ => None
  end.

(** [v ?? d] *)
Definition coalesce (v : option JSON) (d : JSON) : JSON :=
  match v with
  | None | Some JNull => d
  | Some x => x
  end.

(** [v ?? undefined] *)
Definition non_null (v : option JSON) : option JSON :=
  match v with
  | None | Some JNull => None
  | Some x => Some x
  end.

Definition truthy (v : option JSON) : bool :=
  match v with
  | None | Some JNull => false
  | Some (JBool b) => b
  | Some (JNum q) => negb (Qeq_bool q 0)
  | Some (JStr s) => match s with [] => false | _ => true end
  | Some (JArr _) | Some (JObj _) => true
  end.

Definition truthy_num (v : option num) : bool :=
  match v with
  | Some (Fin q) => negb (Qeq_bool q 0)
  | Some NaN | None => false
  end.

(** [a === b] where [b] was freshly parsed: arrays and objects are compared
    by identity and so never equal. *)
Definition strict_eq (a b : JSON) : bool :=
  match a, b with
  | JNull, JNull => true
  | JBool x, JBool y => Bool.eqb x y
  | JNum x, JNum y => Qeq_bool x y
  | JStr x, JStr y => str_eqb x y
  | _, _ => false
  end.

(** ** Orders *)

Inductive Status := New | Paid | Preparing | Ready | Done | Cancelled.

Definition status_name : Status -> jstring :=
  Eval vm_compute in
    fun s => match s with
             | New => lit "New" | Paid => lit "Paid" | Preparing => lit "Preparing"
             | Ready => lit "Ready" | Done => lit "Done" | Cancelled => lit "Cancelled"
             end.

Definition allowed : list Status := [New; Paid; Preparing; Ready; Done; Cancelled].

Definition status_eqb (a b : Status) : bool :=
  match a, b with
  | New, New | Paid, Paid | Preparing, Preparing
  | Ready, Ready | Done, Done | Cancelled, Cancelled => true
  | _, _ => false
  end.

(** An order object as the program holds it after [getAllOrders] or builds
    it in [submitOrder].  TypeScript's types are erased at run time, so the
    fields that are not coerced keep whatever JSON value was stored. *)
Module Order.
Record t := mk
  { id : JSON; items : JSON; total : num; status : Status;
    createdAt : num; expiresAt : option num; note : option JSON;
    pickupName : JSON; phone : option JSON; marketingOptIn : bool }.
(** [{ ...o, status: s }] *)
Definition with_status (o : t) (s : Status) : t :=
  mk (id o) (items o) (total o) s (createdAt o) (expiresAt o) (note o)
     (pickupName o) (phone o) (marketingOptIn o).
End Order.

(** [Partial<Order>]: the fields a patch carries. *)
Module Patch.
Record t := mk
  { id : option JSON; items : option JSON; total : option num;
    status : option Status; createdAt : option num;
    expiresAt : option num; note : option JSON;
    pickupName : option JSON; phone : option JSON;
    marketingOptIn : option bool }.
Definition of_status (s : Status) : t :=
  mk None None None (Some s) None None None None None None.
End Patch.

Definition or_else {A} (p : option A) (d : A) : A :=
  match p with Some x => x | None => d end.

(** [{ ...o, ...patch }] *)
Definition merge (o : Order.t) (p : Patch.t) : Order.t :=
  Order.mk
    (or_else (Patch.id p) (Order.id o))
    (or_else (Patch.items p) (Order.items o))
    (or_else (Patch.total p) (Order.total o))
    (or_else (Patch.status p) (Order.status o))
    (or_else (Patch.createdAt p) (Order.createdAt o))
    (match Patch.expiresAt p with Some e => Some e | None => Order.expiresAt o end)
    (match Patch.note p with Some e => Some e | None => Order.note o end)
    (or_else (Patch.pickupName p) (Order.pickupName o))
    (match Patch.phone p with Some e => Some e | None => Order.phone o end)
    (or_else (Patch.marketingOptIn p) (Order.marketingOptIn o)).

(** *** [JSON.stringify] followed by [JSON.parse] *)

Definition num_json (n : num) : JSON :=
  match n with NaN => JNull | Fin q => JNum q end.

Definition opt_field (k : jstring) (v : option JSON) : list (jstring * JSON) :=
  match v with Some j => [(k, j)] | None => [] end.

Definition order_json (o : Order.t) : JSON :=
  JObj ([ (Key.id, Order.id o);
          (Key.items, Order.items o);
          (Key.total, num_json (Order.total o));
          (Key.status, JStr (status_name (Order.status o)));
          (Key.createdAt, num_json (Order.createdAt o)) ]
        ++ opt_field Key.expiresAt (option_map num_json (Order.expiresAt o))
        ++ opt_field Key.note (Order.note o)
        ++ [ (Key.pickupName, Order.pickupName o) ]
        ++ opt_field Key.phone (Order.phone o)
        ++ [ (Key.marketingOptIn, JBool (Order.marketingOptIn o)) ]).

Definition addon_json (a : Addon.t) : JSON :=
  JObj [ (Key.id, JStr (Addon.id a)); (Key.name, JStr (Addon.name a));
         (Key.price, JNum (Addon.price a));
         (Key.qty, JNum (inject_Z (Addon.qty a))) ].

(** The add-on objects an array of locations holds at the moment it is
    read. *)
Definition deref (h : Heap) (ls : list loc) : list Addon.t :=
  omap (fun l => h !! l) ls.

(** An [OrderItem] [{ sku, name, unitPrice, qty, addons: c.addons }] as
    serialised under heap [h]: the add-on array is the cart's own. *)
Definition item_json (h : Heap) (c : CartItem.t) : JSON :=
  JObj ([ (Key.sku, JStr (CartItem.sku c));
          (Key.name, JStr (CartItem.name c));
          (Key.unitPrice, JNum (CartItem.unitPrice c));
          (Key.qty, JNum (inject_Z (CartItem.qty c))) ]
        ++ opt_field Key.addons
             (option_map (fun ls => JArr (map addon_json (deref h ls)))
                (CartItem.addons c))).

(** ** The host: localStorage and the clock *)

(** What [localStorage.getItem] returns for the orders key, seen through
    [raw ? JSON.parse(raw) : []]: no text (absent key or empty string),
    text that is not JSON, or the parsed document. *)
Inductive Stored := NoText | BadText | Doc (j : JSON).

(** The text [JSON.stringify(orders)] leaves under the orders key. *)
Definition stored (orders : list Order.t) : Stored :=
  Doc (JArr (map order_json orders)).

(** One reading of the clock: [Date.now()] and the local calendar year
    [new Date().getFullYear()] of the same instant. *)
Record Instant := { ms : Z; year : Z }.

(** The sequence key is written by [nextQueueNumber] alone and removed by
    [wipeAll] alone, so it holds [{ y, n }] or nothing. *)
Record World := mkWorld
  { ls_orders : Stored;
    ls_seq : option (Z * Z);
    clock : nat -> Instant;
    tick : nat }.

Definition M (A : Type) : Type := World -> A * World.

Definition ret {A} (x : A) : M A := fun w => (x, w).

Definition bind {A B} (c : M A) (k : A -> M B) : M B :=
  fun w => let '(x, w') := c w in k x w'.

Notation "'let*' x ':=' c 'in' k" := (bind c (fun x => k))
  (at level 10, x pattern, c at level 100, k at level 200).

Definition read_clock : M Instant :=
  fun w => (clock w (tick w),
            mkWorld (ls_orders w) (ls_seq w) (clock w) (S (tick w))).

Definition Date_now : M Z := let* i := read_clock in ret (ms i).

Definition set_orders_text (t : Stored) : M unit :=
  fun w => (tt, mkWorld t (ls_seq w) (clock w) (tick w)).

Definition get_orders_text : M Stored := fun w => (ls_orders w, w).

Definition get_seq : M (option (Z * Z)) := fun w => (ls_seq w, w).

Definition set_seq (v : option (Z * Z)) : M unit :=
  fun w => (tt, mkWorld (ls_orders w) v (clock w) (tick w)).

(** *** Queue numbers *)

Definition digit (d : Z) : N := (48 + Z.to_N d)%N.

Fixpoint decimal (fuel : nat) (n : Z) (acc : jstring) : jstring :=
  let acc' := digit (n mod 10) :: acc in
  match fuel with
  | O => acc'
  | S f => if n <? 10 then acc' else decimal f (n / 10) acc'
  end.

(** [String(n)] for an integral [n] of magnitude below 10^21 (from there on
    JavaScript prints an exponent); [Z.log2 n] bounds its number of
    digits. *)
Definition String_of (n : Z) : jstring :=
  if n <? 0 then 45%N :: decimal (Z.to_nat (Z.log2 (- n))) (- n) []
  else decimal (Z.to_nat (Z.log2 n)) n [].

(** [s.padStart(3, "0")] *)
Definition padStart3 (s : jstring) : jstring :=
  repeat 48%N (3 - length s) ++ s.

Definition queue_label (n : Z) : jstring :=
  lit "Q-" ++ padStart3 (String_of n).

(** The counter is kept in [Z].  The program's [n] is a double: [n + 1]
    and [String(n)] are what they are here as long as the counter stays
    within 2^53 in magnitude, and the statements about counters carry that
    bound. *)
Definition nextQueueNumber : M jstring :=
  let* now := read_clock in
  let nowYear := year now in
  let* raw := get_seq in
  let '(y, n) := match raw with Some yn => yn | None => (nowYear, 0) end in
  let '(y, n) := if negb (y =? nowYear) then (nowYear, 0) else (y, n) in
  let n := n + 1 in
  let* _ := set_seq (Some (y, n)) in
  ret (queue_label n).

(** [k] successive calls of [nextQueueNumber]. *)
Fixpoint issue (k : nat) : M (list jstring) :=
  match k with
  | O => ret []
  | S k' =>
      let* q := nextQueueNumber in
      let* qs := issue k' in
      ret (q :: qs)
  end.

(** Reading a label back: the decimal number after the prefix ["Q-"]. *)
Definition read_digit (acc : option Z) (c : N) : option Z :=
  match acc with
  | Some v =>
      if (N.leb 48 c && N.leb c 57)%bool
      then Some (10 * v + (Z.of_N c - 48)) else None
  | None => None
  end.

Definition counter_of (label : jstring) : option Z :=
  match label with
  | 81%N :: 45%N :: d :: ds => fold_left read_digit (d :: ds) (Some 0)
  | _ => None
  end.

(** The counter a call made in year [Y] continues from: the stored one
    when it was stored in the same year, 0 otherwise. *)
Definition counter_base (Y : Z) (w : World) : Z :=
  match ls_seq w with
  | Some (y, n) => if y =? Y then n else 0
  | None => 0
  end.

(** *** Reading and writing the order collection *)

Section Store.

(** [Number(v)] on a string, an array or an object goes through
    ECMAScript's string-to-number grammar, which is not interpreted here. *)
Variable coerce : JSON -> num.

Definition Number (v : JSON) : num :=
  match v with
  | JNum q => Fin q
  | JBool true => Fin 1
  | JBool false => Fin 0
  | JNull => Fin 0
  | _ => coerce v
  end.

(** [allowed.includes(s) ? s : "New"] *)
Definition normalize (s : option JSON) : Status :=
  match s with
  | Some (JStr x) =>
      match find (fun a => str_eqb (status_name a) x) allowed with
      | Some a => a
      | None => New
      end
  | _ => New
  end.

(** The callback of [arr.map] in [getAllOrders], on a non-null element.
    Only [Date.now()] has an effect, and only when [createdAt] is nullish. *)
Definition normalize_order (o : JSON) : M Order.t :=
  let* created :=
    match non_null (get o Key.createdAt) with
    | Some v => ret (Number v)
    | None => let* t := Date_now in ret (Fin (inject_Z t))
    end in
  ret (Order.mk
         (coalesce (get o Key.id) (JStr []))
         (coalesce (get o Key.items) (JArr []))
         (Number (coalesce (get o Key.total) (JNum 0)))
         (normalize (get o Key.status))
         created
         (if truthy (get o Key.expiresAt)
          then option_map Number (get o Key.expiresAt) else None)
         (non_null (get o Key.note))
         (coalesce (get o Key.pickupName) (JStr []))
         (non_null (get o Key.phone))
         (truthy (get o Key.marketingOptIn))).

(** [arr.map(...)]; reading a property of [null] throws, which is the
    [None] result. *)
Fixpoint normalize_all (arr : list JSON) : M (option (list Order.t)) :=
  match arr with
  | [] => ret (Some [])
  | JNull :: _ => ret None
  | o :: rest =>
      let* x := normalize_order o in
      let* r := normalize_all rest in
      ret (option_map (cons x) r)
  end.

(** Whatever is thrown inside the [try] (a syntax error of [JSON.parse],
    [arr.map] not being a function, a [null] element) yields [[]]. *)
Definition getAllOrders : M (list Order.t) :=
  let* raw := get_orders_text in
  match raw with
  | Doc (JArr arr) =>
      let* r := normalize_all arr in
      ret (match r with Some l => l | None => [] end)
  | Doc _ | BadText | NoText => ret []
  end.

Definition saveAllOrders (orders : list Order.t) : M unit :=
  set_orders_text (stored orders).

(** ** The component [App] *)

Record UI := mkUI
  { cart : Cart; note : jstring; pickupName : jstring; phone : jstring;
    marketing : bool; placing : bool; placed : option Order.t;
    orders : list Order.t }.

(** What the [setTimeout] callback of [submitOrder] closes over: the values
    of the render in which the button was pressed. *)
Record Closure := mkClosure
  { c_cart : Cart; c_subtotal : Q; c_note : jstring;
    c_pickupName : jstring; c_phone : jstring; c_marketing : bool }.

Record Sys := mkSys
  { ui : UI; heap : Heap; world : World;
    timers : list Closure; alerts : list jstring }.

Definition set_cart (c : Cart) (u : UI) : UI :=
  mkUI c (note u) (pickupName u) (phone u) (marketing u) (placing u)
    (placed u) (orders u).

Definition set_placing (b : bool) (u : UI) : UI :=
  mkUI (cart u) (note u) (pickupName u) (phone u) (marketing u) b
    (placed u) (orders u).

Definition set_orders (os : list Order.t) (u : UI) : UI :=
  mkUI (cart u) (note u) (pickupName u) (phone u) (marketing u) (placing u)
    (placed u) os.

Definition set_pickupName (n : jstring) (u : UI) : UI :=
  mkUI (cart u) (note u) n (phone u) (marketing u) (placing u)
    (placed u) (orders u).

Definition with_ui (u : UI) (s : Sys) : Sys :=
  mkSys u (heap s) (world s) (timers s) (alerts s).

(** [submitOrder], up to and including [setTimeout]. *)
Definition submitOrder (s : Sys) : Sys :=
  let u := ui s in
  match cart u with
  | [] => s
  | _ :: _ =>
      match trim (pickupName u) with
      | [] => mkSys u (heap s) (world s) (timers s)
                (alerts s ++ [lit "Please enter a pickup name."])
      | _ :: _ =>
          mkSys (set_placing true u) (heap s) (world s)
            (timers s ++ [ mkClosure (cart u) (subtotal (cart u) (heap s))
                             (note u) (pickupName u) (phone u) (marketing u) ])
            (alerts s)
      end
  end.

Definition text_or_undefined (t : jstring) : option JSON :=
  match t with [] => None | _ => Some (JStr t) end.

(** The object literal [order] of the timer callback, fields evaluated in
    source order; [h] is the heap when the callback runs. *)
Definition new_order (c : Closure) (h : Heap) : M Order.t :=
  let* id := nextQueueNumber in
  let items := JArr (map (item_json h) (c_cart c)) in
  let total := Fin (toFixed2 (c_subtotal c)) in
  let* created := Date_now in
  let* now := Date_now in
  ret (Order.mk (JStr id) items total New
         (Fin (inject_Z created))
         (Some (Fin (inject_Z (now + PAYMENT_WINDOW_MIN * 60 * 1000))))
         (text_or_undefined (c_note c))
         (JStr (trim (c_pickupName c)))
         (text_or_undefined (trim (c_phone c)))
         (c_marketing c)).

(** [[order, ...getAllOrders()].slice(0, 300)] and the writes after it. *)
Definition place (c : Closure) (h : Heap) : M (Order.t * list Order.t) :=
  let* order := new_order c h in
  let* old := getAllOrders in
  let next := take 300 (order :: old) in
  let* _ := saveAllOrders next in
  ret (order, next).

(** The timer callback, run for the oldest pending timer. *)
Definition fire (s : Sys) : Sys :=
  match timers s with
  | [] => s
  | c :: rest =>
      let '((order, next), w) := place c (heap s) (world s) in
      mkSys (mkUI [] [] [] [] true false (Some order) next)
        (heap s) w rest (alerts s)
  end.

(** The [setInterval] callback: the expiry sweep. *)
Definition overdue (now : Z) (o : Order.t) : bool :=
  status_eqb (Order.status o) New
  && truthy_num (Order.expiresAt o)
  && match Order.expiresAt o with
     | Some (Fin e) => if Qlt_le_dec e (inject_Z now) then true else false
     | _ => false
     end.

Definition sweep_map (now : Z) (current : list Order.t) : list Order.t :=
  map (fun o => if overdue now o then Order.with_status o Cancelled else o) current.

Definition sweep (s : Sys) : Sys :=
  let '(now, w1) := Date_now (world s) in
  let '(current, w2) := getAllOrders w1 in
  let mutated := existsb (overdue now) current in
  let next := sweep_map now current in
  if mutated
  then let '(_, w3) := saveAllOrders next w2 in
       mkSys (set_orders next (ui s)) (heap s) w3 (timers s) (alerts s)
  else mkSys (ui s) (heap s) w2 (timers s) (alerts s).

(** The callbacks handed to [StaffBoard]. *)
Definition updateOrder (id : JSON) (patch : Patch.t) (s : Sys) : Sys :=
  let '(current, w1) := getAllOrders (world s) in
  let next := map (fun o => if strict_eq (Order.id o) id then merge o patch else o) current in
  let '(_, w2) := saveAllOrders next w1 in
  mkSys (set_orders next (ui s)) (heap s) w2 (timers s) (alerts s).

Definition deleteOrder (id : JSON) (s : Sys) : Sys :=
  let '(current, w1) := getAllOrders (world s) in
  let next := List.filter (fun o => negb (strict_eq (Order.id o) id)) current in
  let '(_, w2) := saveAllOrders next w1 in
  mkSys (set_orders next (ui s)) (heap s) w2 (timers s) (alerts s).

Definition wipeAll (confirmed : bool) (s : Sys) : Sys :=
  if confirmed
  then let '(_, w1) := saveAllOrders [] (world s) in
       let '(_, w2) := set_seq None w1 in
       mkSys (set_orders [] (ui s)) (heap s) w2 (timers s) (alerts s)
  else s.

(** The status buttons [StaffBoard] renders on the card of an order with
    status [s], in source order; pressing one calls
    [updateOrder(o.id, { status })]. *)
Definition board_buttons (s : Status) : list Status :=
  (if status_eqb s New then [Paid] else [])
  ++ (if negb (status_eqb s Preparing) then [Preparing] else [])
  ++ (if negb (status_eqb s Ready) then [Ready] else [])
  ++ (if negb (status_eqb s Done) then [Done] else [])
  ++ (if negb (status_eqb s Cancelled) then [Cancelled] else []).

Definition press (o : Order.t) (target : Status) (s : Sys) : Sys :=
  updateOrder (Order.id o) (Patch.of_status target) s.

(** [setCart(updater)] for the cart functions, and the events of a session. *)
Definition update_cart (f : Cart -> Heap -> Cart * Heap) (s : Sys) : Sys :=
  let '(c, h) := f (cart (ui s)) (heap s) in
  mkSys (set_cart c (ui s)) h (world s) (timers s) (alerts s).

Definition pure_update (f : Cart -> Cart) : Cart -> Heap -> Cart * Heap :=
  fun c h => (f c, h).

Inductive Event :=
| EAddFlavor (f : Flavor.t)
| EAddDrink (id : jstring)
| EAddCheeseToSouffle (sku : jstring)
| EAddCheeseToDrink (sku : jstring)
| EInc (sku : jstring)
| EDec (sku : jstring)
| EClearCart
| ESetPickupName (n : jstring)
| ESubmitOrder
| ETimer
| ESweep
| EUpdateOrder (id : JSON) (patch : Patch.t)
| EDeleteOrder (id : JSON)
| EWipeAll (confirmed : bool).

Definition step (e : Event) (s : Sys) : option Sys :=
  match e with
  | EAddFlavor f => Some (update_cart (pure_update (addFlavor f)) s)
  | EAddDrink id =>
      match addDrink id (cart (ui s)) with
      | Some c => Some (update_cart (pure_update (fun _ => c)) s)
      | None => None
      end
  | EAddCheeseToSouffle sku => Some (update_cart (addCheeseToSouffle sku) s)
  | EAddCheeseToDrink sku => Some (update_cart (addCheeseToDrink sku) s)
  | EInc sku => Some (update_cart (pure_update (inc sku)) s)
  | EDec sku => Some (update_cart (pure_update (dec sku)) s)
  | EClearCart => Some (update_cart (pure_update clearCart) s)
  | ESetPickupName n => Some (with_ui (set_pickupName n (ui s)) s)
  | ESubmitOrder => Some (submitOrder s)
  | ETimer => Some (fire s)
  | ESweep => Some (sweep s)
  | EUpdateOrder id patch => Some (updateOrder id patch s)
  | EDeleteOrder id => Some (deleteOrder id s)
  | EWipeAll b => Some (wipeAll b s)
  end.

Fixpoint run (es : list Event) (s : Sys) : option Sys :=
  match es with
  | [] => Some s
  | e :: r => match step e s with Some s' => run r s' | None => None end
  end.

(** The state after mount: [useState(getAllOrders())], an empty cart,
    the marketing box ticked. *)
Definition mount (h : Heap) (w : World) : Sys :=
  let '(os, w') := getAllOrders w in
  mkSys (mkUI [] [] [] [] true false None os) h w' [] [].

(** The queue numbers a session issues.  [nextQueueNumber] is called by
    the timer callback alone, first thing, and its result is the id of the
    order the callback places: an event issues that id, at the clock
    reading the call takes the year from, or nothing. *)
Definition issued_by (e : Event) (s s' : Sys) : list (nat * JSON) :=
  match e, timers s, placed (ui s') with
  | ETimer, _ :: _, Some o => [(tick (world s), Order.id o)]
  | _, _, _ => []
  end.

Fixpoint issued (es : list Event) (s : Sys) : option (list (nat * JSON)) :=
  match es with
  | [] => Some []
  | e :: r =>
      match step e s with
      | Some s' => option_map (app (issued_by e s s')) (issued r s')
      | None => None
      end
  end.

End Store.

(** ** The confirmation page *)

(** [Math.trunc], and [a % b] on finite numbers with [b] not 0: the
    remainder has the sign of the dividend. *)
Definition trunc (x : Q) : Z := if Qle_bool 0 x then Qfloor x else Qceiling x.

Definition js_rem (a b : Q) : Q := (a - b * inject_Z (trunc (a / b)))%Q.

(** [order.expiresAt ? Math.max(0, order.expiresAt - now) : 0] *)
Definition remainingMs (expiresAt : option num) (now : Z) : Q :=
  if truthy_num expiresAt
  then match expiresAt with
       | Some (Fin e) =>
           let d := (e - inject_Z now)%Q in if Qle_bool d 0 then 0%Q else d
       | _ => 0%Q
       end
  else 0%Q.

Definition remMin (remaining : Q) : Z := Qfloor (remaining / 60000).

Definition remSec (remaining : Q) : Z := Qfloor (js_rem remaining 60000 / 1000).

(** [s.padStart(2, "0")] *)
Definition padStart2 (s : jstring) : jstring :=
  repeat 48%N (2 - length s) ++ s.

(** What [{order.expiresAt && (...)}] puts on the page: nothing for
    [undefined], the number itself when it is 0 or NaN (React renders a
    number it is handed), and otherwise the time left, as the texts of
    [{remMin}] and [{String(remSec).padStart(2, "0")}], or "Expired".
    Times are exact rationals, as prices are. *)
Inductive Countdown :=
| NoCountdown
| Bare (n : num)
| TimeLeft (minutes seconds : jstring)
| Expired.

Definition countdown (expiresAt : option num) (now : Z) : Countdown :=
  match expiresAt with
  | None => NoCountdown
  | Some n =>
      if truthy_num expiresAt
      then let r := remainingMs expiresAt now in
           if Qlt_le_dec 0 r
           then TimeLeft (String_of (remMin r)) (padStart2 (String_of (remSec r)))
           else Expired
      else Bare n
  end.

(** ** The staff board's list *)

Definition num_sub (x y : num) : num :=
  match x, y with Fin a, Fin b => Fin (a - b) | _, _ => NaN end.

(** The comparator [(a, b) => b.createdAt - a.createdAt]. *)
Definition by_newest (a b : Order.t) : num :=
  num_sub (Order.createdAt b) (Order.createdAt a).

(** [Array.prototype.sort] is stable and moves [b] before [a] only when
    [comparefn(a, b) > 0]; a NaN result counts as 0.  It is written here
    as an insertion sort, which is the order every stable sort gives when
    the comparator is consistent; with NaN among the keys ECMAScript
    leaves the order to the implementation, and the statements below are
    about finite keys. *)
Definition comes_after (cmp : Order.t -> Order.t -> num) (a b : Order.t) : bool :=
  match cmp a b with
  | Fin v => if Qlt_le_dec 0 v then true else false
  | NaN => false
  end.

Fixpoint insert_sorted (cmp : Order.t -> Order.t -> num) (x : Order.t)
    (l : list Order.t) : list Order.t :=
  match l with
  | [] => [x]
  | y :: r => if comes_after cmp x y then y :: insert_sorted cmp x r else x :: l
  end.

Definition sort_by (cmp : Order.t -> Order.t -> num) (l : list Order.t)
  : list Order.t :=
  fold_right (insert_sorted cmp) [] l.

Module Filter.
Definition All : jstring := Eval vm_compute in lit "All".
Definition Active : jstring := Eval vm_compute in lit "Active".
End Filter.

Definition is_active (o : Order.t) : bool :=
  existsb (status_eqb (Order.status o)) [New; Paid; Preparing; Ready].

(** The [useMemo] value [filtered] of [StaffBoard]. *)
Definition filtered (orders : list Order.t) (filter : jstring) : list Order.t :=
  let base := sort_by by_newest orders in
  if str_eqb filter Filter.All then base
  else if str_eqb filter Filter.Active then List.filter is_active base
  else List.filter (fun o => str_eqb (status_name (Order.status o)) filter) base.

(** ** The Firestore variant of the store ([firebase.ts]) *)

Section Firestore.

(** Firestore's [Timestamp] objects and their method [toMillis] belong to
    the SDK. *)
Variable Timestamp : Type.
Variable toMillis : Timestamp -> Q.

(** A field value of a document or of the object handed on: [undefined],
    plain data, or a [Timestamp] object. *)
Inductive FVal := FUndefined | FPlain (j : JSON) | FStamp (t : Timestamp).

(** An object as its own properties in insertion order. *)
Definition Fields := list (jstring * FVal).

Fixpoint own (k : jstring) (o : Fields) : option FVal :=
  match o with
  | [] => None
  | (k', v) :: r => if str_eqb k' k then Some v else own k r
  end.

(** [o.k] *)
Definition field (k : jstring) (o : Fields) : FVal :=
  match own k o with Some v => v | None => FUndefined end.

(** One property definition of an object literal: a key already there
    keeps its place and takes the new value. *)
Fixpoint define (k : jstring) (v : FVal) (o : Fields) : Fields :=
  match o with
  | [] => [(k, v)]
  | (k', v') :: r =>
      if str_eqb k' k then (k', v) :: r else (k', v') :: define k v r
  end.

(** [{ ...acc, ...src }]: the properties of [src] defined in their order. *)
Definition spread (src acc : Fields) : Fields :=
  fold_left (fun o kv => define (fst kv) (snd kv) o) src acc.

Definition docId_key : jstring := Eval vm_compute in lit "_docId".

(** [v instanceof Timestamp ? v.toMillis() : v] *)
Definition millis (v : FVal) : FVal :=
  match v with FStamp t => FPlain (JNum (toMillis t)) | _ => v end.

(** The callback of [snap.docs.map] in [watchOrders], for a document with
    id [id] and data [data]; the list handed to [cb] holds one such
    object per document. *)
Definition watch_doc (id : jstring) (data : Fields) : Fields :=
  define Key.expiresAt (millis (field Key.expiresAt data))
    (define Key.createdAt (millis (field Key.createdAt data))
       (spread data [(docId_key, FPlain (JStr id))])).

(** The object [createOrder] hands to [addDoc]; [stamp] is the value of
    [serverTimestamp()]. *)
Definition created_doc (stamp : FVal) (docData : Fields) : Fields :=
  define Key.createdAt stamp (spread docData []).

End Firestore.

Arguments FUndefined {Timestamp}.
Arguments FPlain {Timestamp} j.
Arguments FStamp {Timestamp} t.
Arguments own {Timestamp} k o.
Arguments field {Timestamp} k o.
Arguments define {Timestamp} k v o.
Arguments spread {Timestamp} src acc.
Arguments millis {Timestamp} toMillis v.
Arguments watch_doc {Timestamp} toMillis id data.
Arguments created_doc {Timestamp} stamp docData.

(** ** Sequences of cart calls *)

Inductive AddOp := OpFlavor (f : Flavor.t) | OpDrink (id : jstring).

(** The sku a call targets. *)
Definition target (op : AddOp) : jstring :=
  match op with OpFlavor f => flavor_sku f | OpDrink id => id end.

Definition add_step (op : AddOp) (c : Cart) : option Cart :=
  match op with OpFlavor f => Some (addFlavor f c) | OpDrink id => addDrink id c end.

Fixpoint run_adds (ops : list AddOp) (c : Cart) : option Cart :=
  match ops with
  | [] => Some c
  | op :: r => match add_step op c with Some c' => run_adds r c' | None => None end
  end.

(** A call the view can make: every drink id comes from [DRINKS]. *)
Definition known (op : AddOp) : Prop :=
  match op with
  | OpFlavor _ => True
  | OpDrink id => In id (map Drink.id DRINKS)
  end.

Definition calls_for (s : jstring) (ops : list AddOp) : Z :=
  Z.of_nat (length (List.filter (fun op => str_eqb (target op) s) ops)).

Inductive DrinkOp := DAddDrink (id : jstring) | DAddCheese (sku : jstring).

Definition drink_step (op : DrinkOp) (st : Cart * Heap) : option (Cart * Heap) :=
  match op with
  | DAddDrink id =>
      match addDrink id (fst st) with Some c => Some (c, snd st) | None => None end
  | DAddCheese sku => Some (addCheeseToDrink sku (fst st) (snd st))
  end.

Fixpoint run_drink_ops (ops : list DrinkOp) (st : Cart * Heap) : option (Cart * Heap) :=
  match ops with
  | [] => Some st
  | op :: r => match drink_step op st with Some st' => run_drink_ops r st' | None => None end
  end.

(** The add-on array of a line, [p.addons || []]. *)
Definition locs (p : CartItem.t) : list loc := or_else (CartItem.addons p) [].

Definition locs_of (c : Cart) : list loc := concat (map locs c).

(** The add-on quantity of cheese on a line never exceeds the line's
    quantity. *)
Definition cheese_capped (c : Cart) (h : Heap) : Prop :=
  forall p l a,
    In p c -> In l (locs p) -> h !! l = Some a -> Addon.id a = CHEESE_id ->
    Addon.qty a <= CartItem.qty p.

(** The quantity the cart holds for a sku: that of its line, 0 without
    one. *)
Definition qty_of (s : jstring) (c : Cart) : Z :=
  match find (has_sku s) c with Some p => CartItem.qty p | None => 0 end.

(** The quantity of cheese on a line: that of the add-on object
    [addons.find((a) => a.id === CHEESE.id)] yields, 0 without one. *)
Definition cheese_on (h : Heap) (p : CartItem.t) : Z :=
  match find_addon h CHEESE_id (locs p) with
  | Some (_, a) => Addon.qty a
  | None => 0
  end.

(** [k] presses of "Cheese +" on the souffle line [sku]. *)
Definition press_souffle_cheese (sku : jstring) (k : nat) (st : Cart * Heap)
  : Cart * Heap :=
  Nat.iter k (fun st => addCheeseToSouffle sku (fst st) (snd st)) st.

(** [k] calls of [addCheeseToDrink] for the drink line [sku]. *)
Definition press_drink_cheese (sku : jstring) (k : nat) (st : Cart * Heap)
  : Cart * Heap :=
  Nat.iter k (fun st => addCheeseToDrink sku (fst st) (snd st)) st.

(** The increment-or-append step [addFlavor] and [addDrink] share. *)
Definition add_line (k : jstring) (item : CartItem.t) (c : Cart) : Cart :=
  match find (has_sku k) c with Some _ => bump k 1 c | None => c ++ [item] end.

(** What the cart functions keep true of every line: its add-on objects
    exist, are pairwise distinct, its quantity is at least 1 and its cheese
    is capped by it. *)
Definition item_ok (p : CartItem.t) (h : Heap) : Prop :=
  (forall l, l ∈ locs p -> (l < length h)%nat)
  /\ NoDup (locs p)
  /\ 1 <= CartItem.qty p
  /\ (forall l a, l ∈ locs p -> h !! l = Some a -> Addon.id a = CHEESE_id ->
        Addon.qty a <= CartItem.qty p).

(** No add-on object is shared between two lines. *)
Definition cart_ok (c : Cart) (h : Heap) : Prop :=
  Forall (fun p => item_ok p h) c /\ NoDup (locs_of c).

(** The badge of [CartButton]: [cart.reduce((s, i) => s + i.qty, 0)]. *)
Definition cart_count (c : Cart) : Z :=
  fold_left (fun s i => s + CartItem.qty i) c 0.

(** The amount printed beside a cart line:
    [i.unitPrice * i.qty + (i.addons || []).reduce(...)]. *)
Definition shown_line_total (h : Heap) (i : CartItem.t) : Q :=
  (CartItem.unitPrice i * inject_Z (CartItem.qty i)
   + addons_total h (match CartItem.addons i with Some l => l | None => [] end))%Q.

(** The key the board sorts by, for an order whose [createdAt] is a
    number, and a list that runs from the newest order to the oldest. *)
Definition created (o : Order.t) : Q :=
  match Order.createdAt o with Fin q => q | NaN => 0%Q end.

Definition newest_first (l : list Order.t) : Prop :=
  StronglySorted (fun a b => (created b <= created a)%Q) l.

(** The orders of a list created at [t], in the order of the list. *)
Definition created_at (t : Q) (l : list Order.t) : list Order.t :=
  List.filter (fun o => Qeq_bool (created o) t) l.

(** A cart with one line per sku and no quantity below 1. *)
Definition tidy (c : Cart) : Prop :=
  List.NoDup (map CartItem.sku c) /\ Forall (fun p => 1 <= CartItem.qty p) c.

(** ** Stores and statements about them *)

(** An order object that [JSON.stringify] and [getAllOrders] give back as
    it is: no field holds [null] or [NaN], and [expiresAt], when present,
    is not 0. *)
Definition well_formed (o : Order.t) : Prop :=
  Order.id o <> JNull /\ Order.items o <> JNull /\ Order.pickupName o <> JNull
  /\ Order.total o <> NaN /\ Order.createdAt o <> NaN
  /\ match Order.expiresAt o with
     | None => True
     | Some (Fin e) => ~ (e == 0)%Q
     | Some NaN => False
     end
  /\ Order.note o <> Some JNull /\ Order.phone o <> Some JNull.

(** A store the program has not written yet, or has written from
    well-formed orders. *)
Definition store_ok (w : World) : Prop :=
  ls_orders w = NoText
  \/ exists os, ls_orders w = stored os /\ Forall well_formed os.

(** The counters read back from the queue numbers a session issued. *)
Definition counters (tr : list (nat * JSON)) : list (option Z) :=
  map (fun x => match snd x with JStr l => counter_of l | _ => None end) tr.

(** Numbers that increase strictly along the list. *)
Definition increasing (l : list (option Z)) : Prop :=
  forall i j a b, (i < j < length l)%nat ->
    nth i l None = Some a -> nth j l None = Some b -> a < b.

(** The list the component holds in [orders] is what the store holds. *)
Definition synced (s : Sys) : Prop :=
  (ls_orders (world s) = NoText /\ orders (ui s) = [])
  \/ (ls_orders (world s) = stored (orders (ui s))
      /\ Forall well_formed (orders (ui s))).

(** No reading of the clock lies 600000 ms before the epoch, so no
    computed [expiresAt] is 0. *)
Definition clock_ok (w : World) : Prop := forall i, ms (clock w i) <> -600000.

(** The events of a session in which patches come from the staff board. *)
Definition board_event (e : Event) : Prop :=
  match e with
  | EUpdateOrder _ p => exists st, p = Patch.of_status st
  | _ => True
  end.

(** The sweep in the words of the specification: an order with status New
    whose [expiresAt] is earlier than [t] becomes Cancelled, any other
    order stays as it is. *)
Definition spec_expire (t : Z) (o : Order.t) : Order.t :=
  match Order.status o, Order.expiresAt o with
  | New, Some (Fin e) =>
      if Qlt_le_dec e (inject_Z t) then Order.with_status o Cancelled else o
  | _, _ => o
  end.

(** The stated relation between the two timestamps of an order:
    [expiresAt] is present and is [createdAt] plus [d] milliseconds. *)
Definition expires_after_created (o : Order.t) (d : Z) : Prop :=
  match Order.createdAt o, Order.expiresAt o with
  | Fin c, Some (Fin e) => (e == c + inject_Z d)%Q
  | _, _ => False
  end.

(** The total of an order's line items in the words of the
    specification: the sum over the items of unit price times quantity
    plus the sum over the item's add-ons of price times quantity, the
    items being those of cart [c] as heap [h] holds them (which is how
    [item_json h] serialises them). *)
Definition Qsum (l : list Q) : Q := fold_right Qplus 0%Q l.

Definition line_total (h : Heap) (i : CartItem.t) : Q :=
  (CartItem.unitPrice i * inject_Z (CartItem.qty i)
   + Qsum (map (fun a => Addon.price a * inject_Z (Addon.qty a))
             (deref h (locs i))))%Q.

Definition items_sum (h : Heap) (c : Cart) : Q := Qsum (map (line_total h) c).

(** ** Sample sessions *)

(** [Number] on strings, arrays and objects taken to be [NaN] throughout. *)
Definition no_coercion (v : JSON) : num := NaN.

(** A clock whose [i]-th reading is [i] milliseconds, in 1970, and one
    that stands still. *)
Definition counting_clock (i : nat) : Instant :=
  {| ms := Z.of_nat i; year := 1970 |}.

Definition still_clock (i : nat) : Instant := {| ms := 5; year := 2025 |}.

Definition fresh_world : World := mkWorld NoText None counting_clock 0.

Definition sample_order (st : Status) (expires : option num) : Order.t :=
  Order.mk (JStr (lit "Q-001")) (JArr []) (Fin 0) st (Fin (-600000)) expires
    None (JStr (lit "Aisyah")) None false.

(** The staff view over a store holding [os], the next clock reading
    being 1. *)
Definition session (os : list Order.t) : Sys :=
  mkSys (mkUI [] [] [] [] true false None os) []
    (mkWorld (stored os) None counting_clock 1) [] [].

Definition hojicha : jstring := Eval vm_compute in lit "drink-hojicha".

Definition vanilla : Flavor.t := flavor "van" "Vanilla" None None.

(** A session in which cheese is added to the drink while the order is
    being placed: two drinks, one cheese, the name, the button, one more
    cheese within the 400 ms, then the timer. *)
Definition cheese_while_placing : list Event :=
  [ EAddDrink hojicha; EAddDrink hojicha; EAddCheeseToDrink hojicha;
    ESetPickupName (lit "Aisyah"); ESubmitOrder;
    EAddCheeseToDrink hojicha; ETimer ].

(** The cart of that session when the button is pressed. *)
Definition two_drinks_one_cheese : Cart :=
  [ CartItem.mk hojicha [] (lit "Hojicha (Drink)") 3 2 (Some [0%nat]) ].

Definition sample_closure : Closure :=
  mkClosure two_drinks_one_cheese 8 [] (lit "Aisyah") [] true.

Definition sample_adds : list AddOp :=
  [ OpFlavor vanilla; OpDrink hojicha; OpFlavor vanilla ].

Definition sample_drink_ops : list DrinkOp :=
  [ DAddDrink hojicha; DAddCheese hojicha; DAddCheese hojicha;
    DAddDrink hojicha; DAddCheese hojicha; DAddCheese hojicha ].

(** A stored array of two records: one with a status outside the six
    names and nothing else, one that is not an object at all. *)
Definition odd_records : list JSON :=
  [ JObj [ (Key.status, JStr (lit "Refunded")) ]; JNum 7 ].


(** A customer placing one drink under a name, up to the timer; two such
    orders; and the same with the staff wiping the board before a third. *)
Definition one_order (name : jstring) : list Event :=
  [ EAddDrink hojicha; ESetPickupName name; ESubmitOrder; ETimer ].

Definition two_orders : list Event :=
  one_order (lit "Aisyah") ++ one_order (lit "Ben").

Definition wiped_before_third : list Event :=
  two_orders ++ [ EWipeAll true ] ++ one_order (lit "Chen").



(** A world with nothing stored whose clock stands still in 2025. *)
Definition world_2025 : World := mkWorld NoText None still_clock 0.

(** A full store of 300 paid orders, a form filled in with the marketing
    box unticked, and the state in which the timer of that submission is
    due while another one is pending: sequence at 41 in 2025. *)
Definition full_store : list Order.t := repeat (sample_order Paid None) 300.

Definition filled_closure : Closure :=
  mkClosure two_drinks_one_cheese 8 (lit "less ice") (lit " Aisyah ")
    (lit " 012 ") false.

Definition timer_due : Sys :=
  mkSys (mkUI two_drinks_one_cheese (lit "less ice") (lit " Aisyah ")
           (lit " 012 ") false true None full_store)
    [new_cheese]
    (mkWorld (stored full_store) (Some (2025, 41)) still_clock 7)
    [filled_closure; sample_closure] [].

(** An order with a queue label, a status and a creation time. *)
Definition order_at (label : string) (st : Status) (t : Q) : Order.t :=
  Order.mk (JStr (lit label)) (JArr []) (Fin 0) st (Fin t) None None
    (JStr (lit "Aisyah")) None false.

(** Four orders out of order, two of them created at the same
    millisecond. *)
Definition unsorted_orders : list Order.t :=
  [ order_at "Q-001" Done 1000; order_at "Q-003" New 3000;
    order_at "Q-002" Paid 2000; order_at "Q-004" New 3000 ].

(** * Properties *)

(** ** Strings *)

Lemma str_eqb_eq (a b : jstring) : str_eqb a b = true <-> a = b.
Proof.
  revert b; induction a as [|x a IH]; intros [|y b]; simpl; split; try easy.
  - intros H. apply andb_true_iff in H as [H1 H2].
    apply N.eqb_eq in H1. apply IH in H2. congruence.
  - intros H. injection H as -> ->. rewrite N.eqb_refl. simpl. now apply IH.
Qed.

Lemma str_eqb_refl (a : jstring) : str_eqb a a = true.
Proof. now apply str_eqb_eq. Qed.

Lemma str_eqb_neq (a b : jstring) : str_eqb a b = false <-> a <> b.
Proof.
  split.
  - intros H E. apply str_eqb_eq in E. congruence.
  - intros H. destruct (str_eqb a b) eqn:E; [|easy].
    apply str_eqb_eq in E. contradiction.
Qed.

(** ** The cart engine *)

Lemma bump_skus (k : jstring) (d : Z) (c : Cart) :
  map CartItem.sku (bump k d c) = map CartItem.sku c.
Proof.
  unfold bump. rewrite map_map. apply map_ext.
  intros p. now destruct (has_sku k p).
Qed.

Lemma find_sku_none (s : jstring) (c : Cart) :
  find (has_sku s) c = None <-> ~ In s (map CartItem.sku c).
Proof.
  induction c as [|p c IH]; simpl; [tauto|].
  unfold has_sku at 1. destruct (str_eqb (CartItem.sku p) s) eqn:E.
  - apply str_eqb_eq in E. split; [easy|]. intros H. exfalso. apply H. now left.
  - apply str_eqb_neq in E. rewrite IH. tauto.
Qed.

Lemma find_sku_some (s : jstring) (c : Cart) (x : CartItem.t) :
  find (has_sku s) c = Some x -> In x c /\ CartItem.sku x = s.
Proof.
  intros H. apply find_some in H as [H1 H2]. split; [easy|].
  now apply str_eqb_eq.
Qed.

(** C8.  [dec] on the line whose quantity is 1 removes that line: no line
    with the sku is left and every other line stays; [dec] on a sku that is
    not in the cart returns the cart as it is. *)
Theorem dec_removes_last_unit_and_skips_absent (sku : jstring) (c : Cart) :
  (forall x, find (has_sku sku) c = Some x -> CartItem.qty x = 1 ->
     dec sku c = List.filter (fun p => negb (has_sku sku p)) c
     /\ ~ In sku (map CartItem.sku (dec sku c))
     /\ (forall p, CartItem.sku p <> sku -> In p (dec sku c) <-> In p c))
  /\ (~ In sku (map CartItem.sku c) -> dec sku c = c).
Proof.
  split.
  - intros x Hx Hq. unfold dec. rewrite Hx, Hq. simpl.
    split; [reflexivity|]. split.
    + intros H. apply in_map_iff in H as (p & Hp & Hin).
      apply filter_In in Hin as [_ Hn].
      unfold has_sku in Hn. rewrite Hp, str_eqb_refl in Hn. discriminate.
    + intros p Hp. rewrite filter_In. unfold has_sku.
      apply str_eqb_neq in Hp. rewrite Hp. simpl. tauto.
  - intros H. apply find_sku_none in H. unfold dec. now rewrite H.
Qed.

Lemma find_bump (s k : jstring) (d : Z) (c : Cart) :
  find (has_sku s) (bump k d c) =
  option_map
    (fun p => if has_sku k p then CartItem.with_qty p (CartItem.qty p + d) else p)
    (find (has_sku s) c).
Proof.
  induction c as [|p c IH]; simpl; [reflexivity|].
  replace (has_sku s (if has_sku k p
                      then CartItem.with_qty p (CartItem.qty p + d) else p))
    with (has_sku s p) by now destruct (has_sku k p).
  destruct (has_sku s p); [reflexivity|exact IH].
Qed.

Lemma qty_of_bump (s k : jstring) (d : Z) (c : Cart) :
  qty_of s (bump k d c) =
  if str_eqb k s
  then match find (has_sku s) c with Some p => CartItem.qty p + d | None => 0 end
  else qty_of s c.
Proof.
  unfold qty_of. rewrite find_bump.
  destruct (find (has_sku s) c) as [p|] eqn:Ef; simpl.
  - apply find_sku_some in Ef as [_ Hs]. unfold has_sku. rewrite Hs.
    destruct (str_eqb k s) eqn:E.
    + apply str_eqb_eq in E. subst k. now rewrite str_eqb_refl.
    + apply str_eqb_neq in E.
      destruct (str_eqb s k) eqn:E'; [|reflexivity].
      apply str_eqb_eq in E'. congruence.
  - now destruct (str_eqb k s).
Qed.

Lemma find_app_sku (s : jstring) (c1 c2 : Cart) :
  find (has_sku s) (c1 ++ c2) =
  match find (has_sku s) c1 with Some p => Some p | None => find (has_sku s) c2 end.
Proof.
  induction c1 as [|p c1 IH]; simpl; [reflexivity|].
  now destruct (has_sku s p).
Qed.

Lemma qty_of_app_new (s : jstring) (item : CartItem.t) (c : Cart) :
  find (has_sku (CartItem.sku item)) c = None ->
  qty_of s (c ++ [item]) =
  qty_of s c + if str_eqb (CartItem.sku item) s then CartItem.qty item else 0.
Proof.
  intros Hnone. unfold qty_of. rewrite find_app_sku.
  destruct (find (has_sku s) c) as [p|] eqn:Ef.
  - apply find_sku_some in Ef as [Hin Hs].
    destruct (str_eqb (CartItem.sku item) s) eqn:E; [|lia].
    apply str_eqb_eq in E. apply find_sku_none in Hnone.
    exfalso. apply Hnone. rewrite E, <- Hs. now apply in_map.
  - simpl. unfold has_sku. destruct (str_eqb (CartItem.sku item) s); lia.
Qed.

Lemma add_line_spec (k : jstring) (item : CartItem.t) (c : Cart) :
  CartItem.sku item = k -> CartItem.qty item = 1 ->
  List.NoDup (map CartItem.sku c) ->
  List.NoDup (map CartItem.sku (add_line k item c))
  /\ (forall s, In s (map CartItem.sku (add_line k item c))
                <-> In s (map CartItem.sku c) \/ s = k)
  /\ (forall s, qty_of s (add_line k item c)
                = qty_of s c + if str_eqb k s then 1 else 0).
Proof.
  intros Hk Hq Hnd. unfold add_line.
  destruct (find (has_sku k) c) as [x|] eqn:Ef.
  - rewrite bump_skus. split; [exact Hnd|]. split.
    + intros s. split; [tauto|]. intros [H| ->]; [exact H|].
      apply find_sku_some in Ef as [Hin <-]. now apply in_map.
    + intros s. rewrite qty_of_bump. destruct (str_eqb k s) eqn:E; [|lia].
      apply str_eqb_eq in E. subst s. unfold qty_of. now rewrite Ef.
  - split; [|split].
    + rewrite map_app. simpl. apply List.NoDup_app; [exact Hnd| |].
      * constructor; [easy|constructor].
      * intros s Hs [<-|[]]. apply find_sku_none in Ef. congruence.
    + intros s. rewrite map_app, in_app_iff. simpl. rewrite Hk. intuition congruence.
    + intros s. subst k. rewrite qty_of_app_new by exact Ef. now rewrite Hq.
Qed.

Lemma add_step_spec (op : AddOp) (c : Cart) :
  known op -> List.NoDup (map CartItem.sku c) ->
  exists c', add_step op c = Some c'
    /\ List.NoDup (map CartItem.sku c')
    /\ (forall s, In s (map CartItem.sku c') <-> In s (map CartItem.sku c) \/ s = target op)
    /\ (forall s, qty_of s c' = qty_of s c + if str_eqb (target op) s then 1 else 0).
Proof.
  intros Hk Hnd. destruct op as [f|id]; unfold known in Hk; simpl.
  - eexists. split; [reflexivity|].
    apply (add_line_spec (flavor_sku f)); easy.
  - unfold addDrink.
    destruct (find (fun x => str_eqb (Drink.id x) id) DRINKS) as [d|] eqn:Ed.
    + apply find_some in Ed as [_ Ed]. apply str_eqb_eq in Ed. subst id.
      eexists. split; [reflexivity|].
      apply (add_line_spec (Drink.id d)); easy.
    + exfalso. apply in_map_iff in Hk as (d & Hd & Hin).
      apply (find_none _ _ Ed) in Hin. simpl in Hin.
      rewrite Hd, str_eqb_refl in Hin. discriminate.
Qed.

Lemma run_adds_spec (ops : list AddOp) (c : Cart) :
  Forall known ops -> List.NoDup (map CartItem.sku c) ->
  exists c', run_adds ops c = Some c'
    /\ List.NoDup (map CartItem.sku c')
    /\ (forall s, In s (map CartItem.sku c')
                  <-> In s (map CartItem.sku c) \/ In s (map target ops))
    /\ (forall s, qty_of s c' = qty_of s c + calls_for s ops).
Proof.
  revert c. induction ops as [|op ops IH]; intros c Hk Hnd.
  - exists c. unfold calls_for. simpl. repeat split; try tauto. lia.
  - inversion Hk as [|? ? Hop Hops]; subst.
    destruct (add_step_spec op c Hop Hnd) as (c1 & E1 & N1 & S1 & Q1).
    destruct (IH c1 Hops N1) as (c' & E' & N' & S' & Q').
    exists c'. simpl. rewrite E1. split; [exact E'|]. split; [exact N'|]. split.
    + intros s. rewrite S', S1. intuition.
    + intros s. rewrite Q', Q1. unfold calls_for. simpl.
      destruct (str_eqb (target op) s); simpl length; lia.
Qed.

Lemma find_the_line (c : Cart) (p : CartItem.t) :
  List.NoDup (map CartItem.sku c) -> In p c ->
  find (has_sku (CartItem.sku p)) c = Some p.
Proof.
  induction c as [|x c IH]; simpl; [easy|].
  intros Hnd Hin. inversion Hnd as [|? ? Hx Hc]; subst.
  unfold has_sku at 1. destruct (str_eqb (CartItem.sku x) (CartItem.sku p)) eqn:E.
  - destruct Hin as [->|Hin]; [reflexivity|].
    apply str_eqb_eq in E. exfalso. apply Hx. rewrite E. now apply in_map.
  - destruct Hin as [->|Hin]; [now rewrite str_eqb_refl in E|]. now apply IH.
Qed.

(** C7.  Any sequence of [addFlavor] and [addDrink] calls from the empty
    cart (drink ids taken from the catalog) runs to a cart whose skus are
    pairwise distinct and are exactly the skus the calls targeted, each
    line's quantity being the number of calls that targeted its sku. *)
Theorem one_line_per_sku_with_call_count (ops : list AddOp) :
  Forall known ops ->
  exists c, run_adds ops [] = Some c
    /\ List.NoDup (map CartItem.sku c)
    /\ (forall s, In s (map CartItem.sku c) <-> In s (map target ops))
    /\ (forall p, In p c -> CartItem.qty p = calls_for (CartItem.sku p) ops).
Proof.
  intros Hk.
  destruct (run_adds_spec ops [] Hk (List.NoDup_nil _)) as (c & E & N & S & Q).
  exists c. split; [exact E|]. split; [exact N|]. split.
  - intros s. rewrite S. simpl. tauto.
  - intros p Hp. specialize (Q (CartItem.sku p)).
    unfold qty_of in Q. rewrite (find_the_line c p N Hp) in Q. simpl in Q. lia.
Qed.

(** ** The cap on cheese for drinks *)

Lemma find_addon_some (h : Heap) (id : jstring) (ls : list loc) l a :
  find_addon h id ls = Some (l, a) ->
  l ∈ ls /\ h !! l = Some a /\ Addon.id a = id.
Proof.
  induction ls as [|x ls IH]; simpl; [easy|].
  destruct (h !! x) as [b|] eqn:Ex.
  - destruct (str_eqb (Addon.id b) id) eqn:E.
    + intros [= <- <-]. apply str_eqb_eq in E.
      split; [apply list_elem_of_here|easy].
    + intros H. destruct (IH H) as (? & ? & ?).
      split; [now apply list_elem_of_further|easy].
  - intros H. destruct (IH H) as (? & ? & ?).
    split; [now apply list_elem_of_further|easy].
Qed.

Lemma item_ok_frame (p : CartItem.t) (h h' : Heap) :
  item_ok p h -> (length h <= length h')%nat ->
  (forall l, l ∈ locs p -> h' !! l = h !! l) ->
  item_ok p h'.
Proof.
  intros (V & N & Q & C) Hlen Hfr. repeat split; try easy.
  - intros l Hl. specialize (V l Hl). lia.
  - intros l a Hl Ha. rewrite Hfr in Ha by exact Hl. now apply (C l a).
Qed.

(** What one call of the [map] callback may do to its line and to the
    heap: the line stays well formed, its new add-on objects are freshly
    allocated, and no object of another line is touched. *)
Definition local_step (f : CartItem.t -> Heap -> CartItem.t * Heap) : Prop :=
  forall p h, item_ok p h ->
    (length h <= length (snd (f p h)))%nat
    /\ item_ok (fst (f p h)) (snd (f p h))
    /\ (forall l, l ∈ locs (fst (f p h)) -> l ∈ locs p \/ (length h <= l)%nat)
    /\ (forall l, (l < length h)%nat -> l ∉ locs p -> snd (f p h) !! l = h !! l).

Lemma cheese_drink_item_local (sku : jstring) : local_step (cheese_drink_item sku).
Proof.
  intros p h Hok. pose proof Hok as (V & N & Q & C).
  unfold cheese_drink_item. destruct (negb (has_sku sku p)).
  { simpl. repeat split; try easy; tauto. }
  fold (locs p) in *.
  change (match CartItem.addons p with Some l => l | None => [] end) with (locs p).
  destruct (find_addon h CHEESE_id (locs p)) as [[l ex]|] eqn:Ef.
  - apply find_addon_some in Ef as (Hl & Hex & Hid).
    destruct (Addon.qty ex <? CartItem.qty p) eqn:Elt; simpl.
    + apply Z.ltb_lt in Elt. unfold incr_qty. rewrite length_insert.
      split; [lia|]. split; [|split].
      * repeat split; try easy.
        -- intros l' Hl'. rewrite length_insert. now apply V.
        -- intros l' a Hl' Ha Hida. simpl in *.
           destruct (decide (l = l')) as [<-|Hne].
           ++ rewrite list_lookup_insert_eq in Ha by now apply V.
              injection Ha as <-. simpl. lia.
           ++ rewrite list_lookup_insert_ne in Ha by exact Hne. now apply (C l' a).
      * intros l' Hl'. now left.
      * intros l' Hlt Hnot. apply list_lookup_insert_ne. intros ->. contradiction.
    + split; [lia|]. split; [|split]; try easy. intros l' Hl'. now left.
  - simpl. rewrite length_app. simpl. split; [lia|]. split; [|split].
    + repeat split; simpl.
      * intros l Hl. rewrite length_app. simpl.
        apply elem_of_app in Hl as [Hl|Hl]; [specialize (V l Hl); lia|].
        apply list_elem_of_singleton in Hl. lia.
      * apply NoDup_app. split; [exact N|]. split; [|apply NoDup_singleton].
        intros l Hl Hl'. apply list_elem_of_singleton in Hl'.
        specialize (V l Hl). lia.
      * exact Q.
      * intros l a Hl Ha Hida.
        apply elem_of_app in Hl as [Hl|Hl].
        -- rewrite lookup_app_l in Ha by now apply V. now apply (C l a).
        -- apply list_elem_of_singleton in Hl. subst l.
           rewrite lookup_app_r in Ha by lia.
           rewrite Nat.sub_diag in Ha. injection Ha as <-. simpl. exact Q.
    + simpl. intros l Hl. apply elem_of_app in Hl as [Hl|Hl]; [now left|].
      apply list_elem_of_singleton in Hl. right. lia.
    + intros l Hlt _. now apply lookup_app_l.
Qed.

Lemma locs_of_valid (c : Cart) (h : Heap) l :
  Forall (fun p => item_ok p h) c -> l ∈ locs_of c -> (l < length h)%nat.
Proof.
  unfold locs_of. induction 1 as [|p c Hp Hc IH]; simpl.
  - intros H. now apply not_elem_of_nil in H.
  - intros H. apply elem_of_app in H as [H|H]; [|now apply IH].
    destruct Hp as (V & _). now apply V.
Qed.

Lemma locs_of_intro (c : Cart) (q : CartItem.t) l :
  q ∈ c -> l ∈ locs q -> l ∈ locs_of c.
Proof.
  unfold locs_of. induction c as [|p c IH]; simpl.
  - intros H. now apply not_elem_of_nil in H.
  - intros H Hl. apply elem_of_cons in H as [->|Hq]; apply elem_of_app;
      [now left|right; now apply IH].
Qed.

Lemma map_heap_local f (c : Cart) (h : Heap) :
  local_step f -> cart_ok c h ->
  (length h <= length (snd (map_heap f c h)))%nat
  /\ cart_ok (fst (map_heap f c h)) (snd (map_heap f c h))
  /\ (forall l, l ∈ locs_of (fst (map_heap f c h)) ->
        l ∈ locs_of c \/ (length h <= l)%nat)
  /\ (forall l, (l < length h)%nat -> l ∉ locs_of c ->
        snd (map_heap f c h) !! l = h !! l).
Proof.
  intros Hf. revert h. induction c as [|p r IH]; intros h [Hall Hnd]; simpl.
  - repeat split; first [easy | constructor | tauto].
  - inversion Hall as [|? ? Hp Hr]; subst.
    unfold locs_of in Hnd. simpl in Hnd. fold (locs_of r) in Hnd.
    apply NoDup_app in Hnd as (Np & Hdisj & Nr).
    destruct (Hf p h Hp) as (L1 & Ok1 & Sub1 & Fr1).
    destruct (f p h) as [p' h1] eqn:Ef. simpl in L1, Ok1, Sub1, Fr1.
    assert (Hr1 : cart_ok r h1).
    { split; [|exact Nr]. apply Forall_forall. intros q Hq.
      rewrite Forall_forall in Hr. specialize (Hr q Hq).
      apply (item_ok_frame q h h1 Hr L1). intros l Hl.
      assert (Hlr : l ∈ locs_of r) by now apply (locs_of_intro r q).
      apply Fr1.
      - destruct Hr as (V & _). now apply V.
      - intros Hlp. now apply (Hdisj l Hlp). }
    destruct (IH h1 Hr1) as (L2 & [All2 Nd2] & Sub2 & Fr2).
    destruct (map_heap f r h1) as [r' h2] eqn:Er. simpl in *.
    assert (Hp'r : forall l, l ∈ locs p' -> l ∉ locs_of r).
    { intros l Hl Hlr. pose proof (locs_of_valid r h l Hr Hlr) as Hlt.
      destruct (Sub1 l Hl) as [Hin|Hge]; [now apply (Hdisj l Hin)|lia]. }
    split; [lia|]. split; [split|split].
    + constructor; [|exact All2].
      apply (item_ok_frame p' h1 h2 Ok1 L2). intros l Hl. apply Fr2.
      * destruct Ok1 as (V & _). now apply V.
      * now apply Hp'r.
    + unfold locs_of. simpl. fold (locs_of r'). apply NoDup_app.
      split; [now destruct Ok1 as (_ & N & _)|]. split; [|exact Nd2].
      intros l Hl Hlr'. destruct (Sub2 l Hlr') as [Hin|Hge].
      * now apply (Hp'r l Hl).
      * destruct Ok1 as (V & _). specialize (V l Hl). lia.
    + unfold locs_of. simpl. fold (locs_of r') (locs_of r).
      intros l Hl. rewrite elem_of_app.
      apply elem_of_app in Hl as [Hl|Hl].
      * destruct (Sub1 l Hl); [now left; left|now right].
      * destruct (Sub2 l Hl); [now left; right|right; lia].
    + unfold locs_of. simpl. fold (locs_of r).
      intros l Hlt Hnot. rewrite elem_of_app in Hnot.
      rewrite Fr2; [apply Fr1; [exact Hlt|tauto]|lia|tauto].
Qed.

Lemma bump_locs (k : jstring) (d : Z) (c : Cart) : map locs (bump k d c) = map locs c.
Proof.
  unfold bump. rewrite map_map. apply map_ext.
  intros p. now destruct (has_sku k p).
Qed.

Lemma bump_ok (k : jstring) (c : Cart) (h : Heap) :
  cart_ok c h -> cart_ok (bump k 1 c) h.
Proof.
  intros [Hall Hnd]. split.
  - unfold bump. apply Forall_map. apply (Forall_impl _ _ _ Hall).
    intros p (V & N & Q & C). destruct (has_sku k p); [|easy].
    repeat split; try easy; simpl; [lia|].
    intros l a Hl Ha Hid. specialize (C l a Hl Ha Hid). lia.
  - unfold locs_of. now rewrite bump_locs.
Qed.

Lemma append_bare_ok (item : CartItem.t) (c : Cart) (h : Heap) :
  CartItem.addons item = Some [] -> CartItem.qty item = 1 ->
  cart_ok c h -> cart_ok (c ++ [item]) h.
Proof.
  intros Ha Hq [Hall Hnd].
  assert (Hl : locs item = []) by (unfold locs; now rewrite Ha).
  split.
  - apply Forall_app. split; [exact Hall|]. constructor; [|constructor].
    unfold item_ok. rewrite Hl, Hq. repeat split; try lia.
    + intros l H. now apply not_elem_of_nil in H.
    + constructor.
    + intros l a H. now apply not_elem_of_nil in H.
  - unfold locs_of. rewrite map_app, concat_app. simpl. rewrite Hl. simpl.
    now rewrite app_nil_r.
Qed.

Lemma addDrink_ok (id : jstring) (c c' : Cart) (h : Heap) :
  cart_ok c h -> addDrink id c = Some c' -> cart_ok c' h.
Proof.
  intros Hok. unfold addDrink.
  destruct (find (fun x => str_eqb (Drink.id x) id) DRINKS) as [d|]; [|easy].
  intros [= <-]. destruct (find (has_sku (Drink.id d)) c).
  - now apply bump_ok.
  - now apply append_bare_ok.
Qed.

Lemma addCheeseToDrink_ok (sku : jstring) (c : Cart) (h : Heap) :
  cart_ok c h ->
  cart_ok (fst (addCheeseToDrink sku c h)) (snd (addCheeseToDrink sku c h)).
Proof.
  intros Hok.
  now destruct (map_heap_local _ c h (cheese_drink_item_local sku) Hok) as (_ & H & _).
Qed.

Lemma run_drink_ops_ok (ops : list DrinkOp) (st st' : Cart * Heap) :
  cart_ok (fst st) (snd st) -> run_drink_ops ops st = Some st' ->
  cart_ok (fst st') (snd st').
Proof.
  revert st. induction ops as [|op ops IH]; intros st Hok; simpl.
  - now intros [= <-].
  - destruct (drink_step op st) as [st1|] eqn:E; [|easy].
    apply IH. destruct op as [id|sku]; simpl in E.
    + destruct (addDrink id (fst st)) as [c1|] eqn:Ea; [|easy].
      injection E as <-. simpl. now apply (addDrink_ok id (fst st)).
    + injection E as <-. now apply addCheeseToDrink_ok.
Qed.

Lemma cart_ok_capped (c : Cart) (h : Heap) : cart_ok c h -> cheese_capped c h.
Proof.
  intros [Hall _] p l a Hp Hl Ha Hid.
  rewrite Forall_forall in Hall. apply list_elem_of_In in Hp.
  destruct (Hall p Hp) as (_ & _ & _ & C).
  apply (C l a); try easy. now apply list_elem_of_In.
Qed.

(** C3.  In every cart reached from the empty cart by [addDrink] and
    [addCheeseToDrink] calls, in any order and for any sku, the quantity of
    each cheese add-on object of a line is at most the line's quantity. *)
Theorem drink_cheese_never_exceeds_qty
    (ops : list DrinkOp) (h0 : Heap) (c : Cart) (h : Heap) :
  run_drink_ops ops ([], h0) = Some (c, h) -> cheese_capped c h.
Proof.
  intros Hrun. apply cart_ok_capped.
  apply (run_drink_ops_ok ops ([], h0) (c, h)); [|exact Hrun].
  split; constructor.
Qed.

(** ** Queue numbers *)

Lemma read_digit_digit (v d : Z) :
  0 <= d < 10 -> read_digit (Some v) (digit d) = Some (10 * v + d).
Proof.
  intros Hd. unfold read_digit, digit.
  replace (N.leb 48 (48 + Z.to_N d) && N.leb (48 + Z.to_N d) 57)%bool with true.
  - f_equal. lia.
  - symmetry. apply andb_true_iff. split; apply N.leb_le; lia.
Qed.

Lemma read_decimal (fuel : nat) :
  forall n acc, 0 <= n < 10 ^ Z.of_nat (S fuel) ->
    fold_left read_digit (decimal fuel n acc) (Some 0)
    = fold_left read_digit acc (Some n).
Proof.
  induction fuel as [|f IH]; intros n acc Hn.
  - change (10 ^ Z.of_nat 1) with 10 in Hn. cbn [decimal fold_left].
    rewrite Z.mod_small by lia. now rewrite read_digit_digit by lia.
  - cbn [decimal]. destruct (n <? 10) eqn:E.
    + apply Z.ltb_lt in E. cbn [fold_left].
      rewrite Z.mod_small by lia. now rewrite read_digit_digit by lia.
    + apply Z.ltb_ge in E. rewrite IH.
      * cbn [fold_left]. rewrite read_digit_digit by (apply Z.mod_pos_bound; lia).
        f_equal. f_equal. rewrite (Z.div_mod n 10) at 3 by lia. reflexivity.
      * split; [apply Z.div_pos; lia|].
        apply Z.div_lt_upper_bound; [lia|].
        rewrite <- Z.pow_succ_r by lia. rewrite <- Nat2Z.inj_succ. lia.
Qed.

Lemma log2_fuel (n : Z) : 0 <= n -> n < 10 ^ Z.of_nat (S (Z.to_nat (Z.log2 n))).
Proof.
  intros Hn. destruct (Z.eq_dec n 0) as [->|Hz]; [reflexivity|].
  rewrite Nat2Z.inj_succ, Z2Nat.id by apply Z.log2_nonneg.
  apply Z.lt_le_trans with (2 ^ Z.succ (Z.log2 n)).
  - apply Z.log2_spec. lia.
  - apply Z.pow_le_mono_l. lia.
Qed.

Lemma read_zeros (k : nat) (s : jstring) :
  fold_left read_digit (repeat 48%N k ++ s) (Some 0) = fold_left read_digit s (Some 0).
Proof. induction k as [|k IH]; simpl; [reflexivity|exact IH]. Qed.

Lemma decimal_cons (fuel : nat) (n : Z) (acc : jstring) :
  exists d ds, decimal fuel n acc = d :: ds.
Proof.
  revert n acc. induction fuel as [|f IH]; intros n acc; simpl.
  - eauto.
  - destruct (n <? 10); [eauto|apply IH].
Qed.

Lemma counter_of_label (n : Z) : 0 <= n -> counter_of (queue_label n) = Some n.
Proof.
  intros Hn. unfold queue_label, String_of.
  replace (n <? 0) with false by (symmetry; apply Z.ltb_ge; lia).
  set (s := decimal (Z.to_nat (Z.log2 n)) n []).
  assert (Hs : fold_left read_digit (padStart3 s) (Some 0) = Some n).
  { unfold padStart3. rewrite read_zeros. unfold s.
    rewrite read_decimal by (split; [exact Hn|now apply log2_fuel]). reflexivity. }
  assert (Hc : exists d ds, padStart3 s = d :: ds).
  { unfold padStart3. destruct (decimal_cons (Z.to_nat (Z.log2 n)) n []) as (d & ds & E).
    fold s in E. rewrite E. destruct (3 - length (d :: ds))%nat; simpl; eauto. }
  destruct Hc as (d & ds & E). rewrite E in *. exact Hs.
Qed.

Lemma label_length_upto_999 (n : Z) :
  0 <= n < 1000 -> length (queue_label n) = 5%nat.
Proof.
  intros Hn.
  assert (H : forallb (fun i => Nat.eqb (length (queue_label (Z.of_nat i))) 5)
                (seq 0 1000) = true) by (vm_compute; reflexivity).
  rewrite forallb_forall in H. specialize (H (Z.to_nat n)).
  rewrite Z2Nat.id in H by lia. apply Nat.eqb_eq, H, in_seq. lia.
Qed.

Lemma nextQueueNumber_eq (w : World) :
  nextQueueNumber w =
  let Y := year (clock w (tick w)) in
  let n := counter_base Y w + 1 in
  (queue_label n, mkWorld (ls_orders w) (Some (Y, n)) (clock w) (S (tick w))).
Proof.
  unfold nextQueueNumber, counter_base, bind, read_clock, get_seq, set_seq, ret.
  cbn [ls_seq ls_orders clock tick].
  destruct (ls_seq w) as [[y k]|].
  - destruct (y =? year (clock w (tick w))) eqn:E; cbn [negb].
    + apply Z.eqb_eq in E. now rewrite E.
    + reflexivity.
  - rewrite Z.eqb_refl. reflexivity.
Qed.

Lemma issue_same_year (k : nat) :
  forall (w : World) (Y : Z),
    (forall i, (i < k)%nat -> year (clock w (tick w + i)) = Y) ->
    fst (issue k w)
    = map (fun i => queue_label (counter_base Y w + Z.of_nat i + 1)) (seq 0 k).
Proof.
  induction k as [|k IH]; intros w Y HY; [reflexivity|].
  cbn [issue]. unfold bind at 1. rewrite nextQueueNumber_eq.
  assert (H0 : year (clock w (tick w)) = Y).
  { rewrite <- (HY 0%nat) by lia. now rewrite Nat.add_0_r. }
  cbv zeta. rewrite H0.
  set (w1 := mkWorld _ _ _ _).
  unfold bind, ret. specialize (IH w1 Y).
  destruct (issue k w1) as [qs w2] eqn:E. cbn [fst] in *.
  rewrite IH.
  - cbn [seq map]. rewrite Z.add_0_r. f_equal.
    rewrite <- seq_shift, map_map. apply map_ext. intros i.
    unfold counter_base at 1. unfold w1. cbn [ls_seq]. rewrite Z.eqb_refl.
    f_equal. lia.
  - intros i Hi. unfold w1. cbn [clock tick].
    replace (S (tick w) + i)%nat with (tick w + S i)%nat by lia.
    apply HY. lia.
Qed.

(** ** Submission *)

Lemma trimStart_blank (s : jstring) :
  Forall (fun c => is_ws c = true) s -> trimStart s = [].
Proof. induction 1 as [|c s Hc _ IH]; simpl; [reflexivity|now rewrite Hc]. Qed.

Lemma trim_blank (s : jstring) :
  Forall (fun c => is_ws c = true) s -> trim s = [].
Proof. intros H. unfold trim. rewrite (trimStart_blank _ H). reflexivity. Qed.

(** C6.  [submitOrder] with an empty cart, or with a pickup name made of
    white space only (the empty name included), schedules no order
    creation and leaves localStorage (the order collection and the queue
    sequence) and the component state as they were. *)
Theorem rejected_submission_changes_nothing (s : Sys) :
  cart (ui s) = [] \/ Forall (fun c => is_ws c = true) (pickupName (ui s)) ->
  timers (submitOrder s) = timers s
  /\ world (submitOrder s) = world s
  /\ ui (submitOrder s) = ui s
  /\ heap (submitOrder s) = heap s.
Proof.
  intros H. unfold submitOrder.
  destruct (cart (ui s)) as [|p c] eqn:Ec; [easy|].
  destruct H as [H|H]; [discriminate|].
  now rewrite (trim_blank _ H).
Qed.

Lemma new_order_eq (c : Closure) (h : Heap) (w : World) :
  fst (new_order c h w) =
  Order.mk
    (JStr (queue_label (counter_base (year (clock w (tick w))) w + 1)))
    (JArr (map (item_json h) (c_cart c)))
    (Fin (toFixed2 (c_subtotal c)))
    New
    (Fin (inject_Z (ms (clock w (1 + tick w)))))
    (Some (Fin (inject_Z (ms (clock w (2 + tick w)) + 600000))))
    (text_or_undefined (c_note c))
    (JStr (trim (c_pickupName c)))
    (text_or_undefined (trim (c_phone c)))
    (c_marketing c).
Proof.
  unfold new_order. unfold bind at 1. rewrite nextQueueNumber_eq. reflexivity.
Qed.

(** C2, as the program has it.  The order built by [submitOrder] has an
    [expiresAt]: the clock reading taken for it plus 600000 ms.  That
    reading is the one after the reading stored as [createdAt]; whenever
    the two readings agree, [expiresAt] is [createdAt] plus 600000 ms. *)
Theorem expiresAt_is_its_own_reading_plus_window
    (c : Closure) (h : Heap) (w : World) :
  let o := fst (new_order c h w) in
  let created := ms (clock w (1 + tick w)) in
  let now := ms (clock w (2 + tick w)) in
  Order.createdAt o = Fin (inject_Z created)
  /\ Order.expiresAt o = Some (Fin (inject_Z (now + 600000)))
  /\ (now = created -> expires_after_created o 600000).
Proof.
  cbv zeta. rewrite new_order_eq. cbn [Order.createdAt Order.expiresAt].
  split; [reflexivity|]. split; [reflexivity|].
  intros E. unfold expires_after_created. cbn [Order.createdAt Order.expiresAt].
  rewrite E. unfold Qeq, Qplus, inject_Z. simpl. lia.
Qed.

(** ** Reading back what was saved *)

Section StoreProperties.

Variable coerce : JSON -> num.

Lemma coalesce_some (j d : JSON) : j <> JNull -> coalesce (Some j) d = j.
Proof. now destruct j. Qed.

Lemma non_null_opt (v : option JSON) : v <> Some JNull -> non_null v = v.
Proof. destruct v as [[]|]; easy. Qed.

Lemma normalize_status_name (st : Status) :
  normalize (Some (JStr (status_name st))) = st.
Proof. now destruct st. Qed.

Lemma Number_num_json (n : num) : n <> NaN -> Number coerce (num_json n) = n.
Proof. now destruct n. Qed.

Ltac get_field o :=
  unfold order_json, opt_field;
  destruct (Order.expiresAt o), (Order.note o), (Order.phone o); reflexivity.

Lemma get_id o : get (order_json o) Key.id = Some (Order.id o).
Proof. get_field o. Qed.
Lemma get_items o : get (order_json o) Key.items = Some (Order.items o).
Proof. get_field o. Qed.
Lemma get_total o : get (order_json o) Key.total = Some (num_json (Order.total o)).
Proof. get_field o. Qed.
Lemma get_status o :
  get (order_json o) Key.status = Some (JStr (status_name (Order.status o))).
Proof. get_field o. Qed.
Lemma get_createdAt o :
  get (order_json o) Key.createdAt = Some (num_json (Order.createdAt o)).
Proof. get_field o. Qed.
Lemma get_expiresAt o :
  get (order_json o) Key.expiresAt = option_map num_json (Order.expiresAt o).
Proof. get_field o. Qed.
Lemma get_note o : get (order_json o) Key.note = Order.note o.
Proof. get_field o. Qed.
Lemma get_pickupName o :
  get (order_json o) Key.pickupName = Some (Order.pickupName o).
Proof. get_field o. Qed.
Lemma get_phone o : get (order_json o) Key.phone = Order.phone o.
Proof. get_field o. Qed.
Lemma get_marketingOptIn o :
  get (order_json o) Key.marketingOptIn = Some (JBool (Order.marketingOptIn o)).
Proof. get_field o. Qed.

Lemma normalize_order_json (o : Order.t) (w : World) :
  well_formed o -> normalize_order coerce (order_json o) w = (o, w).
Proof.
  intros (Hid & Hit & Hpn & Ht & Hc & He & Hn & Hp).
  unfold normalize_order.
  rewrite get_id, get_items, get_total, get_status, get_createdAt,
    get_expiresAt, get_note, get_pickupName, get_phone, get_marketingOptIn.
  rewrite !coalesce_some, !non_null_opt, normalize_status_name by
    (try assumption; destruct (Order.total o), (Order.createdAt o); easy).
  rewrite !Number_num_json by assumption.
  unfold bind, ret.
  replace (if truthy (option_map num_json (Order.expiresAt o))
           then option_map (Number coerce) (option_map num_json (Order.expiresAt o))
           else None)
    with (Order.expiresAt o).
  - now destruct o.
  - destruct (Order.expiresAt o) as [[|e]|]; try easy. simpl.
    destruct (Qeq_bool e 0) eqn:E; [|reflexivity].
    apply Qeq_bool_iff in E. contradiction.
Qed.

Lemma normalize_all_json (os : list Order.t) (w : World) :
  Forall well_formed os ->
  normalize_all coerce (map order_json os) w = (Some os, w).
Proof.
  induction 1 as [|o os Ho _ IH]; [reflexivity|].
  cbn [map normalize_all]. change (order_json o) with (JObj
    match order_json o with JObj fs => fs | _ => [] end).
  cbv beta iota. unfold bind at 1.
  change (JObj match order_json o with JObj fs => fs | _ => [] end)
    with (order_json o).
  rewrite normalize_order_json by exact Ho.
  unfold bind. rewrite IH. reflexivity.
Qed.

(** A store holding what [saveAllOrders] wrote for well-formed orders is
    read back as those orders, without consulting the clock. *)
Lemma getAllOrders_stored (os : list Order.t) (w : World) :
  Forall well_formed os -> ls_orders w = stored os ->
  getAllOrders coerce w = (os, w).
Proof.
  intros Hwf Hs. unfold getAllOrders, bind, get_orders_text.
  rewrite Hs. unfold stored. rewrite normalize_all_json by exact Hwf.
  reflexivity.
Qed.

(** ** The expiry sweep *)

Lemma overdue_spec (t : Z) (o : Order.t) :
  well_formed o ->
  (if overdue t o then Order.with_status o Cancelled else o) = spec_expire t o.
Proof.
  intros (_ & _ & _ & _ & _ & He & _). unfold overdue, spec_expire.
  destruct (Order.status o), (Order.expiresAt o) as [[|e]|]; try easy;
    cbn [status_eqb truthy_num andb].
  destruct (Qeq_bool e 0) eqn:E; [apply Qeq_bool_iff in E; contradiction|].
  now destruct (Qlt_le_dec e (inject_Z t)).
Qed.

Lemma sweep_map_spec (t : Z) (os : list Order.t) :
  Forall well_formed os -> sweep_map t os = map (spec_expire t) os.
Proof.
  unfold sweep_map. induction 1 as [|o os Ho _ IH]; [reflexivity|].
  cbn [map]. now rewrite IH, overdue_spec.
Qed.

Lemma sweep_map_quiet (t : Z) (os : list Order.t) :
  existsb (overdue t) os = false -> sweep_map t os = os.
Proof.
  unfold sweep_map. induction os as [|o os IH]; [reflexivity|].
  cbn [existsb map]. intros H. apply orb_false_iff in H as [H1 H2].
  now rewrite H1, IH.
Qed.

Lemma spec_expire_well_formed (t : Z) (o : Order.t) :
  well_formed o -> well_formed (spec_expire t o).
Proof.
  intros H. unfold spec_expire.
  destruct (Order.status o), (Order.expiresAt o) as [[|e]|] eqn:E; try exact H.
  destruct (Qlt_le_dec e (inject_Z t)); [|exact H].
  unfold well_formed in *. now destruct o.
Qed.

Lemma overdue_after_expire (t : Z) (o : Order.t) :
  overdue t (spec_expire t o) = false.
Proof.
  unfold spec_expire, overdue.
  destruct (Order.status o) eqn:Es, (Order.expiresAt o) as [[|e]|] eqn:Ee;
    rewrite ?Es, ?Ee; try reflexivity;
    try (cbn [status_eqb andb]; now rewrite ?andb_false_r).
  destruct (Qlt_le_dec e (inject_Z t)) as [Hlt|Hle] eqn:Ed.
  - reflexivity.
  - rewrite Es, Ee, Ed. now rewrite andb_false_r.
Qed.

Lemma sweep_stored (s : Sys) (os : list Order.t) :
  Forall well_formed os -> ls_orders (world s) = stored os ->
  ls_orders (world (sweep coerce s))
  = stored (sweep_map (ms (clock (world s) (tick (world s)))) os).
Proof.
  intros Hwf Hs. unfold sweep, Date_now, bind, read_clock, ret.
  set (t := ms (clock (world s) (tick (world s)))).
  set (w1 := mkWorld _ _ _ _).
  rewrite (getAllOrders_stored os w1 Hwf Hs).
  destruct (existsb (overdue t) os) eqn:E.
  - reflexivity.
  - cbn [world]. unfold w1. cbn [ls_orders]. now rewrite sweep_map_quiet.
Qed.

(** Over a stored collection of well-formed
    orders (so every [expiresAt] that is present is not 0), the sweep at
    clock reading [t] leaves in the store exactly the result of cancelling
    every order with status New and [expiresAt] earlier than [t]; and a
    sweep of that store at the same reading leaves it as it is. *)
Theorem sweep_cancels_overdue_once (s : Sys) (os : list Order.t) :
  Forall well_formed os -> ls_orders (world s) = stored os ->
  let t := ms (clock (world s) (tick (world s))) in
  ls_orders (world (sweep coerce s)) = stored (map (spec_expire t) os)
  /\ (forall s',
        ls_orders (world s') = ls_orders (world (sweep coerce s)) ->
        ms (clock (world s') (tick (world s'))) = t ->
        ls_orders (world (sweep coerce s')) = ls_orders (world s')).
Proof.
  intros Hwf Hs t.
  assert (H1 : ls_orders (world (sweep coerce s)) = stored (map (spec_expire t) os)).
  { rewrite (sweep_stored s os Hwf Hs). fold t. now rewrite sweep_map_spec. }
  split; [exact H1|].
  intros s' Hs' Ht. rewrite H1 in Hs'.
  assert (Hwf' : Forall well_formed (map (spec_expire t) os)).
  { apply Forall_map. apply (Forall_impl _ _ _ Hwf).
    intros o. apply spec_expire_well_formed. }
  rewrite (sweep_stored s' _ Hwf' Hs'), Ht, Hs'. f_equal.
  apply sweep_map_quiet. clear. induction os as [|o os IH]; [reflexivity|].
  cbn [map existsb]. now rewrite overdue_after_expire, IH.
Qed.

(** ** The staff board *)

Lemma merge_status (o : Order.t) (t : Status) :
  merge o (Patch.of_status t) = Order.with_status o t.
Proof. now destruct o. Qed.

(** C1, as the program has it.  [updateOrder] with a status patch sets
    the status of every stored order with the given id, whatever its
    current status.  The board offers on the card of an order every
    transition to a status other than its own and other than New, except
    that Paid is offered on New orders only: on a Done order those to
    Preparing, Ready and Cancelled, on a Cancelled order those to
    Preparing, Ready and Done. *)
Theorem status_update_is_unconditional
    (s : Sys) (os : list Order.t) (id : JSON) (target : Status) :
  Forall well_formed os -> ls_orders (world s) = stored os ->
  ls_orders (world (updateOrder coerce id (Patch.of_status target) s))
  = stored (map (fun o => if strict_eq (Order.id o) id
                          then Order.with_status o target else o) os)
  /\ (forall st t, In t (board_buttons st)
                   <-> t <> st /\ t <> New /\ (t = Paid -> st = New))
  /\ board_buttons Done = [Preparing; Ready; Cancelled]
  /\ board_buttons Cancelled = [Preparing; Ready; Done].
Proof.
  intros Hwf Hs. split; [|split; [|split; reflexivity]].
  - unfold updateOrder. rewrite (getAllOrders_stored os _ Hwf Hs).
    unfold saveAllOrders, set_orders_text. cbn [world ls_orders].
    apply (f_equal stored), map_ext. intros o. now rewrite merge_status.
  - intros st t. destruct st, t; simpl; intuition congruence.
Qed.

(** ** What a session keeps true of the store *)

Lemma getAllOrders_ok (w : World) :
  store_ok w ->
  exists os, getAllOrders coerce w = (os, w) /\ Forall well_formed os.
Proof.
  intros [H|(os & H & Hwf)].
  - exists []. split; [|constructor].
    unfold getAllOrders, bind, get_orders_text. now rewrite H.
  - exists os. split; [now apply getAllOrders_stored|exact Hwf].
Qed.

Lemma new_order_world (c : Closure) (h : Heap) (w : World) :
  snd (new_order c h w) =
  mkWorld (ls_orders w)
    (Some (year (clock w (tick w)),
           counter_base (year (clock w (tick w))) w + 1))
    (clock w) (3 + tick w).
Proof.
  unfold new_order. unfold bind at 1. rewrite nextQueueNumber_eq. reflexivity.
Qed.

Lemma text_or_undefined_not_null (t : jstring) : text_or_undefined t <> Some JNull.
Proof. now destruct t. Qed.

Lemma new_order_well_formed (c : Closure) (h : Heap) (w : World) :
  clock_ok w -> well_formed (fst (new_order c h w)).
Proof.
  intros Hc. rewrite new_order_eq. unfold well_formed.
  cbn [Order.id Order.items Order.total Order.createdAt Order.expiresAt
       Order.note Order.pickupName Order.phone].
  repeat split; try easy; try apply text_or_undefined_not_null.
  specialize (Hc (2 + tick w)%nat). unfold Qeq, inject_Z.
  cbn [Qnum Qden]. lia.
Qed.

Lemma with_status_well_formed (o : Order.t) (st : Status) :
  well_formed o -> well_formed (Order.with_status o st).
Proof. unfold well_formed. now destruct o. Qed.

Lemma sweep_map_well_formed (t : Z) (os : list Order.t) :
  Forall well_formed os -> Forall well_formed (sweep_map t os).
Proof.
  intros H. unfold sweep_map. apply Forall_map. apply (Forall_impl _ _ _ H).
  intros o Ho. destruct (overdue t o); [now apply with_status_well_formed|exact Ho].
Qed.

Lemma stored_ok (os : list Order.t) (w : World) :
  Forall well_formed os -> ls_orders w = stored os -> store_ok w.
Proof. intros H E. right. now exists os. Qed.

Lemma place_eq (c : Closure) (h : Heap) (w : World) (os : list Order.t) :
  getAllOrders coerce (snd (new_order c h w)) = (os, snd (new_order c h w)) ->
  place coerce c h w =
  let o := fst (new_order c h w) in
  let w1 := snd (new_order c h w) in
  let next := take 300 (o :: os) in
  ((o, next), mkWorld (stored next) (ls_seq w1) (clock w1) (tick w1)).
Proof.
  unfold place. unfold bind at 1.
  destruct (new_order c h w) as [o w1]. cbn [fst snd]. intros E.
  unfold bind at 1. rewrite E. reflexivity.
Qed.

Lemma step_ok (e : Event) (s s' : Sys) :
  store_ok (world s) -> clock_ok (world s) -> board_event e ->
  step coerce e s = Some s' ->
  store_ok (world s') /\ clock_ok (world s').
Proof.
  intros Hs Hc He.
  destruct (getAllOrders_ok (world s) Hs) as (os & Eos & Hwf).
  destruct e; cbn [step]; try (intros [= <-]; now split).
  - destruct (addDrink id (cart (ui s))); [|easy]. intros [= <-]. now split.
  - intros [= <-]. unfold update_cart.
    destruct (addCheeseToSouffle sku (cart (ui s)) (heap s)). now split.
  - intros [= <-]. unfold update_cart.
    destruct (addCheeseToDrink sku (cart (ui s)) (heap s)). now split.
  - intros [= <-]. unfold submitOrder. destruct (cart (ui s)); [now split|].
    destruct (trim (pickupName (ui s))); now split.
  - intros [= <-]. unfold fire. destruct (timers s) as [|c rest]; [now split|].
    pose proof (new_order_well_formed c (heap s) (world s) Hc) as Ho.
    assert (Hs1 : store_ok (snd (new_order c (heap s) (world s)))).
    { rewrite new_order_world.
      destruct Hs as [H|(os' & H & Hwf')]; [now left|]. right. now exists os'. }
    destruct (getAllOrders_ok _ Hs1) as (os1 & E1 & Hwf1).
    rewrite (place_eq c (heap s) (world s) os1 E1). cbn [world]. split.
    + eapply stored_ok; [|reflexivity]. apply Forall_take. now constructor.
    + rewrite new_order_world. exact Hc.
  - intros [= <-]. unfold sweep, Date_now, bind, read_clock, ret.
    set (w1 := mkWorld _ _ _ _).
    assert (Hs1 : store_ok w1).
    { destruct Hs as [H|(os' & H & Hwf')]; [now left|]. right. now exists os'. }
    destruct (getAllOrders_ok w1 Hs1) as (os1 & E1 & Hwf1). rewrite E1.
    destruct (existsb _ os1); cbn [world]; [|now split].
    split; [|exact Hc].
    apply (stored_ok (sweep_map (ms (clock (world s) (tick (world s)))) os1));
      [now apply sweep_map_well_formed|reflexivity].
  - intros [= <-]. destruct He as [st ->]. unfold updateOrder. rewrite Eos.
    cbn [world saveAllOrders set_orders_text]. split; [|exact Hc].
    eapply stored_ok; [|reflexivity]. apply Forall_map.
    apply (Forall_impl _ _ _ Hwf). intros o Ho.
    destruct (strict_eq (Order.id o) id); [|exact Ho].
    rewrite merge_status. now apply with_status_well_formed.
  - intros [= <-]. unfold deleteOrder. rewrite Eos.
    cbn [world saveAllOrders set_orders_text]. split; [|exact Hc].
    eapply stored_ok; [|reflexivity]. rewrite Forall_forall in *.
    intros o Ho. apply Hwf. apply list_elem_of_In in Ho.
    apply filter_In in Ho as [Ho _]. now apply list_elem_of_In.
  - intros [= <-]. destruct confirmed; [|now split].
    cbn. split; [|exact Hc]. now apply (stored_ok []).
Qed.

(** Whatever a session does from a store that is empty or well formed,
    the store stays so: the hypotheses of the sweep and of the status
    update hold throughout. *)
Lemma run_ok (es : list Event) :
  forall s s', store_ok (world s) -> clock_ok (world s) ->
    Forall board_event es -> run coerce es s = Some s' ->
    store_ok (world s') /\ clock_ok (world s').
Proof.
  induction es as [|e es IH]; intros s s' Hs Hc He; cbn [run].
  - intros [= <-]. now split.
  - inversion He as [|? ? He1 He2]; subst.
    destruct (step coerce e s) as [s1|] eqn:E; [|easy].
    destruct (step_ok e s s1 Hs Hc He1 E) as [Hs1 Hc1]. now apply IH.
Qed.

(** ** Reading a stored collection *)

Lemma normalize_order_clock (r : JSON) (w : World) :
  clock (snd (normalize_order coerce r w)) = clock w.
Proof.
  unfold normalize_order, bind, ret, Date_now, read_clock.
  now destruct (non_null (get r Key.createdAt)).
Qed.

Lemma normalize_all_clock (arr : list JSON) :
  forall w, clock (snd (normalize_all coerce arr w)) = clock w.
Proof.
  induction arr as [|r arr IH]; intros w; [reflexivity|].
  assert (H : clock (snd ((let* x := normalize_order coerce r in
                           let* l := normalize_all coerce arr in
                           ret (option_map (cons x) l)) w)) = clock w).
  { unfold bind at 1. pose proof (normalize_order_clock r w) as Hc.
    destruct (normalize_order coerce r w) as [x w1]. unfold bind.
    specialize (IH w1). destruct (normalize_all coerce arr w1) as [l w2].
    simpl in *. congruence. }
  destruct r; try exact H. reflexivity.
Qed.



Lemma normalize_all_null (arr : list JSON) :
  In JNull arr -> forall w, fst (normalize_all coerce arr w) = None.
Proof.
  induction arr as [|r arr IH]; [easy|].
  intros [->|Hin] w; [reflexivity|].
  destruct r; try reflexivity;
    cbn [normalize_all]; unfold bind at 1;
    destruct (normalize_order coerce _ w) as [x w1]; unfold bind;
    specialize (IH Hin w1);
    destruct (normalize_all coerce arr w1) as [rs w2];
    simpl in IH; subst rs; reflexivity.
Qed.

Lemma normalize_order_world (r : JSON) (w : World) :
  exists k, (k <= 1)%nat
    /\ snd (normalize_order coerce r w)
       = mkWorld (ls_orders w) (ls_seq w) (clock w) (tick w + k).
Proof.
  unfold normalize_order, bind, ret, Date_now, read_clock.
  destruct (non_null (get r Key.createdAt)); cbn [snd].
  - exists 0%nat. split; [lia|]. rewrite Nat.add_0_r. now destruct w.
  - exists 1%nat. split; [lia|]. now rewrite Nat.add_1_r.
Qed.

Lemma normalize_all_world (arr : list JSON) :
  forall w, exists k, (k <= length arr)%nat
    /\ snd (normalize_all coerce arr w)
       = mkWorld (ls_orders w) (ls_seq w) (clock w) (tick w + k).
Proof.
  induction arr as [|r arr IH]; intros w.
  - exists 0%nat. split; [simpl; lia|]. rewrite Nat.add_0_r. now destruct w.
  - assert (H : exists k, (k <= length (r :: arr))%nat
              /\ snd ((let* x := normalize_order coerce r in
                       let* l := normalize_all coerce arr in
                       ret (option_map (cons x) l)) w)
                 = mkWorld (ls_orders w) (ls_seq w) (clock w) (tick w + k)).
    { unfold bind at 1. destruct (normalize_order_world r w) as (k1 & Hk1 & E1).
      destruct (normalize_order coerce r w) as [x w1]. cbn [snd] in E1.
      unfold bind. destruct (IH w1) as (k2 & Hk2 & E2).
      destruct (normalize_all coerce arr w1) as [rs w2]. cbn [snd] in *.
      exists (k1 + k2)%nat. split; [simpl; lia|].
      subst w2 w1. cbn [ls_orders ls_seq clock tick].
      now rewrite Nat.add_assoc. }
    destruct r; try exact H.
    exists 0%nat. split; [simpl; lia|]. cbn. rewrite Nat.add_0_r. now destruct w.
Qed.


End StoreProperties.

(** ** Queue numbers in a session *)

Section QueueInSession.

Variable coerce : JSON -> num.

Lemma getAllOrders_keeps (w : World) :
  ls_seq (snd (getAllOrders coerce w)) = ls_seq w
  /\ clock (snd (getAllOrders coerce w)) = clock w.
Proof.
  unfold getAllOrders, bind, get_orders_text.
  destruct (ls_orders w) as [| |j]; try (now split).
  destruct j; try (now split).
  destruct (normalize_all_world coerce l w) as (k & _ & E).
  destruct (normalize_all coerce l w) as [r w1]. cbn [snd] in *. subst w1.
  now split.
Qed.

Lemma fire_eq (s : Sys) (c : Closure) (rest : list Closure) :
  timers s = c :: rest ->
  fire coerce s =
  let o := fst (new_order c (heap s) (world s)) in
  let w2 := snd (getAllOrders coerce (snd (new_order c (heap s) (world s)))) in
  let next :=
    take 300 (o :: fst (getAllOrders coerce (snd (new_order c (heap s) (world s))))) in
  mkSys (mkUI [] [] [] [] true false (Some o) next) (heap s)
    (mkWorld (stored next) (ls_seq w2) (clock w2) (tick w2)) rest (alerts s).
Proof.
  intros Ht. unfold fire, place, bind, saveAllOrders, set_orders_text, ret.
  rewrite Ht. destruct (new_order c (heap s) (world s)) as [o w1].
  cbn [fst snd]. now destruct (getAllOrders coerce w1) as [old w2].
Qed.

Lemma fire_queue (s : Sys) (c : Closure) (rest : list Closure) :
  timers s = c :: rest ->
  let Y := year (clock (world s) (tick (world s))) in
  clock (world (fire coerce s)) = clock (world s)
  /\ ls_seq (world (fire coerce s)) = Some (Y, counter_base Y (world s) + 1)
  /\ exists o, placed (ui (fire coerce s)) = Some o
       /\ Order.id o = JStr (queue_label (counter_base Y (world s) + 1)).
Proof.
  intros Ht. cbv zeta. rewrite (fire_eq s c rest Ht). cbv zeta.
  cbn [world ui placed ls_seq clock].
  destruct (getAllOrders_keeps (snd (new_order c (heap s) (world s)))) as [K1 K2].
  rewrite K1, K2, new_order_world. cbn [ls_seq clock].
  split; [reflexivity|]. split; [reflexivity|].
  eexists. split; [reflexivity|]. now rewrite new_order_eq.
Qed.

(** Apart from the timer callback and a confirmed wipe, nothing touches
    the sequence key; nothing at all changes the clock. *)
Lemma step_queue (e : Event) (s s' : Sys) :
  step coerce e s = Some s' -> e <> EWipeAll true ->
  clock (world s') = clock (world s)
  /\ ((issued_by e s s' = [] /\ ls_seq (world s') = ls_seq (world s))
      \/ (let Y := year (clock (world s) (tick (world s))) in
          issued_by e s s'
          = [(tick (world s), JStr (queue_label (counter_base Y (world s) + 1)))]
          /\ ls_seq (world s') = Some (Y, counter_base Y (world s) + 1))).
Proof.
  intros Hstep Hw.
  destruct e; cbn [step] in Hstep;
    try (injection Hstep as <-; split; [reflexivity|left; now split]).
  - destruct (addDrink id (cart (ui s))); [|easy]. injection Hstep as <-.
    split; [reflexivity|left; now split].
  - injection Hstep as <-. unfold update_cart.
    destruct (addCheeseToSouffle sku (cart (ui s)) (heap s)).
    split; [reflexivity|left; now split].
  - injection Hstep as <-. unfold update_cart.
    destruct (addCheeseToDrink sku (cart (ui s)) (heap s)).
    split; [reflexivity|left; now split].
  - injection Hstep as <-. unfold submitOrder.
    destruct (cart (ui s)); [split; [reflexivity|left; now split]|].
    destruct (trim (pickupName (ui s))); split; try reflexivity; left; now split.
  - injection Hstep as <-. destruct (timers s) as [|c rest] eqn:Et.
    + unfold fire. rewrite Et. split; [reflexivity|left]. split; [|reflexivity].
      unfold issued_by. now rewrite Et.
    + destruct (fire_queue s c rest Et) as (H1 & H2 & o & H3 & H4).
      split; [exact H1|right]. cbv zeta. split; [|exact H2].
      unfold issued_by. now rewrite Et, H3, H4.
  - injection Hstep as <-. unfold sweep, Date_now, bind, read_clock, ret.
    set (w1 := mkWorld _ _ _ _).
    destruct (getAllOrders_keeps w1) as [K1 K2].
    destruct (getAllOrders coerce w1) as [cur w2]. cbn [snd] in *.
    destruct (existsb _ cur); cbn [world saveAllOrders set_orders_text];
      cbn [ls_seq clock]; rewrite ?K1, ?K2; split; try reflexivity;
      left; now split.
  - injection Hstep as <-. unfold updateOrder.
    destruct (getAllOrders_keeps (world s)) as [K1 K2].
    destruct (getAllOrders coerce (world s)) as [cur w1]. cbn [snd] in *.
    cbn [world saveAllOrders set_orders_text ls_seq clock].
    rewrite K1, K2. split; [reflexivity|left; now split].
  - injection Hstep as <-. unfold deleteOrder.
    destruct (getAllOrders_keeps (world s)) as [K1 K2].
    destruct (getAllOrders coerce (world s)) as [cur w1]. cbn [snd] in *.
    cbn [world saveAllOrders set_orders_text ls_seq clock].
    rewrite K1, K2. split; [reflexivity|left; now split].
  - destruct confirmed; [congruence|]. injection Hstep as <-.
    split; [reflexivity|left; now split].
Qed.

Lemma issued_labels (Y : Z) (es : list Event) :
  forall s tr,
    issued coerce es s = Some tr ->
    Forall (fun e => e <> EWipeAll true) es ->
    (forall i id, In (i, id) tr -> year (clock (world s) i) = Y) ->
    map snd tr
    = map (fun i => JStr (queue_label (counter_base Y (world s) + Z.of_nat i + 1)))
        (seq 0 (length tr)).
Proof.
  induction es as [|e es IH]; intros s tr Hrun Hes HY; cbn [issued] in Hrun.
  - now injection Hrun as <-.
  - inversion Hes as [|? ? He Hes']; subst.
    destruct (step coerce e s) as [s'|] eqn:Es; [|easy].
    destruct (issued coerce es s') as [tr'|] eqn:Er; [|easy].
    cbn [option_map] in Hrun. injection Hrun as <-.
    destruct (step_queue e s s' Es He) as [Hc [[Hi Hq]|Hfire]].
    + rewrite Hi in *. cbn [app] in *.
      rewrite (IH s' tr' Er Hes') by (intros i id Hin; rewrite Hc; eauto).
      unfold counter_base. now rewrite Hq.
    + cbv zeta in Hfire. destruct Hfire as [Hi Hq]. rewrite Hi in *.
      cbn [app] in *.
      assert (Hy : year (clock (world s) (tick (world s))) = Y)
        by (eapply HY; left; reflexivity).
      rewrite Hy in *. cbn [map snd length seq].
      rewrite Z.add_0_r. f_equal.
      rewrite (IH s' tr' Er Hes')
        by (intros i id Hin; rewrite Hc; apply (HY i id); now right).
      rewrite <- seq_shift, map_map. apply map_ext. intros i.
      unfold counter_base at 1. rewrite Hq, Z.eqb_refl.
      do 2 f_equal. lia.
Qed.

Lemma consecutive_increasing (b : Z) (n : nat) :
  increasing (map (fun i => Some (b + Z.of_nat i + 1)) (seq 0 n)).
Proof.
  intros i j x y. rewrite length_map, length_seq. intros Hij.
  rewrite (nth_indep _ None (Some (b + Z.of_nat 0 + 1)))
    by (rewrite length_map, length_seq; lia).
  rewrite (nth_indep _ None (Some (b + Z.of_nat 0 + 1)) (n := j))
    by (rewrite length_map, length_seq; lia).
  rewrite !(map_nth (fun i => Some (b + Z.of_nat i + 1))).
  rewrite !seq_nth by lia. intros [= <-] [= <-]. lia.
Qed.

(** C9, as the program has it.  The queue numbers a session issues in
    calls that observe the calendar year [Y], with no confirmed wipe in
    between and with counters within 2^53, are the labels of consecutive
    counters, continuing from the stored counter when it was stored in
    year [Y] and from 0 otherwise; read back as numbers they increase by
    one from call to call.  A label is ["Q-"] followed by the decimal
    counter padded with zeros to three digits.  The call that finds
    nothing stored, or a stored year other than the one it observes, and
    the first call after a confirmed wipe issue Q-001. *)
Theorem queue_numbers_increase_until_reset
    (es : list Event) (s : Sys) (tr : list (nat * JSON)) (Y : Z) :
  issued coerce es s = Some tr ->
  Forall (fun e => e <> EWipeAll true) es ->
  (forall i id, In (i, id) tr -> year (clock (world s) i) = Y) ->
  - 2 ^ 53 <= counter_base Y (world s) ->
  counter_base Y (world s) + Z.of_nat (length tr) <= 2 ^ 53 ->
  let b := counter_base Y (world s) in
  map snd tr
  = map (fun i => JStr (lit "Q-" ++ padStart3 (String_of (b + Z.of_nat i + 1))))
      (seq 0 (length tr))
  /\ (0 <= b ->
        counters tr = map (fun i => Some (b + Z.of_nat i + 1)) (seq 0 (length tr))
        /\ increasing (counters tr))
  /\ (forall n, 0 <= n < 1000 -> length (queue_label n) = 5%nat)
  /\ (ls_seq (world s) = None -> fst (nextQueueNumber (world s)) = lit "Q-001")
  /\ (forall y n, ls_seq (world s) = Some (y, n) ->
        y <> year (clock (world s) (tick (world s))) ->
        fst (nextQueueNumber (world s)) = lit "Q-001")
  /\ fst (nextQueueNumber (world (wipeAll true s))) = lit "Q-001".
Proof.
  intros Hrun Hes HY _ _. cbv zeta.
  pose proof (issued_labels Y es s tr Hrun Hes HY) as Hl.
  split; [exact Hl|]. split; [|split; [|split; [|split]]].
  - intros Hb.
    assert (Hc : counters tr
                 = map (fun i => Some (counter_base Y (world s) + Z.of_nat i + 1))
                     (seq 0 (length tr))).
    { unfold counters.
      transitivity (map (fun j => match j with JStr l => counter_of l | _ => None end)
                      (map snd tr)); [now rewrite map_map|].
      rewrite Hl, map_map. apply map_ext. intros i. apply counter_of_label. lia. }
    split; [exact Hc|]. rewrite Hc. apply consecutive_increasing.
  - apply label_length_upto_999.
  - intros E. rewrite nextQueueNumber_eq. unfold counter_base. now rewrite E.
  - intros y n E Hy. rewrite nextQueueNumber_eq. unfold counter_base.
    rewrite E. apply Z.eqb_neq in Hy. now rewrite Hy.
  - rewrite nextQueueNumber_eq. reflexivity.
Qed.

End QueueInSession.


(** ** The total of a submitted order *)

Lemma addons_total_sum (h : Heap) (ls : list nat) :
  (addons_total h ls
   == Qsum (map (fun a => Addon.price a * inject_Z (Addon.qty a)) (deref h ls)))%Q.
Proof.
  unfold addons_total, deref.
  assert (G : forall a,
    (fold_left (fun a l => match h !! l with
                           | Some ad => a + Addon.price ad * inject_Z (Addon.qty ad)
                           | None => a
                           end) ls a
     == a + Qsum (map (fun a => Addon.price a * inject_Z (Addon.qty a))
                   (omap (fun l => h !! l) ls)))%Q).
  { induction ls as [|l ls IH]; intros a; simpl.
    - now rewrite Qplus_0_r.
    - rewrite IH. destruct (h !! l); simpl; [now rewrite Qplus_assoc|reflexivity]. }
  rewrite G. now rewrite Qplus_0_l.
Qed.

(** The memoised [subtotal] is the sum the specification describes, for
    the heap it was computed under. *)
Lemma subtotal_is_items_sum (c : Cart) (h : Heap) :
  (subtotal c h == items_sum h c)%Q.
Proof.
  unfold subtotal, items_sum.
  assert (G : forall a b, (a == b)%Q ->
    (fold_left
       (fun s i =>
          let base := CartItem.unitPrice i * inject_Z (CartItem.qty i) in
          let add := addons_total h
                       (match CartItem.addons i with Some l => l | None => [] end) in
          s + base + add) c a
     == b + Qsum (map (line_total h) c))%Q).
  { induction c as [|i c IH]; intros a b Hab; simpl.
    - now rewrite Qplus_0_r.
    - rewrite (IH _ (b + line_total h i)%Q).
      + now rewrite Qplus_assoc.
      + unfold line_total, locs, or_else. rewrite Hab, addons_total_sum.
        now rewrite Qplus_assoc. }
  rewrite (G 0%Q 0%Q) by reflexivity. now rewrite Qplus_0_l.
Qed.

Lemma toFixed2_proper (x y : Q) : (x == y)%Q -> toFixed2 x = toFixed2 y.
Proof.
  intros E. unfold toFixed2, round_half_up.
  assert (Hb : Qle_bool 0 x = Qle_bool 0 y).
  { destruct (Qle_bool 0 x) eqn:Ex, (Qle_bool 0 y) eqn:Ey; try reflexivity.
    - apply Qle_bool_iff in Ex. rewrite E in Ex. apply Qle_bool_iff in Ex. congruence.
    - apply Qle_bool_iff in Ey. rewrite <- E in Ey. apply Qle_bool_iff in Ey. congruence. }
  rewrite Hb.
  assert (H1 : Qfloor (x * 100 + (1 # 2)) = Qfloor (y * 100 + (1 # 2)))
    by (apply Qfloor_comp; now rewrite E).
  assert (H2 : Qfloor (- x * 100 + (1 # 2)) = Qfloor (- y * 100 + (1 # 2)))
    by (apply Qfloor_comp; now rewrite E).
  now rewrite H1, H2.
Qed.

(** When the timer runs under the heap the button was pressed under, the
    order's total is the rounded sum of the order's own line items. *)
Lemma total_matches_items_on_unchanged_heap (s : Sys) (c : Closure) (o : Order.t) :
  timers s = [] -> timers (submitOrder s) = [c] ->
  o = fst (new_order c (heap s) (world s)) ->
  Order.items o = JArr (map (item_json (heap s)) (c_cart c))
  /\ Order.total o = Fin (toFixed2 (items_sum (heap s) (c_cart c))).
Proof.
  intros Ht Hc ->. rewrite new_order_eq. cbn [Order.items Order.total].
  split; [reflexivity|]. f_equal. apply toFixed2_proper.
  unfold submitOrder in Hc. rewrite Ht in Hc.
  destruct (cart (ui s)) as [|p r] eqn:Ec; [now rewrite Ht in Hc|].
  destruct (trim (pickupName (ui s))); cbn [timers app] in Hc; [easy|].
  injection Hc as <-. cbn [c_subtotal c_cart]. apply subtotal_is_items_sum.
Qed.

(** C5, at the session [cheese_while_placing].  The order is placed with
    the total 8.00 computed when the button was pressed, while its line
    items, serialised when the timer ran, carry the cheese quantity 2 that
    the in-place [ex.qty += 1] wrote meanwhile into the add-on object the
    captured cart shares: their sum is 10. *)
Theorem total_stale_when_cheese_added_while_placing :
  exists s o,
    run no_coercion cheese_while_placing (mount no_coercion [] fresh_world) = Some s
    /\ placed (ui s) = Some o
    /\ ls_orders (world s) = stored [o]
    /\ Order.items o = JArr (map (item_json (heap s)) two_drinks_one_cheese)
    /\ Order.total o = Fin (800 # 100)
    /\ heap s = [Addon.mk CHEESE_id CHEESE_name CHEESE_price 2]
    /\ (items_sum (heap s) two_drinks_one_cheese == 10)%Q
    /\ ~ (toFixed2 (items_sum (heap s) two_drinks_one_cheese) == 800 # 100)%Q.
Proof.
  eexists. eexists. split; [vm_compute; reflexivity|].
  cbn [placed ui]. split; [reflexivity|].
  split; [reflexivity|]. split; [reflexivity|]. split; [reflexivity|].
  split; [reflexivity|]. split; [reflexivity|]. vm_compute. discriminate.
Qed.

(** ** Instances *)

Lemma sample_well_formed (st : Status) (e : Q) :
  ~ (e == 0)%Q -> well_formed (sample_order st (Some (Fin e))).
Proof. intros He. unfold well_formed. cbn. repeat split; try easy. Qed.

Lemma sample_well_formed_open (st : Status) : well_formed (sample_order st None).
Proof. unfold well_formed. cbn. repeat split; easy. Qed.

(** C1 fails as stated: the board offers Ready on a Done order, and
    pressing it leaves the order stored with status Ready. *)
Lemma done_order_is_moved_to_ready :
  let o := sample_order Done None in
  In Ready (board_buttons (Order.status o))
  /\ ls_orders (world (press no_coercion o Ready (session [o])))
     = stored [sample_order Ready None]
  /\ fst (getAllOrders no_coercion (world (press no_coercion o Ready (session [o]))))
     = [sample_order Ready None].
Proof. cbv zeta. split; [simpl; tauto|]. split; reflexivity. Qed.

Lemma status_update_witness :
  let o := sample_order Cancelled None in
  Forall well_formed [o]
  /\ ls_orders (world (session [o])) = stored [o]
  /\ ls_orders (world (updateOrder no_coercion (JStr (lit "Q-001"))
                         (Patch.of_status Done) (session [o])))
     = stored [sample_order Done None].
Proof.
  cbv zeta.
  assert (Hwf : Forall well_formed [sample_order Cancelled None])
    by (constructor; [apply sample_well_formed_open|constructor]).
  split; [exact Hwf|]. split; [reflexivity|].
  exact (proj1 (status_update_is_unconditional no_coercion
                  (session [sample_order Cancelled None])
                  [sample_order Cancelled None]
                  (JStr (lit "Q-001")) Done Hwf eq_refl)).
Defined.

(** C2 fails as stated: with a clock that advances by one millisecond per
    reading, the order has createdAt 1 and expiresAt 600002. *)
Lemma expiresAt_misses_createdAt_when_clock_ticks :
  let o := fst (new_order sample_closure [] fresh_world) in
  Order.createdAt o = Fin 1
  /\ Order.expiresAt o = Some (Fin 600002)
  /\ ~ expires_after_created o 600000.
Proof.
  cbv zeta. split; [reflexivity|]. split; [reflexivity|].
  vm_compute. discriminate.
Qed.

Lemma expiresAt_witness :
  let w := mkWorld NoText None still_clock 0 in
  let o := fst (new_order sample_closure [] w) in
  ms (still_clock 2) = ms (still_clock 1)
  /\ Order.createdAt o = Fin 5
  /\ Order.expiresAt o = Some (Fin 600005)
  /\ expires_after_created o 600000.
Proof.
  cbv zeta. split; [reflexivity|].
  pose proof (expiresAt_is_its_own_reading_plus_window sample_closure []
                (mkWorld NoText None still_clock 0)) as (H1 & H2 & H3).
  split; [exact H1|]. split; [exact H2|]. apply H3. reflexivity.
Defined.

Lemma drink_cheese_witness :
  exists c h,
    run_drink_ops sample_drink_ops ([], []) = Some (c, h)
    /\ cheese_capped c h.
Proof.
  eexists. eexists. split; [vm_compute; reflexivity|].
  apply (drink_cheese_never_exceeds_qty sample_drink_ops []).
  vm_compute. reflexivity.
Defined.


Lemma sweep_witness :
  let o := sample_order New (Some (Fin (-1))) in
  let s := session [o; sample_order Paid (Some (Fin (-1)))] in
  Forall well_formed [o; sample_order Paid (Some (Fin (-1)))]
  /\ ls_orders (world (sweep no_coercion s))
     = stored [Order.with_status o Cancelled; sample_order Paid (Some (Fin (-1)))].
Proof.
  cbv zeta.
  assert (Hwf : Forall well_formed
                  [sample_order New (Some (Fin (-1)));
                   sample_order Paid (Some (Fin (-1)))])
    by (repeat constructor; apply sample_well_formed; easy).
  split; [exact Hwf|].
  exact (proj1 (sweep_cancels_overdue_once no_coercion
                  (session [sample_order New (Some (Fin (-1)));
                            sample_order Paid (Some (Fin (-1)))])
                  _ Hwf eq_refl)).
Defined.

Lemma rejected_submission_witness :
  let s := with_ui (set_pickupName [32; 160; 9]%N
                      (set_cart two_drinks_one_cheese (ui (session []))))
             (session []) in
  Forall (fun c => is_ws c = true) (pickupName (ui s))
  /\ timers (submitOrder s) = timers s
  /\ world (submitOrder s) = world s.
Proof.
  cbv zeta.
  assert (H : Forall (fun c => is_ws c = true) [32; 160; 9]%N)
    by (repeat constructor).
  split; [exact H|].
  pose proof (rejected_submission_changes_nothing
                (with_ui (set_pickupName [32; 160; 9]%N
                            (set_cart two_drinks_one_cheese (ui (session []))))
                   (session []))
                (or_intror H)) as (H1 & H2 & _).
  split; [exact H1|exact H2].
Defined.

Lemma one_line_per_sku_witness :
  Forall known sample_adds
  /\ exists c, run_adds sample_adds [] = Some c
       /\ List.NoDup (map CartItem.sku c)
       /\ (forall s, In s (map CartItem.sku c) <-> In s (map target sample_adds))
       /\ (forall p, In p c -> CartItem.qty p = calls_for (CartItem.sku p) sample_adds).
Proof.
  assert (H : Forall known sample_adds) by (repeat constructor).
  split; [exact H|]. exact (one_line_per_sku_with_call_count sample_adds H).
Defined.

Lemma dec_witness :
  let line := CartItem.mk hojicha [] (lit "Hojicha (Drink)") 3 1 (Some []) in
  dec hojicha [line] = [] /\ dec (lit "souffle-van") [line] = [line].
Proof.
  cbv zeta.
  pose proof (dec_removes_last_unit_and_skips_absent hojicha
                [CartItem.mk hojicha [] (lit "Hojicha (Drink)") 3 1 (Some [])])
    as [H1 _].
  pose proof (dec_removes_last_unit_and_skips_absent (lit "souffle-van")
                [CartItem.mk hojicha [] (lit "Hojicha (Drink)") 3 1 (Some [])])
    as [_ H2].
  split.
  - now destruct (H1 _ eq_refl eq_refl) as [-> _].
  - apply H2. simpl. intros [H|[]]. discriminate.
Defined.

(** C9 fails as stated: three orders placed in 2025, the staff wiping the
    board before the third, are numbered Q-001, Q-002 and Q-001 again. *)
Lemma wipe_restarts_numbers_within_the_year :
  exists tr,
    issued no_coercion wiped_before_third (mount no_coercion [] world_2025)
    = Some tr
    /\ (forall i, year (clock world_2025 i) = 2025)
    /\ map snd tr = [JStr (lit "Q-001"); JStr (lit "Q-002"); JStr (lit "Q-001")]
    /\ counters tr = [Some 1; Some 2; Some 1]
    /\ ~ increasing (counters tr).
Proof.
  eexists. split; [vm_compute; reflexivity|].
  split; [reflexivity|]. split; [reflexivity|]. split; [reflexivity|].
  intros H. specialize (H 1%nat 2%nat 2 1). simpl in H.
  assert (2 < 1) by (apply H; [lia|reflexivity|reflexivity]). lia.
Qed.

Lemma queue_numbers_witness :
  exists tr,
    issued no_coercion two_orders (mount no_coercion [] world_2025) = Some tr
    /\ map snd tr = [JStr (lit "Q-001"); JStr (lit "Q-002")]
    /\ counters tr = [Some 1; Some 2]
    /\ increasing (counters tr).
Proof.
  eexists. split; [vm_compute; reflexivity|].
  destruct (queue_numbers_increase_until_reset no_coercion two_orders
              (mount no_coercion [] world_2025) _ 2025 eq_refl)
    as (H1 & H2 & _).
  - repeat constructor; discriminate.
  - intros i id _. reflexivity.
  - vm_compute. discriminate.
  - vm_compute. discriminate.
  - split; [exact H1|]. apply H2. vm_compute. discriminate.
Defined.



(** * Further properties of the code *)

(** ** The order store *)

Section StoreBehaviour.

Variable coerce : JSON -> num.

(** X1.  [getAllOrders] answers the empty list, rather than failing, when
    nothing is stored, when the stored text is not JSON, when the document
    is not an array, and when the array has a [null] element anywhere: one
    such element hides every order of the collection. *)
Theorem getAllOrders_degrades_to_empty (w : World) :
  ls_orders w = NoText
  \/ ls_orders w = BadText
  \/ (exists j, ls_orders w = Doc j /\ forall arr, j <> JArr arr)
  \/ (exists arr, ls_orders w = Doc (JArr arr) /\ In JNull arr) ->
  fst (getAllOrders coerce w) = [].
Proof.
  unfold getAllOrders, bind, get_orders_text.
  intros [E|[E|[(j & E & Hj)|(arr & E & Hin)]]]; rewrite E; try reflexivity.
  - destruct j; try reflexivity. now destruct (Hj l).
  - pose proof (normalize_all_null coerce arr Hin w) as H.
    destruct (normalize_all coerce arr w) as [r w1]. simpl in H. now subst r.
Qed.

(** X2.  Reading never writes: [getAllOrders] leaves both localStorage
    keys as they are and does nothing but consult the clock, at most once
    per stored element (for the elements without a createdAt). *)
Theorem getAllOrders_only_reads (w : World) :
  exists k,
    snd (getAllOrders coerce w)
    = mkWorld (ls_orders w) (ls_seq w) (clock w) (tick w + k)
    /\ forall arr, ls_orders w = Doc (JArr arr) -> (k <= length arr)%nat.
Proof.
  unfold getAllOrders, bind, get_orders_text.
  assert (H0 : (w, 0%nat) = (mkWorld (ls_orders w) (ls_seq w) (clock w) (tick w + 0), 0%nat))
    by (rewrite Nat.add_0_r; now destruct w).
  destruct (ls_orders w) as [| |j] eqn:E;
    try (exists 0%nat; split; [now injection H0|intros; lia]).
  destruct j; try (exists 0%nat; split; [now injection H0|intros; lia]).
  destruct (normalize_all_world coerce l w) as (k & Hk & Ew).
  destruct (normalize_all coerce l w) as [r w1]. cbn [snd] in *.
  exists k. split; [now rewrite Ew, E|]. intros arr [= <-]. exact Hk.
Qed.

(** X3.  What [saveAllOrders] writes for well-formed orders is what
    [getAllOrders] reads next: the same orders in the same order, without
    a look at the clock. *)
Theorem saved_orders_read_back (os : list Order.t) (w : World) :
  Forall well_formed os ->
  getAllOrders coerce (snd (saveAllOrders os w))
  = (os, snd (saveAllOrders os w)).
Proof. intros Hwf. now apply getAllOrders_stored. Qed.

(** X4.  [deleteOrder] over a well-formed store leaves exactly the orders
    whose id differs from the given one, in their order; none with that id
    remains, and deleting again changes nothing. *)
Theorem deleteOrder_removes_every_match (s : Sys) (os : list Order.t) (id : JSON) :
  Forall well_formed os -> ls_orders (world s) = stored os ->
  let s' := deleteOrder coerce id s in
  let kept := List.filter (fun o => negb (strict_eq (Order.id o) id)) os in
  ls_orders (world s') = stored kept
  /\ orders (ui s') = kept
  /\ (forall o, In o kept <-> In o os /\ strict_eq (Order.id o) id = false)
  /\ ls_orders (world (deleteOrder coerce id s')) = ls_orders (world s').
Proof.
  intros Hwf Hs. cbv zeta.
  assert (E : forall s0 os0, Forall well_formed os0 ->
            ls_orders (world s0) = stored os0 ->
            deleteOrder coerce id s0
            = mkSys (set_orders
                       (List.filter (fun o => negb (strict_eq (Order.id o) id)) os0)
                       (ui s0)) (heap s0)
                (mkWorld
                   (stored (List.filter
                              (fun o => negb (strict_eq (Order.id o) id)) os0))
                   (ls_seq (world s0)) (clock (world s0)) (tick (world s0)))
                (timers s0) (alerts s0)).
  { intros s0 os0 H0 E0. unfold deleteOrder.
    now rewrite (getAllOrders_stored coerce os0 _ H0 E0). }
  rewrite (E s os Hwf Hs). cbn [world ui ls_orders orders set_orders].
  split; [reflexivity|]. split; [reflexivity|]. split.
  - intros o. rewrite filter_In, negb_true_iff. tauto.
  - set (kept := List.filter _ os).
    assert (Hk : Forall well_formed kept).
    { rewrite Forall_forall in *. intros o Ho. apply Hwf.
      apply list_elem_of_In in Ho. apply filter_In in Ho as [Ho _].
      now apply list_elem_of_In. }
    rewrite (E _ kept Hk) by reflexivity. cbn [world ls_orders].
    apply (f_equal stored). unfold kept. clear. induction os as [|o os IH]; [reflexivity|].
    cbn [List.filter]. destruct (strict_eq (Order.id o) id) eqn:Eo; cbn [negb].
    + exact IH.
    + cbn [List.filter]. rewrite Eo. cbn [negb]. now rewrite IH.
Qed.

(** X5.  An update or a deletion for an id that no stored order has is
    silently ignored: the collection is written back as it was. *)
Theorem unknown_id_is_ignored
    (s : Sys) (os : list Order.t) (id : JSON) (patch : Patch.t) :
  Forall well_formed os -> ls_orders (world s) = stored os ->
  (forall o, In o os -> strict_eq (Order.id o) id = false) ->
  ls_orders (world (updateOrder coerce id patch s)) = stored os
  /\ ls_orders (world (deleteOrder coerce id s)) = stored os
  /\ orders (ui (updateOrder coerce id patch s)) = os
  /\ orders (ui (deleteOrder coerce id s)) = os.
Proof.
  intros Hwf Hs Hid. unfold updateOrder, deleteOrder.
  rewrite (getAllOrders_stored coerce os _ Hwf Hs).
  unfold saveAllOrders, set_orders_text.
  cbn [world ui ls_orders orders set_orders].
  assert (E1 : map (fun o => if strict_eq (Order.id o) id then merge o patch else o) os = os).
  { clear Hwf Hs. induction os as [|o os IH]; [reflexivity|]. cbn [map].
    rewrite (Hid o) by now left. f_equal. apply IH. intros o' Ho'.
    apply Hid. now right. }
  assert (E2 : List.filter (fun o => negb (strict_eq (Order.id o) id)) os = os).
  { clear Hwf Hs E1. induction os as [|o os IH]; [reflexivity|].
    cbn [List.filter]. rewrite (Hid o) by now left. cbn [negb]. f_equal.
    apply IH. intros o' Ho'. apply Hid. now right. }
  now rewrite E1, E2.
Qed.

(** X6.  A confirmed [wipeAll] leaves an empty collection and no queue
    sequence, so that the next queue number issued is Q-001 whatever the
    year and whatever was issued before; a declined one changes nothing. *)
Theorem wipeAll_restarts_the_queue (s : Sys) :
  let s' := wipeAll true s in
  ls_orders (world s') = stored []
  /\ orders (ui s') = []
  /\ fst (getAllOrders coerce (world s')) = []
  /\ fst (nextQueueNumber (world s')) = lit "Q-001"
  /\ cart (ui s') = cart (ui s)
  /\ wipeAll false s = s.
Proof.
  cbv zeta. split; [reflexivity|]. split; [reflexivity|].
  split; [reflexivity|]. split; [|split; reflexivity].
  now rewrite nextQueueNumber_eq.
Qed.

End StoreBehaviour.

(** ** Submission and placement *)

Lemma trimStart_keeps (s : jstring) :
  Exists (fun c => is_ws c = false) s ->
  Exists (fun c => is_ws c = false) (trimStart s).
Proof.
  induction 1 as [c s Hc|c s _ IH]; cbn [trimStart].
  - rewrite Hc. now constructor.
  - destruct (is_ws c) eqn:E; [exact IH|]. now constructor.
Qed.

Lemma trimStart_head (s : jstring) c r :
  trimStart s = c :: r -> is_ws c = false.
Proof.
  induction s as [|x s IH]; cbn [trimStart]; [easy|].
  destruct (is_ws x) eqn:E; [exact IH|]. now intros [= <- _].
Qed.

Lemma trimStart_snoc (l : jstring) (c : N) :
  is_ws c = false -> exists u, trimStart (l ++ [c]) = u ++ [c].
Proof.
  intros Hc. induction l as [|x l IH]; cbn [app trimStart].
  - rewrite Hc. now exists [].
  - destruct (is_ws x); [exact IH|]. now exists (x :: l).
Qed.

(** A trimmed string is empty or has no white space at either end, and a
    string with a character that is not white space does not trim to the
    empty string. *)
Lemma trim_ends (s : jstring) :
  trim s = []
  \/ exists c u d, trim s = c :: u /\ is_ws c = false
                   /\ List.last (trim s) d = d /\ is_ws d = false.
Proof.
  unfold trim. destruct (trimStart s) as [|c r] eqn:E; [now left|].
  pose proof (trimStart_head s c r E) as Hc.
  cbn [rev]. destruct (trimStart_snoc (rev r) c Hc) as (u & Eu). rewrite Eu.
  rewrite rev_app_distr. cbn [rev app]. right.
  destruct (trimStart_snoc (rev r) c Hc) as (u' & Eu').
  destruct u as [|y u].
  - exists c, [], c. cbn. tauto.
  - pose proof (trimStart_head (rev r ++ [c]) y (u ++ [c]) Eu) as Hy.
    exists c, (rev (y :: u)), y. split; [reflexivity|]. split; [exact Hc|].
    split; [|exact Hy].
    cbn [rev]. rewrite app_comm_cons, last_last. reflexivity.
Qed.

Lemma trim_not_blank (s : jstring) :
  Exists (fun c => is_ws c = false) s -> trim s <> [].
Proof.
  intros H. unfold trim. apply trimStart_keeps in H.
  assert (H' : Exists (fun c => is_ws c = false) (rev (trimStart s))).
  { apply Exists_exists in H as (c & Hin & Hc). apply Exists_exists.
    exists c. split; [|exact Hc]. apply list_elem_of_In, in_rev.
    rewrite rev_involutive. now apply list_elem_of_In. }
  apply trimStart_keeps in H'. intros E.
  apply (f_equal (@rev N)) in E. rewrite rev_involutive in E. cbn in E.
  rewrite E in H'. inversion H'.
Qed.

Lemma accepted_submission_eq (s : Sys) :
  cart (ui s) <> [] ->
  Exists (fun c => is_ws c = false) (pickupName (ui s)) ->
  submitOrder s
  = mkSys (set_placing true (ui s)) (heap s) (world s)
      (timers s ++ [ mkClosure (cart (ui s)) (subtotal (cart (ui s)) (heap s))
                       (note (ui s)) (pickupName (ui s)) (phone (ui s))
                       (marketing (ui s)) ])
      (alerts s).
Proof.
  intros Hc Hn. apply trim_not_blank in Hn. unfold submitOrder.
  destruct (cart (ui s)) as [|p r] eqn:Ec; [easy|].
  now destruct (trim (pickupName (ui s))).
Qed.

(** X7.  With a cart that is not empty and a pickup name holding at least
    one character that is not white space, [submitOrder] is accepted: it
    sets the placing flag, shows no alert, writes nothing, and schedules
    exactly one order creation, which captures the cart, its subtotal and
    the form as they are at the press. *)
Theorem accepted_submission_schedules_one_order (s : Sys) :
  cart (ui s) <> [] ->
  Exists (fun c => is_ws c = false) (pickupName (ui s)) ->
  timers (submitOrder s)
  = timers s ++ [ mkClosure (cart (ui s)) (subtotal (cart (ui s)) (heap s))
                    (note (ui s)) (pickupName (ui s)) (phone (ui s))
                    (marketing (ui s)) ]
  /\ placing (ui (submitOrder s)) = true
  /\ cart (ui (submitOrder s)) = cart (ui s)
  /\ alerts (submitOrder s) = alerts s
  /\ world (submitOrder s) = world s.
Proof.
  intros Hc Hn. rewrite (accepted_submission_eq s Hc Hn).
  repeat (split; [reflexivity|]). reflexivity.
Qed.

(** X8.  The order built for an accepted submission is New, is identified
    by a queue label, and carries the form: the pickup name trimmed (so
    not empty and without white space at either end), the note unless it
    is empty, the phone trimmed unless that leaves nothing, and the
    marketing choice. *)
Theorem placed_order_carries_the_form (c : Closure) (h : Heap) (w : World) :
  Exists (fun x => is_ws x = false) (c_pickupName c) ->
  let o := fst (new_order c h w) in
  Order.status o = New
  /\ (exists n, Order.id o = JStr (queue_label n))
  /\ (exists x u d, Order.pickupName o = JStr (x :: u)
        /\ x :: u = trim (c_pickupName c)
        /\ is_ws x = false /\ List.last (x :: u) d = d /\ is_ws d = false)
  /\ (c_note c = [] -> Order.note o = None)
  /\ (c_note c <> [] -> Order.note o = Some (JStr (c_note c)))
  /\ (trim (c_phone c) = [] -> Order.phone o = None)
  /\ (trim (c_phone c) <> [] -> Order.phone o = Some (JStr (trim (c_phone c))))
  /\ Order.marketingOptIn o = c_marketing c.
Proof.
  intros Hn. cbv zeta. rewrite new_order_eq.
  cbn [Order.status Order.id Order.pickupName Order.note Order.phone
       Order.marketingOptIn].
  split; [reflexivity|]. split; [eauto|]. split.
  - destruct (trim_ends (c_pickupName c)) as [E|(x & u & d & E & Hx & Hl & Hd)].
    + now apply trim_not_blank in Hn.
    + exists x, u, d. rewrite E in *. tauto.
  - split; [now intros ->|]. split; [now destruct (c_note c)|].
    split; [now intros ->|]. split; [now destruct (trim (c_phone c))|reflexivity].
Qed.

Section Placement.

Variable coerce : JSON -> num.

Lemma place_order (c : Closure) (h : Heap) (w : World) :
  fst (fst (place coerce c h w)) = fst (new_order c h w).
Proof.
  unfold place. unfold bind at 1. destruct (new_order c h w) as [o w1].
  unfold bind at 1. destruct (getAllOrders coerce w1) as [old w2].
  reflexivity.
Qed.

(** X9.  When the timer runs, the new order is written in front of the
    stored collection and the collection is cut to its first 300 orders,
    so the oldest is dropped once 300 are stored; the same list becomes
    the component's orders, the order is the one shown as placed, and the
    cart, the form and the placing flag are reset. *)
Theorem timer_puts_order_first_and_caps
    (s : Sys) (c : Closure) (rest : list Closure) (os : list Order.t) :
  timers s = c :: rest ->
  (ls_orders (world s) = NoText /\ os = [])
  \/ (ls_orders (world s) = stored os /\ Forall well_formed os) ->
  let s' := fire coerce s in
  let o := fst (new_order c (heap s) (world s)) in
  ls_orders (world s') = stored (take 300 (o :: os))
  /\ orders (ui s') = take 300 (o :: os)
  /\ placed (ui s') = Some o
  /\ timers s' = rest
  /\ cart (ui s') = [] /\ pickupName (ui s') = [] /\ note (ui s') = []
  /\ phone (ui s') = [] /\ marketing (ui s') = true /\ placing (ui s') = false
  /\ (length (take 300 (o :: os)) <= 300)%nat
  /\ ((length os < 300)%nat -> take 300 (o :: os) = o :: os)
  /\ ((300 <= length os)%nat -> take 300 (o :: os) = o :: take 299 os).
Proof.
  intros Ht Hs. cbv zeta. unfold fire. rewrite Ht.
  assert (E : getAllOrders coerce (snd (new_order c (heap s) (world s)))
              = (os, snd (new_order c (heap s) (world s)))).
  { rewrite new_order_world. destruct Hs as [[E ->]|[E Hwf]].
    - unfold getAllOrders, bind, get_orders_text. cbn [ls_orders]. now rewrite E.
    - now apply getAllOrders_stored. }
  rewrite (place_eq coerce c (heap s) (world s) os E).
  cbn [world ui ls_orders orders placed timers cart pickupName note phone
       marketing placing].
  repeat (split; [reflexivity|]).
  split; [rewrite length_take; lia|]. split.
  - intros Hl. apply take_ge. simpl. lia.
  - intros _. reflexivity.
Qed.

(** X10.  When nothing happens between the press of the button and the
    timer, the placed order's line items are the cart's lines as they
    were at the press and its total is their sum (unit price times
    quantity plus the add-ons' price times quantity) rounded to two
    decimals. *)
Theorem undisturbed_order_totals_its_items (s : Sys) :
  timers s = [] -> cart (ui s) <> [] ->
  Exists (fun c => is_ws c = false) (pickupName (ui s)) ->
  exists o,
    placed (ui (fire coerce (submitOrder s))) = Some o
    /\ Order.items o = JArr (map (item_json (heap s)) (cart (ui s)))
    /\ Order.total o = Fin (toFixed2 (items_sum (heap s) (cart (ui s)))).
Proof.
  intros Ht Hc Hn.
  rewrite (accepted_submission_eq s Hc Hn).
  unfold fire. cbn [timers heap world]. rewrite Ht. cbn [app].
  set (c := mkClosure _ _ _ _ _ _).
  pose proof (place_order c (heap s) (world s)) as Ep.
  destruct (place coerce c (heap s) (world s)) as [[o next] w1].
  cbn [fst] in Ep. subst o.
  eexists. split; [reflexivity|]. rewrite new_order_eq.
  cbn [Order.items Order.total]. split; [reflexivity|].
  f_equal. apply toFixed2_proper. apply subtotal_is_items_sum.
Qed.

End Placement.

(** ** The cart in a session *)

Lemma bump_absent (k : jstring) (d : Z) (c : Cart) :
  ~ In k (map CartItem.sku c) -> bump k d c = c.
Proof.
  unfold bump. induction c as [|p c IH]; [reflexivity|]. cbn [map].
  intros H. unfold has_sku at 1.
  destruct (str_eqb (CartItem.sku p) k) eqn:E.
  - apply str_eqb_eq in E. exfalso. apply H. now left.
  - f_equal. apply IH. intros Hin. apply H. now right.
Qed.

Lemma bump_tidy (k : jstring) (c : Cart) : tidy c -> tidy (bump k 1 c).
Proof.
  intros [Hnd Hq]. split; [now rewrite bump_skus|].
  unfold bump. apply Forall_map. apply (Forall_impl _ _ _ Hq).
  intros p Hp. destruct (has_sku k p); simpl; lia.
Qed.

Lemma add_line_tidy (k : jstring) (item : CartItem.t) (c : Cart) :
  CartItem.sku item = k -> CartItem.qty item = 1 -> tidy c ->
  tidy (add_line k item c).
Proof.
  intros Hk Hq [Hnd Hall]. split.
  - now apply add_line_spec.
  - unfold add_line. destruct (find (has_sku k) c).
    + now apply bump_tidy.
    + apply Forall_app. split; [exact Hall|]. constructor; [lia|constructor].
Qed.

Lemma addDrink_tidy (id : jstring) (c c' : Cart) :
  tidy c -> addDrink id c = Some c' -> tidy c'.
Proof.
  intros Ht. unfold addDrink.
  destruct (find (fun x => str_eqb (Drink.id x) id) DRINKS) as [d|]; [|easy].
  intros [= <-]. now apply (add_line_tidy (Drink.id d)).
Qed.

Lemma only_line (c : Cart) (x p : CartItem.t) :
  List.NoDup (map CartItem.sku c) ->
  find (has_sku (CartItem.sku x)) c = Some x -> In p c ->
  has_sku (CartItem.sku x) p = true -> p = x.
Proof.
  intros Hnd Hx Hp Hs. apply str_eqb_eq in Hs.
  rewrite <- Hs in Hx. rewrite (find_the_line c p Hnd Hp) in Hx. congruence.
Qed.

Lemma dec_tidy (k : jstring) (c : Cart) : tidy c -> tidy (dec k c).
Proof.
  intros [Hnd Hq]. unfold dec.
  destruct (find (has_sku k) c) as [x|] eqn:Ex; [|now split].
  pose proof (find_sku_some k c x Ex) as [Hxin Hxk]. subst k.
  destruct (CartItem.qty x <=? 1) eqn:E.
  - split.
    + clear Ex Hq Hxin E. induction c as [|p c IH]; [constructor|].
      cbn [List.filter map] in *. inversion Hnd as [|? ? Hp Hc]; subst.
      destruct (negb (has_sku (CartItem.sku x) p)); [|now apply IH].
      cbn [map]. constructor; [|now apply IH].
      intros Hin. apply Hp. apply in_map_iff in Hin as (q & Hq & Hin).
      apply filter_In in Hin as [Hin _]. apply in_map_iff. now exists q.
    + rewrite Forall_forall in *. intros p Hp. apply Hq.
      apply list_elem_of_In in Hp. apply filter_In in Hp as [Hp _].
      now apply list_elem_of_In.
  - apply Z.leb_gt in E. split; [now rewrite bump_skus|].
    unfold bump. rewrite Forall_forall in *. intros p' Hp'.
    apply list_elem_of_In, in_map_iff in Hp' as (p & <- & Hp).
    destruct (has_sku (CartItem.sku x) p) eqn:Es.
    + rewrite (only_line c x p Hnd Ex Hp Es). simpl. lia.
    + apply Hq. now apply list_elem_of_In.
Qed.

Lemma map_heap_lines f (c : Cart) (h : Heap) :
  (forall p h, CartItem.sku (fst (f p h)) = CartItem.sku p
               /\ CartItem.qty (fst (f p h)) = CartItem.qty p) ->
  map CartItem.sku (fst (map_heap f c h)) = map CartItem.sku c
  /\ map CartItem.qty (fst (map_heap f c h)) = map CartItem.qty c.
Proof.
  intros Hf. revert h. induction c as [|p c IH]; intros h; [now split|].
  cbn [map_heap]. destruct (Hf p h) as [H1 H2].
  destruct (f p h) as [p' h1]. destruct (IH h1) as [I1 I2].
  destruct (map_heap f c h1) as [c' h2]. cbn [fst map] in *.
  now rewrite H1, H2, I1, I2.
Qed.

Lemma cheese_items_keep_line (sku : jstring) (p : CartItem.t) (h : Heap) :
  (CartItem.sku (fst (cheese_souffle_item sku p h)) = CartItem.sku p
   /\ CartItem.qty (fst (cheese_souffle_item sku p h)) = CartItem.qty p)
  /\ (CartItem.sku (fst (cheese_drink_item sku p h)) = CartItem.sku p
      /\ CartItem.qty (fst (cheese_drink_item sku p h)) = CartItem.qty p).
Proof.
  unfold cheese_souffle_item, cheese_drink_item.
  destruct (negb (has_sku sku p)); [now repeat split|].
  destruct (find_addon h CHEESE_id _) as [[l ex]|]; now repeat split.
Qed.

Lemma tidy_by_lines (c c' : Cart) :
  map CartItem.sku c' = map CartItem.sku c ->
  map CartItem.qty c' = map CartItem.qty c ->
  tidy c -> tidy c'.
Proof.
  intros Hs Hq [Hnd Hall]. split; [now rewrite Hs|].
  apply List.Forall_forall. intros p Hp.
  assert (Hin : In (CartItem.qty p) (map CartItem.qty c)).
  { rewrite <- Hq. now apply in_map. }
  apply in_map_iff in Hin as (p0 & E & Hp0). rewrite <- E.
  rewrite List.Forall_forall in Hall. now apply Hall.
Qed.

Section CartInSession.

Variable coerce : JSON -> num.

Lemma step_tidy (e : Event) (s s' : Sys) :
  tidy (cart (ui s)) -> step coerce e s = Some s' -> tidy (cart (ui s')).
Proof.
  intros Ht. destruct e; cbn [step]; try (intros [= <-]; exact Ht).
  - intros [= <-]. now apply (add_line_tidy (flavor_sku f)).
  - destruct (addDrink id (cart (ui s))) as [c|] eqn:E; [|easy].
    intros [= <-]. now apply (addDrink_tidy id (cart (ui s))).
  - intros [= <-]. unfold update_cart, addCheeseToSouffle.
    destruct (map_heap_lines (cheese_souffle_item sku) (cart (ui s)) (heap s))
      as [H1 H2]; [intros p h; apply cheese_items_keep_line|].
    destruct (map_heap _ (cart (ui s)) (heap s)) as [c h].
    now apply (tidy_by_lines (cart (ui s))).
  - intros [= <-]. unfold update_cart, addCheeseToDrink.
    destruct (map_heap_lines (cheese_drink_item sku) (cart (ui s)) (heap s))
      as [H1 H2]; [intros p h; apply cheese_items_keep_line|].
    destruct (map_heap _ (cart (ui s)) (heap s)) as [c h].
    now apply (tidy_by_lines (cart (ui s))).
  - intros [= <-]. now apply bump_tidy.
  - intros [= <-]. now apply dec_tidy.
  - intros [= <-]. split; constructor.
  - intros [= <-]. unfold submitOrder. destruct (cart (ui s)) eqn:E; [now rewrite E|].
    destruct (trim (pickupName (ui s))); cbn [ui cart set_placing]; now rewrite E.
  - intros [= <-]. unfold fire. destruct (timers s); [exact Ht|].
    destruct (place coerce _ _ _) as [[o next] w]. split; constructor.
  - intros [= <-]. unfold sweep.
    destruct (Date_now (world s)) as [now w1].
    destruct (getAllOrders coerce w1) as [cur w2].
    destruct (existsb _ cur); [|exact Ht].
    now destruct (saveAllOrders _ w2).
  - intros [= <-]. unfold updateOrder.
    destruct (getAllOrders coerce (world s)) as [cur w1].
    now destruct (saveAllOrders _ w1).
  - intros [= <-]. unfold deleteOrder.
    destruct (getAllOrders coerce (world s)) as [cur w1].
    now destruct (saveAllOrders _ w1).
  - intros [= <-]. now destruct confirmed.
Qed.

(** X11.  Whatever is done in a session after mount (adding, cheese,
    plus and minus, clearing, submitting, the timer, the sweep, the staff
    callbacks), the cart holds at most one line per sku and no line with a
    quantity below 1: a line that would reach 0 is removed. *)
Theorem session_cart_stays_tidy (es : list Event) (h : Heap) (w : World) (s : Sys) :
  run coerce es (mount coerce h w) = Some s -> tidy (cart (ui s)).
Proof.
  assert (G : forall s0 s1, tidy (cart (ui s0)) ->
                run coerce es s0 = Some s1 -> tidy (cart (ui s1))).
  { induction es as [|e es IH]; intros s0 s1 Ht; cbn [run].
    - now intros [= <-].
    - destruct (step coerce e s0) as [s2|] eqn:E; [|easy].
      apply IH. now apply (step_tidy e s0). }
  apply G. unfold mount. destruct (getAllOrders coerce w). split; constructor.
Qed.

End CartInSession.

(** ** Plus, minus, the badge and the subtotal *)

Lemma with_qty_back (p : CartItem.t) (a : Z) :
  CartItem.with_qty (CartItem.with_qty p a) (CartItem.qty p) = p.
Proof. now destruct p. Qed.

Lemma bump_bump_back (k : jstring) (d : Z) (c : Cart) :
  bump k (- d) (bump k d c) = c.
Proof.
  unfold bump. rewrite map_map. rewrite <- (map_id c) at 2.
  apply map_ext. intros p. destruct (has_sku k p) eqn:E.
  - replace (has_sku k (CartItem.with_qty p (CartItem.qty p + d))) with true.
    cbn [CartItem.with_qty CartItem.qty].
    replace (CartItem.qty p + d + - d) with (CartItem.qty p) by lia.
    apply with_qty_back.
  - now rewrite E.
Qed.

(** X12.  Minus undoes plus: [dec] after [inc] gives the cart back
    whenever the first line with the sku has a quantity of at least 1, and
    also when there is no such line (both do nothing).  Plus does not undo
    minus on a line of quantity 1: the line is gone and [inc] does not
    bring it back. *)
Theorem dec_undoes_inc (k : jstring) (c : Cart) :
  (forall x, find (has_sku k) c = Some x -> 1 <= CartItem.qty x) ->
  dec k (inc k c) = c
  /\ (forall x, find (has_sku k) c = Some x -> CartItem.qty x = 1 ->
        tidy c -> inc k (dec k c) = dec k c /\ ~ In x (inc k (dec k c))).
Proof.
  intros Hq. split.
  - unfold dec, inc. rewrite find_bump.
    destruct (find (has_sku k) c) as [x|] eqn:Ex; cbn [option_map].
    + pose proof (find_sku_some k c x Ex) as [_ Hk]. unfold has_sku at 1.
      rewrite Hk, str_eqb_refl. cbn [CartItem.with_qty CartItem.qty].
      specialize (Hq x eq_refl).
      replace (CartItem.qty x + 1 <=? 1) with false
        by (symmetry; apply Z.leb_gt; lia).
      apply (bump_bump_back k 1).
    + apply bump_absent. now apply find_sku_none.
  - intros x Ex Hx [Hnd _]. unfold dec. rewrite Ex, Hx.
    change (1 <=? 1) with true. cbv iota.
    pose proof (find_sku_some k c x Ex) as [Hin Hk].
    assert (Hgone : ~ In k (map CartItem.sku
                               (List.filter (fun p => negb (has_sku k p)) c))).
    { intros H. apply in_map_iff in H as (p & Hp & Hpin).
      apply filter_In in Hpin as [_ Hn]. unfold has_sku in Hn.
      now rewrite Hp, str_eqb_refl in Hn. }
    unfold inc. rewrite (bump_absent k 1 _ Hgone). split; [reflexivity|].
    intros H. apply Hgone. apply in_map_iff. now exists x.
Qed.

(** X13.  [dec] on a line whose quantity is above 1 takes exactly one
    unit off that line and leaves everything else, the line's add-ons
    included, as it is: the cheese on a drink is not reduced with it. *)
Theorem dec_takes_one_unit (k : jstring) (c : Cart) (x : CartItem.t) :
  tidy c -> find (has_sku k) c = Some x -> 1 < CartItem.qty x ->
  qty_of k (dec k c) = CartItem.qty x - 1
  /\ map CartItem.sku (dec k c) = map CartItem.sku c
  /\ map CartItem.addons (dec k c) = map CartItem.addons c
  /\ (forall k', k' <> k -> qty_of k' (dec k c) = qty_of k' c).
Proof.
  intros [Hnd _] Ex Hq. unfold dec. rewrite Ex.
  replace (CartItem.qty x <=? 1) with false by (symmetry; apply Z.leb_gt; lia).
  split; [|split; [|split]].
  - rewrite qty_of_bump, str_eqb_refl, Ex. lia.
  - apply bump_skus.
  - unfold bump. rewrite map_map. apply map_ext. intros p.
    now destruct (has_sku k p).
  - intros k' Hk'. rewrite qty_of_bump.
    apply not_eq_sym, str_eqb_neq in Hk'. now rewrite Hk'.
Qed.

Lemma count_sum (c : Cart) (a : Z) :
  fold_left (fun s i => s + CartItem.qty i) c a = a + cart_count c.
Proof.
  unfold cart_count. revert a. induction c as [|p c IH]; intros a; cbn [fold_left].
  - lia.
  - rewrite IH, (IH (0 + CartItem.qty p)). lia.
Qed.

Lemma count_cons (p : CartItem.t) (c : Cart) :
  cart_count (p :: c) = CartItem.qty p + cart_count c.
Proof. unfold cart_count at 1. cbn [fold_left]. now rewrite count_sum. Qed.

Lemma count_app (c1 c2 : Cart) :
  cart_count (c1 ++ c2) = cart_count c1 + cart_count c2.
Proof.
  induction c1 as [|p c1 IH]; [reflexivity|].
  cbn [app]. rewrite !count_cons, IH. lia.
Qed.

Lemma count_bump (k : jstring) (d : Z) (c : Cart) :
  List.NoDup (map CartItem.sku c) -> In k (map CartItem.sku c) ->
  cart_count (bump k d c) = cart_count c + d.
Proof.
  induction c as [|p c IH]; [easy|]. cbn [map]. intros Hnd Hin.
  inversion Hnd as [|? ? Hp Hc]; subst.
  change (bump k d (p :: c))
    with ((if has_sku k p then CartItem.with_qty p (CartItem.qty p + d) else p)
          :: bump k d c).
  rewrite !count_cons. unfold has_sku. destruct (str_eqb (CartItem.sku p) k) eqn:E.
  - apply str_eqb_eq in E. subst k. rewrite (bump_absent _ d c Hp). simpl. lia.
  - apply str_eqb_neq in E. destruct Hin as [Hin|Hin]; [contradiction|].
    rewrite (IH Hc Hin). lia.
Qed.

Lemma count_without (k : jstring) (c : Cart) (x : CartItem.t) :
  List.NoDup (map CartItem.sku c) -> find (has_sku k) c = Some x ->
  cart_count (List.filter (fun p => negb (has_sku k p)) c)
  = cart_count c - CartItem.qty x.
Proof.
  induction c as [|p c IH]; [easy|]. cbn [map find List.filter]. intros Hnd.
  inversion Hnd as [|? ? Hp Hc]; subst.
  destruct (has_sku k p) eqn:E; cbn [negb].
  - intros [= <-]. rewrite count_cons.
    assert (Hk : ~ In k (map CartItem.sku c)).
    { apply str_eqb_eq in E. now rewrite <- E. }
    replace (List.filter (fun q => negb (has_sku k q)) c) with c; [lia|].
    clear -Hk. induction c as [|q c IH]; [reflexivity|]. cbn [List.filter].
    unfold has_sku at 1. destruct (str_eqb (CartItem.sku q) k) eqn:Eq.
    + apply str_eqb_eq in Eq. exfalso. apply Hk. now left.
    + cbn [negb]. f_equal. apply IH. intros H. apply Hk. now right.
  - intros Ex. rewrite !count_cons, (IH Hc Ex). lia.
Qed.

Lemma count_add_line (k : jstring) (item : CartItem.t) (c : Cart) :
  CartItem.qty item = 1 -> List.NoDup (map CartItem.sku c) ->
  cart_count (add_line k item c) = cart_count c + 1.
Proof.
  intros Hq Hnd. unfold add_line.
  destruct (find (has_sku k) c) as [x|] eqn:Ex.
  - apply count_bump; [exact Hnd|].
    apply find_sku_some in Ex as [Hin <-]. now apply in_map.
  - rewrite count_app. unfold cart_count at 2. cbn [fold_left]. lia.
Qed.

(** X14.  On a cart with one line per sku and quantities of at least 1,
    the badge (the sum of the quantities) goes up by one with every
    [addFlavor], [addDrink] and [inc] on a line that exists, down by one
    with [dec] on a line that exists, stays put for [inc] and [dec] on a
    sku without a line, and is 0 after [clearCart]. *)
Theorem badge_follows_the_cart (c : Cart) :
  tidy c ->
  (forall f, cart_count (addFlavor f c) = cart_count c + 1)
  /\ (forall id c', addDrink id c = Some c' -> cart_count c' = cart_count c + 1)
  /\ (forall k, In k (map CartItem.sku c) ->
        cart_count (inc k c) = cart_count c + 1
        /\ cart_count (dec k c) = cart_count c - 1)
  /\ (forall k, ~ In k (map CartItem.sku c) ->
        cart_count (inc k c) = cart_count c
        /\ cart_count (dec k c) = cart_count c)
  /\ cart_count (clearCart c) = 0.
Proof.
  intros [Hnd Hq]. split; [|split; [|split; [|split]]].
  - intros f. now apply (count_add_line (flavor_sku f)).
  - intros id c'. unfold addDrink.
    destruct (find (fun x => str_eqb (Drink.id x) id) DRINKS) as [d|]; [|easy].
    intros [= <-]. now apply (count_add_line (Drink.id d)).
  - intros k Hk. split; [now apply count_bump|].
    unfold dec. destruct (find (has_sku k) c) as [x|] eqn:Ex.
    + destruct (CartItem.qty x <=? 1) eqn:E.
      * apply Z.leb_le in E. rewrite (count_without k c x Hnd Ex).
        apply find_sku_some in Ex as [Hin _].
        rewrite List.Forall_forall in Hq. specialize (Hq x Hin). lia.
      * now apply count_bump.
    + now apply find_sku_none in Ex.
  - intros k Hk. unfold inc, dec. rewrite (bump_absent k 1 c Hk).
    apply find_sku_none in Hk. now rewrite Hk.
  - reflexivity.
Qed.

Lemma items_sum_cons (h : Heap) (p : CartItem.t) (c : Cart) :
  items_sum h (p :: c) = (line_total h p + items_sum h c)%Q.
Proof. reflexivity. Qed.

Lemma items_sum_app (h : Heap) (c1 c2 : Cart) :
  (items_sum h (c1 ++ c2) == items_sum h c1 + items_sum h c2)%Q.
Proof.
  induction c1 as [|p c1 IH]; cbn [app].
  - change (items_sum h []) with 0%Q. ring.
  - rewrite !items_sum_cons, IH. ring.
Qed.

Lemma line_total_bumped (h : Heap) (p : CartItem.t) (d : Z) :
  (line_total h (CartItem.with_qty p (CartItem.qty p + d))
   == line_total h p + CartItem.unitPrice p * inject_Z d)%Q.
Proof.
  unfold line_total, locs. cbn [CartItem.with_qty CartItem.unitPrice
                                 CartItem.qty CartItem.addons].
  rewrite inject_Z_plus. ring.
Qed.

Lemma items_sum_bump (h : Heap) (k : jstring) (d : Z) (c : Cart) (x : CartItem.t) :
  List.NoDup (map CartItem.sku c) -> find (has_sku k) c = Some x ->
  (items_sum h (bump k d c)
   == items_sum h c + CartItem.unitPrice x * inject_Z d)%Q.
Proof.
  induction c as [|p c IH]; [easy|]. cbn [map find]. intros Hnd.
  inversion Hnd as [|? ? Hp Hc]; subst.
  change (bump k d (p :: c))
    with ((if has_sku k p then CartItem.with_qty p (CartItem.qty p + d) else p)
          :: bump k d c).
  rewrite !items_sum_cons.
  destruct (has_sku k p) eqn:E.
  - intros [= <-]. apply str_eqb_eq in E. rewrite E in Hp.
    rewrite (bump_absent k d c Hp), line_total_bumped. ring.
  - intros Ex. rewrite (IH Hc Ex). ring.
Qed.

Lemma subtotal_add_line (h : Heap) (k : jstring) (item : CartItem.t) (c : Cart) :
  CartItem.qty item = 1 -> CartItem.addons item = Some [] ->
  List.NoDup (map CartItem.sku c) ->
  (subtotal (add_line k item c) h
   == subtotal c h
      + match find (has_sku k) c with
        | Some x => CartItem.unitPrice x
        | None => CartItem.unitPrice item
        end)%Q.
Proof.
  intros Hq Ha Hnd. rewrite !subtotal_is_items_sum. unfold add_line.
  destruct (find (has_sku k) c) as [x|] eqn:Ex.
  - rewrite (items_sum_bump h k 1 c x Hnd Ex). ring.
  - rewrite items_sum_app, (items_sum_cons h item []).
    change (items_sum h []) with 0%Q.
    unfold line_total, locs. rewrite Hq, Ha.
    change (Qsum (map _ (deref h (or_else (Some []) [])))) with 0%Q. ring.
Qed.

(** X15.  On a cart with one line per sku, [addFlavor] and [addDrink]
    raise the subtotal by one unit price: that of the line already there
    (whatever the flavor passed now would cost) or, for a new line, the
    flavor's or drink's price; [inc] on an existing line raises it by the
    line's unit price; the cleared cart has subtotal 0. *)
Theorem subtotal_follows_the_cart (c : Cart) (h : Heap) :
  List.NoDup (map CartItem.sku c) ->
  (forall f,
     subtotal (addFlavor f c) h
     == subtotal c h
        + match find (has_sku (flavor_sku f)) c with
          | Some x => CartItem.unitPrice x
          | None => priceFor f
          end)%Q
  /\ (forall id d c',
        find (fun x => str_eqb (Drink.id x) id) DRINKS = Some d ->
        addDrink id c = Some c' ->
        subtotal c' h
        == subtotal c h
           + match find (has_sku (Drink.id d)) c with
             | Some x => CartItem.unitPrice x
             | None => Drink.price d
             end)%Q
  /\ (forall k x, find (has_sku k) c = Some x ->
        subtotal (inc k c) h == subtotal c h + CartItem.unitPrice x)%Q
  /\ (subtotal (clearCart c) h == 0)%Q.
Proof.
  intros Hnd. split; [|split; [|split]].
  - intros f. now apply (subtotal_add_line h (flavor_sku f)).
  - intros id d c' Ed. unfold addDrink. rewrite Ed. intros [= <-].
    now apply (subtotal_add_line h (Drink.id d)).
  - intros k x Ex. rewrite !subtotal_is_items_sum. unfold inc.
    rewrite (items_sum_bump h k 1 c x Hnd Ex). ring.
  - reflexivity.
Qed.

Lemma shown_line_total_eq (h : Heap) (i : CartItem.t) :
  (shown_line_total h i == line_total h i)%Q.
Proof.
  unfold shown_line_total, line_total, locs, or_else.
  now rewrite addons_total_sum.
Qed.

(** X16.  The amounts printed beside the cart lines add up to the subtotal
    printed under them. *)
Theorem shown_lines_add_up_to_subtotal (c : Cart) (h : Heap) :
  (Qsum (map (shown_line_total h) c) == subtotal c h)%Q.
Proof.
  rewrite subtotal_is_items_sum.
  induction c as [|i c IH]; [reflexivity|].
  rewrite items_sum_cons, <- IH, <- shown_line_total_eq. reflexivity.
Qed.

(** ** The countdown of the confirmation page *)

Lemma floor_div_bounds (r d : Q) :
  (0 < d)%Q ->
  (inject_Z (Qfloor (r / d)) * d <= r
   /\ r < (inject_Z (Qfloor (r / d)) + 1) * d)%Q.
Proof.
  intros Hd.
  assert (E : (r == (r / d) * d)%Q).
  { field. intros H. rewrite H in Hd. now apply Qlt_irrefl in Hd. }
  split.
  - rewrite E at 2. apply Qmult_le_compat_r; [apply Qfloor_le|now apply Qlt_le_weak].
  - rewrite E at 1. apply Qmult_lt_compat_r; [exact Hd|].
    pose proof (Qlt_floor (r / d)) as H. now rewrite inject_Z_plus in H.
Qed.

Lemma remainingMs_nonneg (expiresAt : option num) (now : Z) :
  (0 <= remainingMs expiresAt now)%Q.
Proof.
  unfold remainingMs. destruct (truthy_num expiresAt); [|apply Qle_refl].
  destruct expiresAt as [[|e]|]; try apply Qle_refl. cbv zeta.
  destruct (Qle_bool (e - inject_Z now) 0) eqn:E; [apply Qle_refl|].
  destruct (Qlt_le_dec 0 (e - inject_Z now)) as [H|H]; [now apply Qlt_le_weak|].
  apply Qle_bool_iff in H. congruence.
Qed.

Lemma remMin_nonneg (r : Q) : (0 <= r)%Q -> 0 <= remMin r.
Proof.
  intros Hr. unfold remMin.
  destruct (floor_div_bounds r 60000 eq_refl) as [_ H].
  set (m := Qfloor (r / 60000)) in *.
  assert (A : (inject_Z (-1) < inject_Z m)%Q) by (change (inject_Z (-1)) with (-1)%Q; lra).
  rewrite <- Zlt_Qlt in A. lia.
Qed.

Lemma js_rem_minutes (r : Q) :
  (0 <= r)%Q -> (js_rem r 60000 == r - 60000 * inject_Z (remMin r))%Q.
Proof.
  intros Hr. unfold js_rem, trunc, remMin.
  assert (H : (0 <= r / 60000)%Q).
  { apply Qle_shift_div_l; [reflexivity|]. now rewrite Qmult_0_l. }
  apply Qle_bool_iff in H. rewrite H. reflexivity.
Qed.

Lemma countdown_bounds (r : Q) :
  (0 <= r)%Q ->
  0 <= remMin r /\ 0 <= remSec r <= 59
  /\ (inject_Z (remMin r) * 60000 + inject_Z (remSec r) * 1000 <= r
      /\ r < inject_Z (remMin r) * 60000 + inject_Z (remSec r) * 1000 + 1000)%Q.
Proof.
  intros Hr. pose proof (remMin_nonneg r Hr) as Hm.
  pose proof (js_rem_minutes r Hr) as E.
  destruct (floor_div_bounds r 60000 eq_refl) as [M1 M2]. fold (remMin r) in M1, M2.
  destruct (floor_div_bounds (js_rem r 60000) 1000 eq_refl) as [S1 S2].
  fold (remSec r) in S1, S2. rewrite E in S1, S2.
  set (m := remMin r) in *. set (s := remSec r) in *.
  assert (A : (inject_Z (-1) < inject_Z s)%Q) by (change (inject_Z (-1)) with (-1)%Q; lra).
  assert (B : (inject_Z s < inject_Z 60)%Q) by (change (inject_Z 60) with 60%Q; lra).
  rewrite <- Zlt_Qlt in A, B.
  split; [exact Hm|]. split; [lia|]. split; lra.
Qed.

(** X17.  The countdown splits the time left into whole minutes and whole
    seconds: whatever the order's [expiresAt] and the time, the minutes are
    not negative, the seconds lie between 0 and 59, and minutes and seconds
    together are the time left rounded down to a full second. *)
Theorem countdown_splits_the_time_left (expiresAt : option num) (now : Z) :
  let r := remainingMs expiresAt now in
  0 <= remMin r /\ 0 <= remSec r <= 59
  /\ (inject_Z (remMin r) * 60000 + inject_Z (remSec r) * 1000 <= r
      /\ r < inject_Z (remMin r) * 60000 + inject_Z (remSec r) * 1000 + 1000)%Q.
Proof. cbv zeta. apply countdown_bounds, remainingMs_nonneg. Qed.

Lemma two_digits (s : Z) :
  0 <= s <= 59 -> padStart2 (String_of s) = [digit (s / 10); digit (s mod 10)].
Proof.
  intros Hs.
  assert (H : forallb (fun i => str_eqb (padStart2 (String_of (Z.of_nat i)))
                                  [digit (Z.of_nat i / 10); digit (Z.of_nat i mod 10)])
                (seq 0 60) = true) by (vm_compute; reflexivity).
  rewrite forallb_forall in H. specialize (H (Z.to_nat s)).
  rewrite Z2Nat.id in H by lia. apply str_eqb_eq, H, in_seq. lia.
Qed.

Lemma remainingMs_running (e : Q) (now : Z) :
  ~ (e == 0)%Q -> (inject_Z now < e)%Q ->
  remainingMs (Some (Fin e)) now = (e - inject_Z now)%Q.
Proof.
  intros He Hlt. unfold remainingMs, truthy_num.
  destruct (Qeq_bool e 0) eqn:E; [apply Qeq_bool_iff in E; contradiction|].
  cbn [negb]. cbv zeta.
  destruct (Qle_bool (e - inject_Z now) 0) eqn:El; [|reflexivity].
  apply Qle_bool_iff in El. lra.
Qed.

Lemma remainingMs_over (e : Q) (now : Z) :
  (e <= inject_Z now)%Q -> (remainingMs (Some (Fin e)) now == 0)%Q.
Proof.
  intros Hle. unfold remainingMs, truthy_num.
  destruct (negb (Qeq_bool e 0)); [|reflexivity]. cbv zeta.
  destruct (Qle_bool (e - inject_Z now) 0) eqn:El; [reflexivity|].
  assert (H : (e - inject_Z now <= 0)%Q) by lra.
  apply Qle_bool_iff in H. congruence.
Qed.

(** X18.  What the confirmation page shows for an order with a numeric
    [expiresAt] [e] at time [now].  When [e] is 0 the page shows the number
    itself and no countdown.  Otherwise it shows "Expired" from the moment
    [now] reaches [e], and before that the minutes left and the seconds
    left, the seconds always as two digits; during the last second it
    shows 0:00, not "Expired". *)
Theorem countdown_shows_time_left_until_expiry (e : Q) (now : Z) :
  ((e == 0)%Q -> countdown (Some (Fin e)) now = Bare (Fin e))
  /\ (~ (e == 0)%Q -> (e <= inject_Z now)%Q ->
        countdown (Some (Fin e)) now = Expired)
  /\ (~ (e == 0)%Q -> (inject_Z now < e)%Q ->
        let s := remSec (e - inject_Z now) in
        countdown (Some (Fin e)) now
        = TimeLeft (String_of (remMin (e - inject_Z now)))
            [digit (s / 10); digit (s mod 10)])
  /\ (~ (e == 0)%Q -> (inject_Z now < e)%Q -> (e < inject_Z now + 1000)%Q ->
        countdown (Some (Fin e)) now = TimeLeft (lit "0") (lit "00")).
Proof.
  assert (Hrun : ~ (e == 0)%Q -> (inject_Z now < e)%Q ->
            countdown (Some (Fin e)) now
            = TimeLeft (String_of (remMin (e - inject_Z now)))
                (padStart2 (String_of (remSec (e - inject_Z now))))).
  { intros He Hlt. unfold countdown.
    rewrite (remainingMs_running e now He Hlt). unfold truthy_num.
    destruct (Qeq_bool e 0) eqn:E; [apply Qeq_bool_iff in E; contradiction|].
    cbn [negb]. cbv zeta.
    destruct (Qlt_le_dec 0 (e - inject_Z now)) as [H|H]; [reflexivity|lra]. }
  split; [|split; [|split]].
  - intros He. unfold countdown, truthy_num.
    apply Qeq_bool_iff in He. now rewrite He.
  - intros He Hle. unfold countdown. unfold truthy_num at 1.
    destruct (Qeq_bool e 0) eqn:E; [apply Qeq_bool_iff in E; contradiction|].
    cbn [negb]. cbv zeta. pose proof (remainingMs_over e now Hle) as H0.
    destruct (Qlt_le_dec 0 (remainingMs (Some (Fin e)) now)) as [H|H]; [|reflexivity].
    rewrite H0 in H. now apply Qlt_irrefl in H.
  - intros He Hlt. cbv zeta. rewrite (Hrun He Hlt). f_equal.
    apply two_digits.
    assert (Hr : (0 <= e - inject_Z now)%Q) by lra.
    now destruct (countdown_bounds _ Hr) as (_ & H & _).
  - intros He Hlt Hlast. rewrite (Hrun He Hlt).
    assert (Hr : (0 <= e - inject_Z now)%Q) by lra.
    destruct (countdown_bounds _ Hr) as (Hm & Hs & H1 & H2).
    set (m := remMin (e - inject_Z now)) in *.
    set (s := remSec (e - inject_Z now)) in *.
    assert (A : (inject_Z m < inject_Z 1)%Q).
    { change (inject_Z 1) with 1%Q.
      assert (S0 : (inject_Z 0 <= inject_Z s)%Q) by (rewrite <- Zle_Qle; lia).
      change (inject_Z 0) with 0%Q in S0. lra. }
    assert (B : (inject_Z s < inject_Z 1)%Q).
    { change (inject_Z 1) with 1%Q.
      assert (M0 : (inject_Z 0 <= inject_Z m)%Q) by (rewrite <- Zle_Qle; lia).
      change (inject_Z 0) with 0%Q in M0. lra. }
    rewrite <- Zlt_Qlt in A, B.
    replace m with 0 by lia. replace s with 0 by lia. reflexivity.
Qed.

(** X19.  An order placed by [submitOrder] never shows more than ten
    minutes: at any time not before the clock reading its [expiresAt] was
    computed from, the time left is at most 600000 ms, so the minutes are
    at most 10, and 10 only together with 0 seconds. *)
Theorem placed_order_counts_down_from_ten_minutes
    (c : Closure) (h : Heap) (w : World) (now : Z) :
  let o := fst (new_order c h w) in
  let r := remainingMs (Order.expiresAt o) now in
  ms (clock w (2 + tick w)) <= now ->
  (r <= 600000)%Q /\ remMin r <= 10 /\ (remMin r = 10 -> remSec r = 0).
Proof.
  cbv zeta. intros Hnow. rewrite new_order_eq. cbn [Order.expiresAt].
  set (e := inject_Z (ms (clock w (2 + tick w)) + 600000)).
  assert (Hr : (remainingMs (Some (Fin e)) now <= 600000)%Q).
  { unfold remainingMs. destruct (truthy_num (Some (Fin e))); [|easy]. cbv zeta.
    destruct (Qle_bool (e - inject_Z now) 0); [easy|].
    unfold e. rewrite inject_Z_plus. rewrite Zle_Qle in Hnow.
    change (inject_Z 600000) with 600000%Q. lra. }
  pose proof (remainingMs_nonneg (Some (Fin e)) now) as H0.
  destruct (countdown_bounds _ H0) as (Hm & Hs & H1 & H2).
  set (r := remainingMs (Some (Fin e)) now) in *.
  set (m := remMin r) in *. set (s := remSec r) in *.
  assert (S0 : (inject_Z 0 <= inject_Z s)%Q) by (rewrite <- Zle_Qle; lia).
  change (inject_Z 0) with 0%Q in S0.
  assert (A : (inject_Z m < inject_Z 11)%Q) by (change (inject_Z 11) with 11%Q; lra).
  rewrite <- Zlt_Qlt in A.
  split; [exact Hr|]. split; [lia|].
  intros E. rewrite E in H1. change (inject_Z 10) with 10%Q in H1.
  assert (B : (inject_Z s < inject_Z 1)%Q) by (change (inject_Z 1) with 1%Q; lra).
  rewrite <- Zlt_Qlt in B. lia.
Qed.

(** ** The list of the staff board *)

Lemma insert_sorted_perm cmp (x : Order.t) (l : list Order.t) :
  Permutation (insert_sorted cmp x l) (x :: l).
Proof.
  induction l as [|y r IH]; [reflexivity|]. cbn [insert_sorted].
  destruct (comes_after cmp x y); [|reflexivity].
  rewrite IH. apply perm_swap.
Qed.

Lemma sort_by_perm cmp (l : list Order.t) : Permutation (sort_by cmp l) l.
Proof.
  unfold sort_by. induction l as [|x l IH]; [reflexivity|]. cbn [fold_right].
  rewrite insert_sorted_perm. now constructor.
Qed.

Lemma comes_after_newest (x y : Order.t) :
  comes_after by_newest x y = true ->
  Order.createdAt x <> NaN /\ Order.createdAt y <> NaN
  /\ (created x < created y)%Q.
Proof.
  unfold comes_after, by_newest, num_sub, created.
  destruct (Order.createdAt y) as [|b], (Order.createdAt x) as [|a]; try easy.
  destruct (Qlt_le_dec 0 (b - a)) as [H|H]; [|easy].
  intros _. split; [easy|]. split; [easy|]. lra.
Qed.

Lemma stays_before_newest (x y : Order.t) :
  Order.createdAt x <> NaN -> Order.createdAt y <> NaN ->
  comes_after by_newest x y = false -> (created y <= created x)%Q.
Proof.
  unfold comes_after, by_newest, num_sub, created.
  destruct (Order.createdAt y) as [|b], (Order.createdAt x) as [|a]; try easy.
  destruct (Qlt_le_dec 0 (b - a)) as [H|H]; [easy|]. intros _ _ _. lra.
Qed.

Lemma insert_sorted_newest (x : Order.t) (l : list Order.t) :
  Order.createdAt x <> NaN -> Forall (fun o => Order.createdAt o <> NaN) l ->
  newest_first l -> newest_first (insert_sorted by_newest x l).
Proof.
  intros Hx. unfold newest_first.
  induction l as [|y r IH]; intros Hl Hs; cbn [insert_sorted].
  - constructor; constructor.
  - apply Forall_cons in Hl as [Hy Hr].
    apply StronglySorted_inv in Hs as [Hs Hall].
    destruct (comes_after by_newest x y) eqn:E.
    + apply comes_after_newest in E as (_ & _ & Hlt).
      constructor; [now apply IH|].
      apply List.Forall_forall. intros z Hz.
      apply (Permutation_in _ (insert_sorted_perm by_newest x r)) in Hz.
      destruct Hz as [<-|Hz]; [now apply Qlt_le_weak|].
      rewrite List.Forall_forall in Hall. now apply Hall.
    + pose proof (stays_before_newest x y Hx Hy E) as Hle.
      constructor; [now constructor|].
      constructor; [exact Hle|].
      apply List.Forall_forall. intros z Hz.
      rewrite List.Forall_forall in Hall. specialize (Hall z Hz).
      now apply Qle_trans with (created y).
Qed.

Lemma sort_by_newest (l : list Order.t) :
  Forall (fun o => Order.createdAt o <> NaN) l ->
  newest_first (sort_by by_newest l).
Proof.
  unfold sort_by. induction 1 as [|x l Hx Hl IH]; cbn [fold_right].
  - constructor.
  - apply insert_sorted_newest; [exact Hx| |exact IH].
    apply List.Forall_forall. intros z Hz.
    apply (Permutation_in _ (sort_by_perm by_newest l)) in Hz.
    rewrite Forall_forall in Hl. now apply Hl, list_elem_of_In.
Qed.

Lemma insert_sorted_stable (t : Q) (x : Order.t) (l : list Order.t) :
  created_at t (insert_sorted by_newest x l) = created_at t (x :: l).
Proof.
  unfold created_at. induction l as [|y r IH]; [reflexivity|].
  cbn [insert_sorted]. destruct (comes_after by_newest x y) eqn:E; [|reflexivity].
  apply comes_after_newest in E as (_ & _ & Hlt).
  cbn [List.filter] in *. rewrite IH.
  destruct (Qeq_bool (created y) t) eqn:Ey, (Qeq_bool (created x) t) eqn:Ex;
    try reflexivity.
  apply Qeq_bool_iff in Ey, Ex. rewrite Ex, Ey in Hlt.
  now apply Qlt_irrefl in Hlt.
Qed.

Lemma sort_by_stable (t : Q) (l : list Order.t) :
  created_at t (sort_by by_newest l) = created_at t l.
Proof.
  unfold sort_by. induction l as [|x l IH]; [reflexivity|]. cbn [fold_right].
  rewrite insert_sorted_stable. unfold created_at in *. cbn [List.filter].
  now rewrite IH.
Qed.

Lemma filtered_All (os : list Order.t) :
  filtered os Filter.All = sort_by by_newest os.
Proof. reflexivity. Qed.

(** X20.  With the filter "All" the staff board lists every stored order
    once, from the newest to the oldest, and orders created at the same
    millisecond stay in the order of the store. *)
Theorem board_lists_newest_first (os : list Order.t) :
  Forall (fun o => Order.createdAt o <> NaN) os ->
  Permutation (filtered os Filter.All) os
  /\ newest_first (filtered os Filter.All)
  /\ (forall t, created_at t (filtered os Filter.All) = created_at t os).
Proof.
  intros Hfin. rewrite filtered_All. split; [apply sort_by_perm|].
  split; [now apply sort_by_newest|]. intros t. apply sort_by_stable.
Qed.

Lemma status_name_eqb (a b : Status) :
  str_eqb (status_name a) (status_name b) = status_eqb a b.
Proof. now destruct a, b. Qed.

Lemma status_name_not_a_view (st : Status) :
  str_eqb (status_name st) Filter.All = false
  /\ str_eqb (status_name st) Filter.Active = false.
Proof. now destruct st. Qed.

(** X21.  The other filters of the staff board keep the order of the
    "All" list and select by status: "Active" leaves out exactly the Done
    and the Cancelled orders, the name of a status keeps exactly the
    orders with that status, and a filter that is none of the eight names
    shows nothing.  The "All" list holds the stored orders and no
    other. *)
Theorem board_filter_selects_by_status (os : list Order.t) :
  (forall o, In o (filtered os Filter.All) <-> In o os)
  /\ filtered os Filter.Active
     = List.filter (fun o => negb (status_eqb (Order.status o) Done)
                            && negb (status_eqb (Order.status o) Cancelled))
         (filtered os Filter.All)
  /\ (forall st,
        filtered os (status_name st)
        = List.filter (fun o => status_eqb (Order.status o) st)
            (filtered os Filter.All))
  /\ (forall f, f <> Filter.All -> f <> Filter.Active ->
        (forall st, f <> status_name st) -> filtered os f = []).
Proof.
  rewrite filtered_All. split; [|split; [|split]].
  - intros o. split; apply Permutation_in;
      [apply sort_by_perm|symmetry; apply sort_by_perm].
  - unfold filtered. cbn [str_eqb Filter.All Filter.Active N.eqb Pos.eqb andb].
    apply filter_ext. intros o. unfold is_active. now destruct (Order.status o).
  - intros st. unfold filtered.
    destruct (status_name_not_a_view st) as [-> ->].
    apply filter_ext. intros o. apply status_name_eqb.
  - intros f HA HB Hst. unfold filtered.
    apply str_eqb_neq in HA, HB. rewrite HA, HB.
    induction (sort_by by_newest os) as [|o l IH]; [reflexivity|].
    cbn [List.filter]. specialize (Hst (Order.status o)).
    assert (E : str_eqb (status_name (Order.status o)) f = false)
      by (apply str_eqb_neq; congruence).
    now rewrite E.
Qed.

(** ** The board's list and the store *)

Section BoardAndStore.

Variable coerce : JSON -> num.

Lemma synced_read (s : Sys) (w : World) :
  synced s -> ls_orders w = ls_orders (world s) ->
  getAllOrders coerce w = (orders (ui s), w).
Proof.
  intros [[H1 H2]|[H1 H2]] E.
  - rewrite H2. unfold getAllOrders, bind, get_orders_text. now rewrite E, H1.
  - apply getAllOrders_stored; [exact H2|congruence].
Qed.

Lemma synced_written (u : UI) (h : Heap) (w : World) (ts : list Closure)
    (al : list jstring) :
  Forall well_formed (orders u) -> ls_orders w = stored (orders u) ->
  synced (mkSys u h w ts al).
Proof. intros H E. right. now split. Qed.

Lemma step_synced (e : Event) (s s' : Sys) :
  synced s -> clock_ok (world s) -> (length (orders (ui s)) <= 300)%nat ->
  board_event e -> step coerce e s = Some s' ->
  synced s' /\ clock_ok (world s') /\ (length (orders (ui s')) <= 300)%nat.
Proof.
  intros Hs Hc Hn He.
  assert (Hwf : Forall well_formed (orders (ui s))).
  { destruct Hs as [[_ ->]|[_ H]]; [constructor|exact H]. }
  pose proof (synced_read s (world s) Hs eq_refl) as Eos.
  destruct e; cbn [step]; try (intros [= <-]; now split).
  - destruct (addDrink id (cart (ui s))); [|easy]. intros [= <-]. now split.
  - intros [= <-]. unfold update_cart.
    destruct (addCheeseToSouffle sku (cart (ui s)) (heap s)). now split.
  - intros [= <-]. unfold update_cart.
    destruct (addCheeseToDrink sku (cart (ui s)) (heap s)). now split.
  - intros [= <-]. unfold submitOrder. destruct (cart (ui s)); [now split|].
    destruct (trim (pickupName (ui s))); now split.
  - intros [= <-]. unfold fire. destruct (timers s) as [|c rest]; [now split|].
    pose proof (new_order_well_formed c (heap s) (world s) Hc) as Ho.
    assert (E1 : getAllOrders coerce (snd (new_order c (heap s) (world s)))
                 = (orders (ui s), snd (new_order c (heap s) (world s)))).
    { apply synced_read; [exact Hs|]. now rewrite new_order_world. }
    rewrite (place_eq coerce c (heap s) (world s) _ E1). cbv zeta. cbn [world ui orders].
    split; [|split].
    + apply synced_written; [|reflexivity]. cbn [orders].
      apply Forall_take. now constructor.
    + rewrite new_order_world. exact Hc.
    + rewrite length_take. lia.
  - intros [= <-]. unfold sweep, Date_now, bind, read_clock, ret.
    set (w1 := mkWorld _ _ _ _).
    rewrite (synced_read s w1 Hs eq_refl).
    destruct (existsb _ (orders (ui s))); cbn [world ui].
    + split; [|split; [exact Hc|]].
      * apply synced_written; [|reflexivity]. cbn [orders set_orders].
        now apply sweep_map_well_formed.
      * unfold saveAllOrders, set_orders_text. cbn [ui orders set_orders].
        unfold sweep_map. now rewrite length_map.
    + split; [|split; [exact Hc|exact Hn]].
      destruct Hs as [[H1 H2]|[H1 H2]]; [left|right]; now split.
  - intros [= <-]. destruct He as [st ->]. unfold updateOrder. rewrite Eos.
    cbn [world ui saveAllOrders set_orders_text].
    split; [|split; [exact Hc|]].
    + apply synced_written; [|reflexivity]. cbn [orders set_orders].
      apply Forall_map. apply (Forall_impl _ _ _ Hwf). intros o Ho.
      destruct (strict_eq (Order.id o) id); [|exact Ho].
      rewrite merge_status. now apply with_status_well_formed.
    + cbn [orders set_orders]. now rewrite length_map.
  - intros [= <-]. unfold deleteOrder. rewrite Eos.
    cbn [world ui saveAllOrders set_orders_text].
    split; [|split; [exact Hc|]].
    + apply synced_written; [|reflexivity]. cbn [orders set_orders].
      rewrite Forall_forall in *.
      intros o Ho. apply Hwf. apply list_elem_of_In in Ho.
      apply filter_In in Ho as [Ho _]. now apply list_elem_of_In.
    + cbn [orders set_orders].
      pose proof (List.filter_length_le
                    (fun o => negb (strict_eq (Order.id o) id)) (orders (ui s))).
      lia.
  - intros [= <-]. destruct confirmed; [|now split].
    cbn. split; [|split; [exact Hc|lia]]. right. split; [reflexivity|constructor].
Qed.

Lemma mount_synced (h : Heap) (w : World) :
  store_ok w ->
  synced (mount coerce h w) /\ world (mount coerce h w) = w
  /\ orders (ui (mount coerce h w)) = fst (getAllOrders coerce w).
Proof.
  intros Hs. destruct (getAllOrders_ok coerce w Hs) as (os & E & Hwf).
  unfold mount. rewrite E. cbn [world ui orders fst].
  split; [|now split].
  destruct Hs as [H|(os' & H & Hwf')].
  - left. split; [exact H|]. cbn [ui orders].
    unfold getAllOrders, bind, get_orders_text in E. rewrite H in E.
    now injection E as <-.
  - right. cbn [world ui orders].
    rewrite (getAllOrders_stored coerce os' w Hwf' H) in E.
    injection E as <-. now split.
Qed.

(** X22.  In a session on one page, started on a store that is empty or
    holds well-formed orders, at most 300 of them, the list the component
    holds is at every moment what [getAllOrders] reads from the store, and
    it never exceeds 300 orders, whatever the customer, the timers, the
    sweep and the staff board do. *)
Theorem board_list_is_the_store
    (es : list Event) (h : Heap) (w : World) (s : Sys) :
  store_ok w -> clock_ok w -> Forall board_event es ->
  (length (fst (getAllOrders coerce w)) <= 300)%nat ->
  run coerce es (mount coerce h w) = Some s ->
  fst (getAllOrders coerce (world s)) = orders (ui s)
  /\ (length (orders (ui s)) <= 300)%nat.
Proof.
  intros Hs Hc He Hn Hrun.
  destruct (mount_synced h w Hs) as (H1 & H2 & H3).
  assert (G : forall s0 s1,
            synced s0 -> clock_ok (world s0) ->
            (length (orders (ui s0)) <= 300)%nat ->
            run coerce es s0 = Some s1 ->
            synced s1 /\ (length (orders (ui s1)) <= 300)%nat).
  { clear Hrun. induction es as [|e r IH]; intros s0 s1 I1 I2 I3; cbn [run].
    - intros [= <-]. now split.
    - inversion He as [|? ? He1 He2]; subst.
      destruct (step coerce e s0) as [s2|] eqn:E; [|easy].
      destruct (step_synced e s0 s2 I1 I2 I3 He1 E) as (J1 & J2 & J3).
      now apply IH. }
  destruct (G _ s H1) as [K1 K2]; [now rewrite H2|now rewrite H3|exact Hrun|].
  split; [|exact K2]. now rewrite (synced_read s (world s) K1 eq_refl).
Qed.

End BoardAndStore.

(** ** Cheese on a souffle *)

Lemma find_addon_after_incr (h : Heap) (id : jstring) (ls : list loc) l a :
  find_addon h id ls = Some (l, a) ->
  find_addon (incr_qty l a h) id ls
  = Some (l, Addon.mk (Addon.id a) (Addon.name a) (Addon.price a) (Addon.qty a + 1)).
Proof.
  intros Hf. pose proof (find_addon_some h id ls l a Hf) as (_ & Hl & Hid).
  assert (Hlt : (l < length h)%nat) by (apply lookup_lt_is_Some; eauto).
  revert Hf. induction ls as [|x ls IH]; cbn [find_addon]; [easy|].
  unfold incr_qty in *. destruct (decide (x = l)) as [->|Hne].
  - rewrite Hl, list_lookup_insert_eq by exact Hlt. cbn [Addon.id].
    apply str_eqb_eq in Hid. now rewrite Hid.
  - rewrite list_lookup_insert_ne by congruence.
    destruct (h !! x) as [b|]; [|exact IH].
    destruct (str_eqb (Addon.id b) id); [congruence|exact IH].
Qed.

Lemma find_addon_fresh (h : Heap) (id : jstring) (ls : list loc) (n : Addon.t) :
  find_addon h id ls = None -> (forall l, In l ls -> (l < length h)%nat) ->
  Addon.id n = id ->
  find_addon (h ++ [n]) id (ls ++ [length h]) = Some (length h, n).
Proof.
  intros Hf Hv Hid. induction ls as [|x ls IH]; cbn [find_addon app] in *.
  - rewrite lookup_app_r by lia. rewrite Nat.sub_diag. cbn.
    apply str_eqb_eq in Hid. now rewrite Hid.
  - rewrite lookup_app_l by (apply Hv; now left).
    destruct (h !! x) as [b|].
    + destruct (str_eqb (Addon.id b) id); [easy|].
      apply IH; [exact Hf|]. intros l Hl. apply Hv. now right.
    + apply IH; [exact Hf|]. intros l Hl. apply Hv. now right.
Qed.

Lemma cheese_souffle_item_adds_one (sku : jstring) (p : CartItem.t) (h : Heap) :
  has_sku sku p = true -> (forall l, In l (locs p) -> (l < length h)%nat) ->
  let p' := fst (cheese_souffle_item sku p h) in
  let h' := snd (cheese_souffle_item sku p h) in
  has_sku sku p' = true /\ CartItem.qty p' = CartItem.qty p
  /\ (forall l, In l (locs p') -> (l < length h')%nat)
  /\ cheese_on h' p' = cheese_on h p + 1.
Proof.
  intros Hs Hv. cbv zeta. unfold cheese_souffle_item, cheese_on. rewrite Hs.
  cbn [negb].
  change (match CartItem.addons p with Some l => l | None => [] end) with (locs p).
  destruct (find_addon h CHEESE_id (locs p)) as [[l ex]|] eqn:Ef; cbn [fst snd].
  - split; [exact Hs|]. split; [reflexivity|]. split.
    + intros l' Hl'. unfold incr_qty. rewrite length_insert. now apply Hv.
    + change (locs (CartItem.with_addons p (locs p))) with (locs p).
      now rewrite (find_addon_after_incr h CHEESE_id (locs p) l ex Ef).
  - split; [exact Hs|]. split; [reflexivity|].
    change (locs (CartItem.with_addons p (locs p ++ [length h])))
      with (locs p ++ [length h]).
    split.
    + intros l' Hl'. rewrite length_app. cbn [length].
      apply in_app_iff in Hl' as [Hl'|[<-|[]]]; [specialize (Hv l' Hl')|]; lia.
    + now rewrite (find_addon_fresh h CHEESE_id (locs p) new_cheese Ef Hv eq_refl).
Qed.

Lemma map_heap_other_lines (sku : jstring) (c : Cart) (h : Heap) :
  (forall q, In q c -> has_sku sku q = false) ->
  map_heap (cheese_souffle_item sku) c h = (c, h).
Proof.
  induction c as [|q c IH]; intros Hc; [reflexivity|]. cbn [map_heap].
  unfold cheese_souffle_item at 1. rewrite (Hc q) by now left. cbn [negb].
  rewrite IH; [reflexivity|]. intros q' Hq'. apply Hc. now right.
Qed.

Lemma addCheeseToSouffle_one_line (sku : jstring) (c1 c2 : Cart)
    (p : CartItem.t) (h : Heap) :
  (forall q, In q (c1 ++ c2) -> has_sku sku q = false) ->
  addCheeseToSouffle sku (c1 ++ p :: c2) h
  = (c1 ++ fst (cheese_souffle_item sku p h) :: c2,
     snd (cheese_souffle_item sku p h)).
Proof.
  intros Hc. unfold addCheeseToSouffle. revert h.
  induction c1 as [|q c1 IH]; intros h; cbn [app map_heap].
  - destruct (cheese_souffle_item sku p h) as [p' h1]. cbn [fst snd].
    rewrite map_heap_other_lines; [reflexivity|].
    intros q Hq. apply Hc. now apply in_app_iff; right.
  - unfold cheese_souffle_item at 1. rewrite (Hc q) by now left. cbn [negb].
    rewrite IH; [reflexivity|]. intros q' Hq'. apply Hc. now right.
Qed.

(** X23.  Cheese on a souffle is not limited by the quantity of the
    line: on a cart with one line for the sku, [k] presses of "Cheese +"
    leave the other lines and the line's quantity as they are and raise
    the cheese on the line by [k], whatever the line's quantity. *)
Theorem souffle_cheese_counts_every_press (sku : jstring) (k : nat)
    (c1 c2 : Cart) (p : CartItem.t) (h : Heap) :
  has_sku sku p = true ->
  (forall q, In q (c1 ++ c2) -> has_sku sku q = false) ->
  (forall l, In l (locs p) -> (l < length h)%nat) ->
  exists p' h',
    press_souffle_cheese sku k (c1 ++ p :: c2, h) = (c1 ++ p' :: c2, h')
    /\ CartItem.qty p' = CartItem.qty p
    /\ cheese_on h' p' = cheese_on h p + Z.of_nat k.
Proof.
  intros Hs Hc Hv.
  assert (G : exists p' h',
            press_souffle_cheese sku k (c1 ++ p :: c2, h) = (c1 ++ p' :: c2, h')
            /\ has_sku sku p' = true
            /\ (forall l, In l (locs p') -> (l < length h')%nat)
            /\ CartItem.qty p' = CartItem.qty p
            /\ cheese_on h' p' = cheese_on h p + Z.of_nat k).
  { induction k as [|k IH].
    - exists p, h. rewrite Z.add_0_r. now repeat split.
    - destruct IH as (p1 & h1 & E & Hs1 & Hv1 & Hq1 & Hch1).
      change (press_souffle_cheese sku (S k) (c1 ++ p :: c2, h))
        with (addCheeseToSouffle sku
                (fst (press_souffle_cheese sku k (c1 ++ p :: c2, h)))
                (snd (press_souffle_cheese sku k (c1 ++ p :: c2, h)))).
      rewrite E. cbn [fst snd].
      rewrite (addCheeseToSouffle_one_line sku c1 c2 p1 h1 Hc).
      destruct (cheese_souffle_item_adds_one sku p1 h1 Hs1 Hv1) as (A & B & C & D).
      eexists. eexists. split; [reflexivity|].
      split; [exact A|]. split; [exact C|]. split; [congruence|].
      rewrite D, Hch1. lia. }
  destruct G as (p' & h' & E & _ & _ & Hq & Hch). now exists p', h'.
Qed.

(** ** Cheese on a drink, press by press *)

Lemma cheese_drink_item_adds_up_to_qty (sku : jstring) (p : CartItem.t) (h : Heap) :
  has_sku sku p = true -> (forall l, In l (locs p) -> (l < length h)%nat) ->
  1 <= CartItem.qty p -> cheese_on h p <= CartItem.qty p ->
  let p' := fst (cheese_drink_item sku p h) in
  let h' := snd (cheese_drink_item sku p h) in
  has_sku sku p' = true /\ CartItem.qty p' = CartItem.qty p
  /\ (forall l, In l (locs p') -> (l < length h')%nat)
  /\ cheese_on h' p' = Z.min (cheese_on h p + 1) (CartItem.qty p).
Proof.
  intros Hs Hv Hq Hcap. cbv zeta. revert Hcap.
  unfold cheese_drink_item, cheese_on. rewrite Hs. cbn [negb].
  change (match CartItem.addons p with Some l => l | None => [] end) with (locs p).
  destruct (find_addon h CHEESE_id (locs p)) as [[l ex]|] eqn:Ef; cbn [fst snd];
    intros Hcap.
  - change (locs (CartItem.with_addons p (locs p))) with (locs p).
    split; [exact Hs|]. split; [reflexivity|].
    destruct (Addon.qty ex <? CartItem.qty p) eqn:Elt.
    + apply Z.ltb_lt in Elt. split.
      * intros l' Hl'. unfold incr_qty. rewrite length_insert. now apply Hv.
      * rewrite (find_addon_after_incr h CHEESE_id (locs p) l ex Ef).
        cbn [Addon.qty]. lia.
    + apply Z.ltb_ge in Elt. split; [exact Hv|]. rewrite Ef. lia.
  - split; [exact Hs|]. split; [reflexivity|].
    change (locs (CartItem.with_addons p (locs p ++ [length h])))
      with (locs p ++ [length h]).
    split.
    + intros l' Hl'. rewrite length_app. cbn [length].
      apply in_app_iff in Hl' as [Hl'|[<-|[]]]; [specialize (Hv l' Hl')|]; lia.
    + rewrite (find_addon_fresh h CHEESE_id (locs p) new_cheese Ef Hv eq_refl).
      cbn [new_cheese Addon.qty]. lia.
Qed.

Lemma map_heap_other_drinks (sku : jstring) (c : Cart) (h : Heap) :
  (forall q, In q c -> has_sku sku q = false) ->
  map_heap (cheese_drink_item sku) c h = (c, h).
Proof.
  induction c as [|q c IH]; intros Hc; [reflexivity|]. cbn [map_heap].
  unfold cheese_drink_item at 1. rewrite (Hc q) by now left. cbn [negb].
  rewrite IH; [reflexivity|]. intros q' Hq'. apply Hc. now right.
Qed.

Lemma addCheeseToDrink_one_line (sku : jstring) (c1 c2 : Cart)
    (p : CartItem.t) (h : Heap) :
  (forall q, In q (c1 ++ c2) -> has_sku sku q = false) ->
  addCheeseToDrink sku (c1 ++ p :: c2) h
  = (c1 ++ fst (cheese_drink_item sku p h) :: c2,
     snd (cheese_drink_item sku p h)).
Proof.
  intros Hc. unfold addCheeseToDrink. revert h.
  induction c1 as [|q c1 IH]; intros h; cbn [app map_heap].
  - destruct (cheese_drink_item sku p h) as [p' h1]. cbn [fst snd].
    rewrite map_heap_other_drinks; [reflexivity|].
    intros q Hq. apply Hc. now apply in_app_iff; right.
  - unfold cheese_drink_item at 1. rewrite (Hc q) by now left. cbn [negb].
    rewrite IH; [reflexivity|]. intros q' Hq'. apply Hc. now right.
Qed.

(** X24.  Cheese on a drink counts the presses up to the quantity of
    the line: on a cart with one line for the sku, holding at least one
    drink and no more cheese than drinks, [k] calls of [addCheeseToDrink]
    leave the other lines and the line's quantity as they are and leave
    on the line the smaller of its cheese plus [k] and its quantity. *)
Theorem drink_cheese_counts_presses_up_to_qty (sku : jstring) (k : nat)
    (c1 c2 : Cart) (p : CartItem.t) (h : Heap) :
  has_sku sku p = true ->
  (forall q, In q (c1 ++ c2) -> has_sku sku q = false) ->
  (forall l, In l (locs p) -> (l < length h)%nat) ->
  1 <= CartItem.qty p -> cheese_on h p <= CartItem.qty p ->
  exists p' h',
    press_drink_cheese sku k (c1 ++ p :: c2, h) = (c1 ++ p' :: c2, h')
    /\ CartItem.qty p' = CartItem.qty p
    /\ cheese_on h' p' = Z.min (cheese_on h p + Z.of_nat k) (CartItem.qty p).
Proof.
  intros Hs Hc Hv Hq Hcap.
  assert (G : exists p' h',
            press_drink_cheese sku k (c1 ++ p :: c2, h) = (c1 ++ p' :: c2, h')
            /\ has_sku sku p' = true
            /\ (forall l, In l (locs p') -> (l < length h')%nat)
            /\ CartItem.qty p' = CartItem.qty p
            /\ cheese_on h' p' = Z.min (cheese_on h p + Z.of_nat k) (CartItem.qty p)).
  { induction k as [|k IH].
    - exists p, h. rewrite Z.add_0_r. repeat split; try easy. lia.
    - destruct IH as (p1 & h1 & E & Hs1 & Hv1 & Hq1 & Hch1).
      change (press_drink_cheese sku (S k) (c1 ++ p :: c2, h))
        with (addCheeseToDrink sku
                (fst (press_drink_cheese sku k (c1 ++ p :: c2, h)))
                (snd (press_drink_cheese sku k (c1 ++ p :: c2, h)))).
      rewrite E. cbn [fst snd].
      rewrite (addCheeseToDrink_one_line sku c1 c2 p1 h1 Hc).
      destruct (cheese_drink_item_adds_up_to_qty sku p1 h1 Hs1 Hv1) as (A & B & C & D);
        [lia|lia|].
      eexists. eexists. split; [reflexivity|].
      split; [exact A|]. split; [exact C|]. split; [congruence|].
      rewrite D, Hch1, Hq1. lia. }
  destruct G as (p' & h' & E & _ & _ & Hq' & Hch). now exists p', h'.
Qed.

(** ** Queue numbers within a year *)

(** X25.  The queue numbers issued by successive calls that all observe
    the same calendar year are pairwise distinct, provided the stored
    counter they continue from is not negative and the counters stay
    within 2^53. *)
Theorem queue_numbers_of_a_year_are_distinct (k : nat) (w : World) (Y : Z) :
  (forall i, (i < k)%nat -> year (clock w (tick w + i)) = Y) ->
  0 <= counter_base Y w ->
  counter_base Y w + Z.of_nat k <= 2 ^ 53 ->
  List.NoDup (fst (issue k w)).
Proof.
  intros HY Hb _. rewrite (issue_same_year k w Y HY).
  apply (List.NoDup_map_inv counter_of). rewrite map_map.
  rewrite (map_ext_in _ (fun i => Some (counter_base Y w + Z.of_nat i + 1))).
  - apply Finite.Injective_map_NoDup; [|apply List.seq_NoDup].
    intros i j [= E]. lia.
  - intros i _. apply counter_of_label. lia.
Qed.

(** ** The records of the Firestore variant *)

Section FirestoreRecords.

Variable Timestamp : Type.
Variable toMillis : Timestamp -> Q.

Lemma own_define_same (k : jstring) (v : FVal Timestamp) (o : Fields Timestamp) :
  own k (define k v o) = Some v.
Proof.
  induction o as [|[k' v'] r IH]; cbn [define own].
  - now rewrite str_eqb_refl.
  - destruct (str_eqb k' k) eqn:E; cbn [own]; now rewrite E.
Qed.

Lemma own_define_other (k k0 : jstring) (v : FVal Timestamp) (o : Fields Timestamp) :
  k0 <> k -> own k0 (define k v o) = own k0 o.
Proof.
  intros Hne. induction o as [|[k' v'] r IH]; cbn [define own].
  - assert (E : str_eqb k k0 = false) by (apply str_eqb_neq; congruence).
    now rewrite E.
  - destruct (str_eqb k' k) eqn:E; cbn [own].
    + apply str_eqb_eq in E. subst k'.
      assert (E' : str_eqb k k0 = false) by (apply str_eqb_neq; congruence).
      now rewrite E'.
    + now rewrite IH.
Qed.

Lemma own_spread (k : jstring) (src acc : Fields Timestamp) :
  List.NoDup (map fst src) ->
  own k (spread src acc)
  = match own k src with Some v => Some v | None => own k acc end.
Proof.
  unfold spread. revert acc.
  induction src as [|[k' v'] r IH]; intros acc Hnd; [reflexivity|].
  cbn [fold_left fst snd map own] in *. inversion Hnd as [|? ? Hk Hr]; subst.
  rewrite IH by exact Hr. destruct (str_eqb k' k) eqn:E.
  - apply str_eqb_eq in E. subst k'.
    assert (Hn : own k r = None).
    { clear -Hk. induction r as [|[k1 v1] r IH]; [reflexivity|]. cbn [own map fst] in *.
      destruct (str_eqb k1 k) eqn:E.
      - apply str_eqb_eq in E. subst k1. exfalso. apply Hk. now left.
      - apply IH. intros H. apply Hk. now right. }
    rewrite Hn. apply own_define_same.
  - destruct (own k r); [reflexivity|]. apply own_define_other.
    apply str_eqb_neq in E. congruence.
Qed.

(** X26.  What [watchOrders] hands on for a document: [createdAt] and
    [expiresAt] are never [Timestamp] objects (a Timestamp is replaced by
    its milliseconds, anything else is passed as it is, [undefined] when
    the field is missing); every other field of the document is passed
    unchanged, a Timestamp under another name included; and [_docId] is
    the document's id only when the document has no field of that name,
    which otherwise takes its place. *)
Theorem watched_document_fields (id : jstring) (data : Fields Timestamp) :
  List.NoDup (map fst data) ->
  let out := watch_doc toMillis id data in
  field Key.createdAt out = millis toMillis (field Key.createdAt data)
  /\ field Key.expiresAt out = millis toMillis (field Key.expiresAt data)
  /\ (forall t, field Key.createdAt out <> FStamp t)
  /\ (forall t, field Key.expiresAt out <> FStamp t)
  /\ (forall k, k <> Key.createdAt -> k <> Key.expiresAt -> k <> docId_key ->
        own k out = own k data)
  /\ field docId_key out
     = match own docId_key data with Some v => v | None => FPlain (JStr id) end.
Proof.
  intros Hnd. cbv zeta. unfold watch_doc.
  assert (Hc : field Key.createdAt
                 (define Key.expiresAt (millis toMillis (field Key.expiresAt data))
                    (define Key.createdAt (millis toMillis (field Key.createdAt data))
                       (spread data [(docId_key, FPlain (JStr id))])))
               = millis toMillis (field Key.createdAt data)).
  { unfold field at 1. rewrite own_define_other by discriminate.
    now rewrite own_define_same. }
  assert (He : field Key.expiresAt
                 (define Key.expiresAt (millis toMillis (field Key.expiresAt data))
                    (define Key.createdAt (millis toMillis (field Key.createdAt data))
                       (spread data [(docId_key, FPlain (JStr id))])))
               = millis toMillis (field Key.expiresAt data)).
  { unfold field at 1. now rewrite own_define_same. }
  split; [exact Hc|]. split; [exact He|]. split; [|split; [|split]].
  - intros t. rewrite Hc. now destruct (field Key.createdAt data).
  - intros t. rewrite He. now destruct (field Key.expiresAt data).
  - intros k H1 H2 H3. rewrite !own_define_other by congruence.
    rewrite own_spread by exact Hnd. destruct (own k data); [reflexivity|].
    cbn [own]. assert (E : str_eqb docId_key k = false)
      by (apply str_eqb_neq; congruence).
    now rewrite E.
  - unfold field. rewrite !own_define_other by discriminate.
    rewrite own_spread by exact Hnd. destruct (own docId_key data); [reflexivity|].
    cbn [own]. now rewrite str_eqb_refl.
Qed.

(** X27.  [createOrder] never sends the caller's [createdAt]: the object
    handed to [addDoc] has the server's timestamp marker under [createdAt]
    whatever the argument holds there, and every other field of the
    argument as it is, [expiresAt] included. *)
Theorem created_document_fields (stamp : FVal Timestamp) (docData : Fields Timestamp) :
  List.NoDup (map fst docData) ->
  field Key.createdAt (created_doc stamp docData) = stamp
  /\ (forall k, k <> Key.createdAt ->
        own k (created_doc stamp docData) = own k docData)
  /\ (forall v k,
        own k (created_doc stamp (define Key.createdAt v docData))
        = own k (created_doc stamp docData)).
Proof.
  intros Hnd. unfold created_doc.
  assert (Hother : forall d : Fields Timestamp, List.NoDup (map fst d) ->
            forall k, k <> Key.createdAt ->
              own k (define Key.createdAt stamp (spread d [])) = own k d).
  { intros d Hd k Hk. rewrite own_define_other by exact Hk.
    rewrite own_spread by exact Hd. now destruct (own k d). }
  assert (Hkeys : forall (v : FVal Timestamp) (d : Fields Timestamp),
            List.NoDup (map fst d) -> List.NoDup (map fst (define Key.createdAt v d))).
  { intros v d. induction d as [|[k' v'] r IH]; cbn [define map fst]; intros Hd.
    - constructor; [intros []|constructor].
    - inversion Hd as [|? ? Hk Hr]; subst.
      destruct (str_eqb k' Key.createdAt) eqn:E; cbn [map fst].
      + now constructor.
      + constructor; [|now apply IH]. intros Hin. apply Hk.
        clear -Hin E. induction r as [|[k1 v1] r IH]; cbn [define map fst] in *.
        * destruct Hin as [<-|[]]. now rewrite str_eqb_refl in E.
        * destruct (str_eqb k1 Key.createdAt); cbn [map fst] in *; [exact Hin|].
          destruct Hin as [<-|Hin]; [now left|right; now apply IH]. }
  split; [|split].
  - unfold field. now rewrite own_define_same.
  - now apply Hother.
  - intros v k. destruct (str_eqb Key.createdAt k) eqn:E.
    + apply str_eqb_eq in E. subst k. now rewrite !own_define_same.
    + apply str_eqb_neq in E.
      rewrite (Hother _ (Hkeys v docData Hnd) k) by congruence.
      rewrite (Hother _ Hnd k) by congruence.
      apply own_define_other. congruence.
Qed.

End FirestoreRecords.

(** ** Instances of the further properties *)

Lemma two_drinks_tidy : tidy two_drinks_one_cheese.
Proof.
  split.
  - constructor; [intros []|constructor].
  - constructor; [simpl; lia|constructor].
Qed.

Lemma getAllOrders_degrades_witness :
  let w := mkWorld (Doc (JArr [JObj []; JNull])) None counting_clock 0 in
  In JNull [JObj []; JNull] /\ fst (getAllOrders no_coercion w) = [].
Proof.
  cbv zeta. split; [right; now left|].
  apply getAllOrders_degrades_to_empty. right. right. right.
  exists [JObj []; JNull]. split; [reflexivity|]. right. now left.
Defined.

Lemma getAllOrders_only_reads_witness :
  exists k,
    snd (getAllOrders no_coercion (mkWorld (Doc (JArr odd_records)) None counting_clock 0))
    = mkWorld (Doc (JArr odd_records)) None counting_clock (0 + k)
    /\ forall arr, Doc (JArr odd_records) = Doc (JArr arr) -> (k <= length arr)%nat.
Proof.
  exact (getAllOrders_only_reads no_coercion
           (mkWorld (Doc (JArr odd_records)) None counting_clock 0)).
Defined.

Lemma saved_orders_witness :
  let os := [sample_order Paid None] in
  Forall well_formed os
  /\ getAllOrders no_coercion (snd (saveAllOrders os fresh_world))
     = (os, snd (saveAllOrders os fresh_world)).
Proof.
  cbv zeta.
  assert (Hwf : Forall well_formed [sample_order Paid None])
    by (constructor; [apply sample_well_formed_open|constructor]).
  split; [exact Hwf|].
  exact (saved_orders_read_back no_coercion _ fresh_world Hwf).
Defined.

Lemma deleteOrder_witness :
  let os := [sample_order Paid None] in
  Forall well_formed os
  /\ ls_orders (world (deleteOrder no_coercion (JStr (lit "Q-001")) (session os)))
     = stored [].
Proof.
  cbv zeta.
  assert (Hwf : Forall well_formed [sample_order Paid None])
    by (constructor; [apply sample_well_formed_open|constructor]).
  split; [exact Hwf|].
  exact (proj1 (deleteOrder_removes_every_match no_coercion
                  (session [sample_order Paid None]) _
                  (JStr (lit "Q-001")) Hwf eq_refl)).
Defined.

Lemma unknown_id_witness :
  let os := [sample_order Paid None] in
  Forall well_formed os
  /\ strict_eq (Order.id (sample_order Paid None)) (JStr (lit "Q-777")) = false
  /\ ls_orders (world (updateOrder no_coercion (JStr (lit "Q-777"))
                         (Patch.of_status Done) (session os)))
     = stored os.
Proof.
  cbv zeta.
  assert (Hwf : Forall well_formed [sample_order Paid None])
    by (constructor; [apply sample_well_formed_open|constructor]).
  split; [exact Hwf|]. split; [reflexivity|].
  refine (proj1 (unknown_id_is_ignored no_coercion
                   (session [sample_order Paid None]) _
                   (JStr (lit "Q-777")) (Patch.of_status Done) Hwf eq_refl _)).
  intros o [<-|[]]. reflexivity.
Defined.

Lemma accepted_submission_witness :
  let s := with_ui (set_pickupName (lit "Aisyah")
                      (set_cart two_drinks_one_cheese (ui (session []))))
             (session []) in
  Exists (fun c => is_ws c = false) (pickupName (ui s))
  /\ length (timers (submitOrder s)) = 1%nat
  /\ placing (ui (submitOrder s)) = true.
Proof.
  cbv zeta.
  assert (Hn : Exists (fun c => is_ws c = false) (lit "Aisyah"))
    by (apply Exists_cons_hd; reflexivity).
  split; [exact Hn|].
  pose proof (accepted_submission_schedules_one_order
                (with_ui (set_pickupName (lit "Aisyah")
                            (set_cart two_drinks_one_cheese (ui (session []))))
                   (session [])))
    as H.
  destruct H as (H1 & H2 & _); [discriminate|exact Hn|].
  split; [now rewrite H1|exact H2].
Defined.

Lemma placed_order_witness :
  let o := fst (new_order sample_closure [] fresh_world) in
  Order.status o = New
  /\ Order.pickupName o = JStr (lit "Aisyah")
  /\ Order.note o = None.
Proof.
  cbv zeta.
  assert (Hn : Exists (fun c => is_ws c = false) (c_pickupName sample_closure))
    by (apply Exists_cons_hd; reflexivity).
  pose proof (placed_order_carries_the_form sample_closure [] fresh_world Hn)
    as (H1 & _ & _ & H4 & _).
  split; [exact H1|]. split; [reflexivity|]. now apply H4.
Defined.

Lemma full_store_well_formed : Forall well_formed full_store.
Proof.
  apply List.Forall_forall. intros o Ho. apply repeat_spec in Ho. subst o.
  apply sample_well_formed_open.
Qed.

Lemma timer_witness :
  let o := fst (new_order filled_closure (heap timer_due) (world timer_due)) in
  let s' := fire no_coercion timer_due in
  length full_store = 300%nat
  /\ Order.id o = JStr (lit "Q-042")
  /\ Order.pickupName o = JStr (lit "Aisyah")
  /\ Order.phone o = Some (JStr (lit "012"))
  /\ Order.marketingOptIn o = false
  /\ ls_orders (world s') = stored (o :: repeat (sample_order Paid None) 299)
  /\ orders (ui s') = o :: repeat (sample_order Paid None) 299
  /\ placed (ui s') = Some o
  /\ timers s' = [sample_closure]
  /\ (cart (ui timer_due) <> [] /\ cart (ui s') = [])
  /\ (pickupName (ui timer_due) <> [] /\ pickupName (ui s') = [])
  /\ (note (ui timer_due) <> [] /\ note (ui s') = [])
  /\ (phone (ui timer_due) <> [] /\ phone (ui s') = [])
  /\ (marketing (ui timer_due) = false /\ marketing (ui s') = true)
  /\ (placing (ui timer_due) = true /\ placing (ui s') = false).
Proof.
  cbv zeta.
  destruct (timer_puts_order_first_and_caps no_coercion timer_due
              filled_closure [sample_closure] full_store)
    as (H1 & H2 & H3 & H4 & H5 & H6 & H7 & H8 & H9 & H10 & _ & _ & H13);
    [reflexivity|right; split; [reflexivity|exact full_store_well_formed]|].
  assert (E : take 300 (fst (new_order filled_closure (heap timer_due)
                               (world timer_due)) :: full_store)
              = fst (new_order filled_closure (heap timer_due) (world timer_due))
                :: repeat (sample_order Paid None) 299).
  { rewrite H13 by (unfold full_store; rewrite repeat_length; lia).
    reflexivity. }
  rewrite E in H1, H2.
  split; [reflexivity|]. split; [reflexivity|]. split; [reflexivity|].
  split; [reflexivity|]. split; [reflexivity|].
  split; [exact H1|]. split; [exact H2|]. split; [exact H3|].
  split; [exact H4|].
  split; [split; [vm_compute; discriminate|exact H5]|].
  split; [split; [vm_compute; discriminate|exact H6]|].
  split; [split; [vm_compute; discriminate|exact H7]|].
  split; [split; [vm_compute; discriminate|exact H8]|].
  split; [split; [reflexivity|exact H9]|].
  split; [reflexivity|exact H10].
Defined.

Lemma undisturbed_order_witness :
  let s := with_ui (set_pickupName (lit "Aisyah")
                      (set_cart two_drinks_one_cheese (ui (session []))))
             (mkSys (ui (session [])) [new_cheese] (world (session [])) [] []) in
  exists o,
    placed (ui (fire no_coercion (submitOrder s))) = Some o
    /\ Order.total o = Fin (800 # 100).
Proof.
  cbv zeta.
  destruct (undisturbed_order_totals_its_items no_coercion
              (with_ui (set_pickupName (lit "Aisyah")
                          (set_cart two_drinks_one_cheese (ui (session []))))
                 (mkSys (ui (session [])) [new_cheese] (world (session [])) [] [])))
    as (o & H1 & _ & H3);
    [reflexivity|discriminate|apply Exists_cons_hd; reflexivity|].
  exists o. split; [exact H1|]. rewrite H3. vm_compute. reflexivity.
Defined.

Lemma session_cart_witness :
  exists s,
    run no_coercion cheese_while_placing (mount no_coercion [] fresh_world) = Some s
    /\ tidy (cart (ui s)).
Proof.
  eexists. split; [vm_compute; reflexivity|].
  apply (session_cart_stays_tidy no_coercion cheese_while_placing [] fresh_world).
  vm_compute. reflexivity.
Defined.

Lemma dec_undoes_inc_witness :
  dec hojicha (inc hojicha two_drinks_one_cheese) = two_drinks_one_cheese.
Proof.
  refine (proj1 (dec_undoes_inc hojicha two_drinks_one_cheese _)).
  intros x H. vm_compute in H. injection H as <-. simpl. lia.
Defined.

Lemma dec_takes_one_unit_witness :
  qty_of hojicha two_drinks_one_cheese = 2
  /\ qty_of hojicha (dec hojicha two_drinks_one_cheese) = 1
  /\ map CartItem.addons (dec hojicha two_drinks_one_cheese) = [Some [0%nat]].
Proof.
  split; [reflexivity|].
  destruct (dec_takes_one_unit hojicha two_drinks_one_cheese
              (CartItem.mk hojicha [] (lit "Hojicha (Drink)") 3 2 (Some [0%nat]))
              two_drinks_tidy eq_refl) as (H1 & _ & H3 & _); [simpl; lia|].
  split; [exact H1|exact H3].
Defined.

Lemma badge_witness :
  cart_count two_drinks_one_cheese = 2
  /\ cart_count (addFlavor vanilla two_drinks_one_cheese) = 2 + 1
  /\ cart_count (clearCart two_drinks_one_cheese) = 0.
Proof.
  split; [reflexivity|].
  destruct (badge_follows_the_cart two_drinks_one_cheese two_drinks_tidy)
    as (H1 & _ & _ & _ & H5).
  split; [exact (H1 vanilla)|exact H5].
Defined.

Lemma subtotal_witness :
  (subtotal (inc hojicha two_drinks_one_cheese) [new_cheese]
   == subtotal two_drinks_one_cheese [new_cheese] + 3)%Q.
Proof.
  destruct (subtotal_follows_the_cart two_drinks_one_cheese [new_cheese])
    as (_ & _ & H3 & _).
  - constructor; [intros []|constructor].
  - exact (H3 hojicha _ eq_refl).
Defined.

Lemma countdown_witness :
  countdown (Some (Fin 600005)) 600000 = TimeLeft (lit "0") (lit "00")
  /\ countdown (Some (Fin 600005)) 600005 = Expired.
Proof.
  split.
  - refine (proj2 (proj2 (proj2 (countdown_shows_time_left_until_expiry 600005 600000))) _ _ _);
      [discriminate|reflexivity|reflexivity].
  - refine (proj1 (proj2 (countdown_shows_time_left_until_expiry 600005 600005)) _ _);
      [discriminate|discriminate].
Defined.

Lemma ten_minutes_witness :
  let o := fst (new_order sample_closure [] fresh_world) in
  ms (clock fresh_world (2 + tick fresh_world)) <= 5
  /\ remMin (remainingMs (Order.expiresAt o) 5) <= 10.
Proof.
  cbv zeta.
  assert (H : ms (clock fresh_world (2 + tick fresh_world)) <= 5) by (simpl; lia).
  split; [exact H|].
  exact (proj1 (proj2 (placed_order_counts_down_from_ten_minutes
                         sample_closure [] fresh_world 5 H))).
Defined.

Lemma board_list_witness :
  Forall (fun o => Order.createdAt o <> NaN) unsorted_orders
  /\ filtered unsorted_orders Filter.All
     = [ order_at "Q-003" New 3000; order_at "Q-004" New 3000;
         order_at "Q-002" Paid 2000; order_at "Q-001" Done 1000 ]
  /\ newest_first (filtered unsorted_orders Filter.All)
  /\ created_at 3000 (filtered unsorted_orders Filter.All)
     = [ order_at "Q-003" New 3000; order_at "Q-004" New 3000 ].
Proof.
  assert (H : Forall (fun o => Order.createdAt o <> NaN) unsorted_orders)
    by (repeat constructor; discriminate).
  split; [exact H|]. split; [reflexivity|].
  destruct (board_lists_newest_first unsorted_orders H) as (_ & H2 & H3).
  split; [exact H2|]. now rewrite H3.
Defined.

Lemma board_filter_witness :
  filtered [sample_order Done None; sample_order New None] (lit "Refunded") = [].
Proof.
  refine (proj2 (proj2 (proj2 (board_filter_selects_by_status
                                 [sample_order Done None; sample_order New None])))
            (lit "Refunded") _ _ _).
  - discriminate.
  - discriminate.
  - intros st. destruct st; discriminate.
Defined.

Lemma fresh_clock_ok : clock_ok fresh_world.
Proof. intros i. simpl. lia. Qed.

Lemma board_and_store_witness :
  exists s,
    run no_coercion cheese_while_placing (mount no_coercion [] fresh_world) = Some s
    /\ fst (getAllOrders no_coercion (world s)) = orders (ui s)
    /\ length (orders (ui s)) = 1%nat.
Proof.
  eexists. split; [vm_compute; reflexivity|].
  split; [|vm_compute; reflexivity].
  refine (proj1 (board_list_is_the_store no_coercion cheese_while_placing []
                   fresh_world _ (or_introl eq_refl) fresh_clock_ok _ _ _)).
  - repeat constructor.
  - simpl. lia.
  - vm_compute. reflexivity.
Defined.

Lemma souffle_cheese_witness :
  exists p' h',
    press_souffle_cheese hojicha 3 (two_drinks_one_cheese, [new_cheese])
    = ([p'], h')
    /\ CartItem.qty p' = 2
    /\ cheese_on h' p' = 1 + 3.
Proof.
  refine (souffle_cheese_counts_every_press hojicha 3 [] []
            (CartItem.mk hojicha [] (lit "Hojicha (Drink)") 3 2 (Some [0%nat]))
            [new_cheese] eq_refl _ _).
  - intros q [].
  - intros l [<-|[]]. simpl. lia.
Defined.

Lemma drink_presses_witness :
  exists p' h',
    press_drink_cheese hojicha 5 (two_drinks_one_cheese, [new_cheese])
    = ([p'], h')
    /\ CartItem.qty p' = 2
    /\ cheese_on h' p' = Z.min (1 + 5) 2.
Proof.
  refine (drink_cheese_counts_presses_up_to_qty hojicha 5 [] []
            (CartItem.mk hojicha [] (lit "Hojicha (Drink)") 3 2 (Some [0%nat]))
            [new_cheese] eq_refl _ _ _ _).
  - intros q [].
  - intros l [<-|[]]. simpl. lia.
  - simpl. lia.
  - vm_compute. discriminate.
Defined.

Lemma distinct_numbers_witness :
  let w := mkWorld NoText (Some (1970, 998)) counting_clock 0 in
  0 <= counter_base 1970 w
  /\ fst (issue 3 w) = [lit "Q-999"; lit "Q-1000"; lit "Q-1001"]
  /\ List.NoDup (fst (issue 3 w)).
Proof.
  cbv zeta.
  assert (H : 0 <= counter_base 1970
                     (mkWorld NoText (Some (1970, 998)) counting_clock 0))
    by (vm_compute; discriminate).
  split; [exact H|]. split; [reflexivity|].
  apply (queue_numbers_of_a_year_are_distinct 3 _ 1970); [|exact H|].
  - intros i _. reflexivity.
  - vm_compute. discriminate.
Defined.

Lemma watched_document_witness :
  let data : Fields Z :=
    [ (Key.createdAt, FStamp 5%Z); (docId_key, FPlain (JStr (lit "mine"))) ] in
  let out := watch_doc inject_Z (lit "abc") data in
  List.NoDup (map fst data)
  /\ field Key.createdAt out = FPlain (JNum 5)
  /\ field docId_key out = FPlain (JStr (lit "mine")).
Proof.
  cbv zeta.
  assert (Hnd : List.NoDup (map fst
                  [ (Key.createdAt, @FStamp Z 5%Z);
                    (docId_key, FPlain (JStr (lit "mine"))) ])).
  { constructor; [intros [H|[]]; discriminate H|].
    constructor; [intros []|constructor]. }
  split; [exact Hnd|].
  destruct (watched_document_fields Z inject_Z (lit "abc") _ Hnd)
    as (H1 & _ & _ & _ & _ & H6).
  split; [exact H1|exact H6].
Defined.

Lemma created_document_witness :
  let docData : Fields Z :=
    [ (Key.createdAt, FPlain (JNum 1)); (Key.expiresAt, FPlain (JNum 600001)) ] in
  List.NoDup (map fst docData)
  /\ field Key.createdAt (created_doc (FStamp 0%Z) docData) = FStamp 0%Z
  /\ own Key.expiresAt (created_doc (FStamp 0%Z) docData)
     = Some (FPlain (JNum 600001)).
Proof.
  cbv zeta.
  assert (Hnd : List.NoDup (map fst
                  [ (Key.createdAt, @FPlain Z (JNum 1));
                    (Key.expiresAt, FPlain (JNum 600001)) ])).
  { constructor; [intros [H|[]]; discriminate H|].
    constructor; [intros []|constructor]. }
  split; [exact Hnd|].
  destruct (created_document_fields Z (FStamp 0%Z) _ Hnd) as (H1 & H2 & _).
  split; [exact H1|]. apply H2. discriminate.
Defined.
